(** * Rockchip RVE job scheduler: a shallow embedding of rve_job.c

    The development follows drivers/video/rockchip/rve/rve_job.c.  Kernel
    objects reached through pointers (jobs, contexts) live in finite maps
    keyed by their address, a context by the id under which the idr holds
    it; freeing an object removes it from its map, so that a later
    dereference shows as a fault.  The command arrays that Configure
    allocates with kmalloc are kept as a set of live addresses: the
    register read-back of rve_job_done writes through the job's pointer
    into such an array and faults when the address is not live.  The
    scheduler of core 0 (the only one that [rve_job_alloc] ever hands out)
    is a record holding the todo list, the running slot and the queue
    counter.  Side effects on collaborators that are outside the file
    (register back end, fences, wait queues, user copies) are recorded in
    an event log, newest event first.

    The file is read as built with CONFIG_SYNC_FILE and without
    RVE_PD_AWAYS_ON.  The load timer of rve_drv.c is modelled on its own,
    over the driver state, which it only reads.  The debug_info statistics
    of a context are written but never read in rve_job.c and are left
    out, as are the DEBUGGER_EN traces. *)

From stdpp Require Import gmap list.
From Stdlib Require Import ZArith Lia.

Local Open Scope Z_scope.

(** ** Machine integers and errno values *)

(** C [int] arithmetic as the kernel compiles it (two's complement wrap). *)
Definition int_wrap (z : Z) : Z := (z + 2 ^ 31) mod 2 ^ 32 - 2 ^ 31.
Definition INT_MAX : Z := 2 ^ 31 - 1.

Definition ENOMEM : Z := 12.
Definition EFAULT : Z := 14.
Definition EBUSY : Z := 16.
Definition EINVAL : Z := 22.
Definition ERESTARTSYS : Z := 512.
Definition NSEC_PER_MSEC : Z := 1000000.

Definition MAX_ERRNO : Z := 4095.

(** IS_ERR_OR_NULL on a pointer: NULL or one of the top MAX_ERRNO
    addresses, which read as -MAX_ERRNO .. -1. *)
Definition IS_ERR_OR_NULL (p : Z) : bool :=
  (p =? 0) || ((- MAX_ERRNO <=? p) && (p <? 0)).

(** ktime_to_ms: nanoseconds to milliseconds, C division. *)
Definition ktime_to_ms (kt : Z) : Z := Z.quot kt NSEC_PER_MSEC.

(** Constants of rve_drv.h.  The header is not among the sources, so the
    values are taken as parameters of the whole development. *)
Class rve_defs := {
  RVE_SCHED_PRIORITY_DEFAULT : Z;
  RVE_SCHED_PRIORITY_MAX : Z;
  RVE_ASYNC : Z;
  RVE_SYNC : Z;
  RVE_JOB_DONE : Z;
  RVE_ASYNC_TIMEOUT_DELAY : Z
}.

(** ** Data model *)

Abbreviation ptr := Z.

(** struct rve_job.  [job_scheduler] is [false] for a NULL scheduler
    pointer; [job_regcmd_data] is the address of the job's slot in the
    context's command array, counted in array elements. *)
Record rve_job := mk_job {
  job_ctx : ptr;
  job_scheduler : bool;
  job_priority : Z;
  job_flags : Z;
  job_ret : Z;
  job_timestamp : Z;
  job_hw_running_time : Z;
  job_regcmd_data : Z;
  job_out_fence : option ptr
}.

(** struct rve_internal_ctx_t (without its debug_info statistics). *)
Record rve_internal_ctx_t := mk_ctx {
  ctx_id : Z;
  ctx_refcount : Z;
  ctx_sync_mode : Z;
  ctx_cmd_num : Z;
  ctx_finished_job_count : Z;
  ctx_running_job_count : Z;
  ctx_is_running : bool;
  ctx_priority : Z;
  ctx_regcmd_data : Z;
  ctx_in_fence_fd : Z;
  ctx_out_fence : option ptr;
  ctx_out_fence_fd : Z
}.

(** struct rve_scheduler_t: the fields guarded by irq_lock. *)
Record rve_scheduler_t := mk_sched {
  todo_list : list ptr;
  running_job : option ptr;
  job_count : Z
}.

(** struct rve_user_ctx_t, the ioctl argument. *)
Record rve_user_ctx_t := mk_user_ctx {
  uc_id : Z;
  uc_cmd_num : Z;
  uc_regcmd_data : Z;
  uc_sync_mode : Z;
  uc_priority : Z;
  uc_in_fence_fd : Z;
  uc_out_fence_fd : Z
}.

Inductive rve_event :=
  | EvPowerEnable
  | EvPowerDisable
  | EvInitReg (job : ptr)
  | EvSetReg (job : ptr)
  | EvSoftReset
  | EvReadCfgReg (job : ptr)
  | EvFenceSignal (fence : ptr)
  | EvFencePut (fence : ptr)
  | EvFenceCallback (job : ptr)
  | EvCloseFd (fd : Z)
  | EvWakeUp
  | EvWait (job : ptr)
  | EvFreePage (job : ptr)
  | EvKfree (addr : ptr)
  | EvCopyFromUser (count : Z)
  | EvCopyToUser (count : Z).

Global Instance rve_event_eq_dec : EqDecision rve_event.
Proof. solve_decision. Defined.

(** The whole driver state.  [st_pages] is the supply of pages that
    get_zeroed_page will hand out (empty: allocation fails); [st_clock] is
    what ktime_get reads; [st_regcmds] holds the addresses of the command
    arrays (struct rve_cmd_reg_array_t, one element each) that kmalloc has
    handed out and kfree has not taken back. *)
Record rve_state := mk_state {
  st_sched : rve_scheduler_t;
  st_jobs : gmap Z rve_job;
  st_ctxs : gmap Z rve_internal_ctx_t;
  st_ctx_count : Z;
  st_pages : list ptr;
  st_clock : Z;
  st_log : list rve_event;
  st_regcmds : gset Z
}.

(** Field updates. *)
Definition set_job_priority (p : Z) (j : rve_job) : rve_job :=
  mk_job (job_ctx j) (job_scheduler j) p (job_flags j) (job_ret j)
         (job_timestamp j) (job_hw_running_time j) (job_regcmd_data j)
         (job_out_fence j).
Definition set_job_flags (f : Z) (j : rve_job) : rve_job :=
  mk_job (job_ctx j) (job_scheduler j) (job_priority j) f (job_ret j)
         (job_timestamp j) (job_hw_running_time j) (job_regcmd_data j)
         (job_out_fence j).
Definition set_job_ret (r : Z) (j : rve_job) : rve_job :=
  mk_job (job_ctx j) (job_scheduler j) (job_priority j) (job_flags j) r
         (job_timestamp j) (job_hw_running_time j) (job_regcmd_data j)
         (job_out_fence j).
Definition set_job_out_fence (f : option ptr) (j : rve_job) : rve_job :=
  mk_job (job_ctx j) (job_scheduler j) (job_priority j) (job_flags j)
         (job_ret j) (job_timestamp j) (job_hw_running_time j)
         (job_regcmd_data j) f.

Definition set_ctx_sync_mode (m : Z) (c : rve_internal_ctx_t) :=
  mk_ctx (ctx_id c) (ctx_refcount c) m (ctx_cmd_num c)
         (ctx_finished_job_count c) (ctx_running_job_count c)
         (ctx_is_running c) (ctx_priority c) (ctx_regcmd_data c)
         (ctx_in_fence_fd c) (ctx_out_fence c) (ctx_out_fence_fd c).
Definition set_ctx_refcount (r : Z) (c : rve_internal_ctx_t) :=
  mk_ctx (ctx_id c) r (ctx_sync_mode c) (ctx_cmd_num c)
         (ctx_finished_job_count c) (ctx_running_job_count c)
         (ctx_is_running c) (ctx_priority c) (ctx_regcmd_data c)
         (ctx_in_fence_fd c) (ctx_out_fence c) (ctx_out_fence_fd c).
Definition set_ctx_running_job_count (n : Z) (c : rve_internal_ctx_t) :=
  mk_ctx (ctx_id c) (ctx_refcount c) (ctx_sync_mode c) (ctx_cmd_num c)
         (ctx_finished_job_count c) n
         (ctx_is_running c) (ctx_priority c) (ctx_regcmd_data c)
         (ctx_in_fence_fd c) (ctx_out_fence c) (ctx_out_fence_fd c).
Definition set_ctx_out_fence (f : option ptr) (fd : Z) (c : rve_internal_ctx_t) :=
  mk_ctx (ctx_id c) (ctx_refcount c) (ctx_sync_mode c) (ctx_cmd_num c)
         (ctx_finished_job_count c) (ctx_running_job_count c)
         (ctx_is_running c) (ctx_priority c) (ctx_regcmd_data c)
         (ctx_in_fence_fd c) f fd.
(** [ctx->regcmd_data = ...; ++ctx->finished_job_count] *)
Definition ctx_record_finish (regcmd finished : Z) (c : rve_internal_ctx_t) :=
  mk_ctx (ctx_id c) (ctx_refcount c) (ctx_sync_mode c) (ctx_cmd_num c)
         finished (ctx_running_job_count c)
         (ctx_is_running c) (ctx_priority c) regcmd
         (ctx_in_fence_fd c) (ctx_out_fence c) (ctx_out_fence_fd c).
(** [ctx->is_running = false; ctx->out_fence = NULL] *)
Definition ctx_stop (c : rve_internal_ctx_t) :=
  mk_ctx (ctx_id c) (ctx_refcount c) (ctx_sync_mode c) (ctx_cmd_num c)
         (ctx_finished_job_count c) (ctx_running_job_count c)
         false (ctx_priority c) (ctx_regcmd_data c)
         (ctx_in_fence_fd c) None (ctx_out_fence_fd c).
(** The "Reset" block of rve_job_commit_by_user_ctx. *)
Definition ctx_reset (c : rve_internal_ctx_t) :=
  mk_ctx (ctx_id c) (ctx_refcount c) (ctx_sync_mode c) (ctx_cmd_num c)
         0 0 true (ctx_priority c) (ctx_regcmd_data c)
         (ctx_in_fence_fd c) (ctx_out_fence c) (ctx_out_fence_fd c).
(** The five stores that end rve_job_config_by_user_ctx. *)
Definition ctx_configure (u : rve_user_ctx_t) (regcmd : Z) (c : rve_internal_ctx_t) :=
  mk_ctx (ctx_id c) (ctx_refcount c) (uc_sync_mode u) (uc_cmd_num u)
         (ctx_finished_job_count c) (ctx_running_job_count c)
         (ctx_is_running c) (uc_priority u) regcmd
         (uc_in_fence_fd u) (ctx_out_fence c) (ctx_out_fence_fd c).

Definition set_running_job (r : option ptr) (s : rve_scheduler_t) :=
  mk_sched (todo_list s) r (job_count s).

Definition set_uc_cmd_num (n : Z) (u : rve_user_ctx_t) :=
  mk_user_ctx (uc_id u) n (uc_regcmd_data u) (uc_sync_mode u)
              (uc_priority u) (uc_in_fence_fd u) (uc_out_fence_fd u).
Definition set_uc_out_fence_fd (fd : Z) (u : rve_user_ctx_t) :=
  mk_user_ctx (uc_id u) (uc_cmd_num u) (uc_regcmd_data u) (uc_sync_mode u)
              (uc_priority u) (uc_in_fence_fd u) fd.

Definition with_sched (s : rve_scheduler_t) (st : rve_state) :=
  mk_state s (st_jobs st) (st_ctxs st) (st_ctx_count st) (st_pages st)
           (st_clock st) (st_log st) (st_regcmds st).
Definition with_jobs (m : gmap Z rve_job) (st : rve_state) :=
  mk_state (st_sched st) m (st_ctxs st) (st_ctx_count st) (st_pages st)
           (st_clock st) (st_log st) (st_regcmds st).
Definition with_ctxs (m : gmap Z rve_internal_ctx_t) (st : rve_state) :=
  mk_state (st_sched st) (st_jobs st) m (st_ctx_count st) (st_pages st)
           (st_clock st) (st_log st) (st_regcmds st).
Definition with_ctx_count (n : Z) (st : rve_state) :=
  mk_state (st_sched st) (st_jobs st) (st_ctxs st) n (st_pages st)
           (st_clock st) (st_log st) (st_regcmds st).
Definition with_pages (l : list ptr) (st : rve_state) :=
  mk_state (st_sched st) (st_jobs st) (st_ctxs st) (st_ctx_count st) l
           (st_clock st) (st_log st) (st_regcmds st).
Definition with_log (l : list rve_event) (st : rve_state) :=
  mk_state (st_sched st) (st_jobs st) (st_ctxs st) (st_ctx_count st)
           (st_pages st) (st_clock st) l (st_regcmds st).
Definition with_regcmds (h : gset Z) (st : rve_state) :=
  mk_state (st_sched st) (st_jobs st) (st_ctxs st) (st_ctx_count st)
           (st_pages st) (st_clock st) (st_log st) h.

(** ** The state-and-fault monad

    [Fault] is a dereference of a pointer that is not (or no longer) backed
    by an object; [OutOfFuel] can only come from the bounded unrolling of
    a loop and is shown never to happen. *)
Inductive result (A : Type) : Type :=
  | Ok (a : A)
  | Fault
  | OutOfFuel.
Arguments Ok {A} a.
Arguments Fault {A}.
Arguments OutOfFuel {A}.

Definition M (A : Type) : Type := rve_state -> result (A * rve_state).

Definition ret {A} (a : A) : M A := fun st => Ok (a, st).
Definition bind {A B} (m : M A) (k : A -> M B) : M B :=
  fun st => match m st with
            | Ok (a, st') => k a st'
            | Fault => Fault
            | OutOfFuel => OutOfFuel
            end.
Definition fault {A} : M A := fun _ => Fault.
Definition out_of_fuel {A} : M A := fun _ => OutOfFuel.

Notation "'let*' x := c 'in' k" := (bind c (fun x => k))
  (at level 10, x name, c at level 100, k at level 200).
Notation "c ;;; k" := (bind c (fun _ => k))
  (at level 100, k at level 200, right associativity).

Definition get_sched : M rve_scheduler_t := fun st => Ok (st_sched st, st).
Definition put_sched (s : rve_scheduler_t) : M unit :=
  fun st => Ok (tt, with_sched s st).
Definition get_job (p : ptr) : M rve_job :=
  fun st => match st_jobs st !! p with
            | Some j => Ok (j, st)
            | None => Fault
            end.
Definition put_job (p : ptr) (j : rve_job) : M unit :=
  fun st => Ok (tt, with_jobs (<[p := j]> (st_jobs st)) st).
Definition modify_job (p : ptr) (f : rve_job -> rve_job) : M unit :=
  let* j := get_job p in put_job p (f j).
Definition del_job (p : ptr) : M unit :=
  fun st => Ok (tt, with_jobs (delete p (st_jobs st)) st).
Definition get_ctx (p : ptr) : M rve_internal_ctx_t :=
  fun st => match st_ctxs st !! p with
            | Some c => Ok (c, st)
            | None => Fault
            end.
Definition put_ctx (p : ptr) (c : rve_internal_ctx_t) : M unit :=
  fun st => Ok (tt, with_ctxs (<[p := c]> (st_ctxs st)) st).
Definition modify_ctx (p : ptr) (f : rve_internal_ctx_t -> rve_internal_ctx_t) : M unit :=
  let* c := get_ctx p in put_ctx p (f c).
Definition emit (e : rve_event) : M unit :=
  fun st => Ok (tt, with_log (e :: st_log st) st).
Definition ktime_get : M Z := fun st => Ok (st_clock st, st).
(** A command array enters the heap when kmalloc returns it and leaves it
    with kfree; an access through an address that the heap does not hold
    (NULL, a freed array, an element past the end) is a fault. *)
Definition kmalloc_done (a : ptr) : M unit :=
  fun st => Ok (tt, with_regcmds ({[a]} ∪ st_regcmds st) st).
Definition kfree (a : ptr) : M unit :=
  fun st => Ok (tt, with_regcmds (st_regcmds st ∖ {[a]})
                      (with_log (EvKfree a :: st_log st) st)).
Definition access_regcmd (a : ptr) : M unit :=
  fun st => if bool_decide (a ∈ st_regcmds st) then Ok (tt, st) else Fault.
(** get_zeroed_page: NULL when the supply is exhausted. *)
Definition get_zeroed_page : M (option ptr) :=
  fun st => match st_pages st with
            | [] => Ok (None, st)
            | p :: rest => Ok (Some p, with_pages rest st)
            end.

(** ** Collaborators outside rve_job.c *)

(** Outcomes of the power and register back end (rve_drv.c, rve_reg.c) for
    the job being started.  Each returns a C [int], negative on failure. *)
Record rve_backend_ops := {
  power_enable : ptr -> Z;
  init_reg : ptr -> Z;
  set_reg : ptr -> Z
}.

(** What the rest of the system does around one rve_job_commit call:
    [wait_activity] is whatever other contexts (the interrupt thread, other
    callers) do while the caller sleeps in wait_event_interruptible_timeout,
    [wait_left_time] is the value that call returns; the remaining fields
    are the answers of rve_fence.c to an asynchronous commit. *)
Record commit_env := {
  wait_activity : M unit;
  wait_left_time : Z;
  out_fence_alloc : Z * ptr;
  out_fence_get_fd : Z;
  get_input_fence : option ptr;
  fence_get_status : Z;
  add_fence_callback : Z
}.

(** Answers of the allocator and of the user-copy primitives to one
    rve_job_config_by_user_ctx call. *)
Record config_env := {
  kmalloc_regcmd : option ptr;
  copy_from_user_ok : bool
}.

Module Power.

(** ** Power management (rve_drv.c)

    A clock as the clock framework sees it: whether devm_clk_get left an
    error pointer, what clk_prepare_enable answers for it, and its enable
    count.  clk_prepare_enable raises the count when it succeeds,
    clk_disable_unprepare lowers it. *)
Record rve_clk := mk_clk {
  clk_is_err : bool;
  clk_enable_ret : Z;
  clk_enable_count : Z
}.

(** The part of the scheduler and of its device that power management
    works on: the clocks, pd_refcount, the runtime-PM usage count and
    the wakeup flag set by pm_stay_awake and cleared by pm_relax. *)
Record rve_power := mk_power {
  pw_clks : list rve_clk;
  pw_pd_refcount : Z;
  pw_pm_usage : Z;
  pw_awake : bool
}.

Definition clk_up (c : rve_clk) : rve_clk :=
  mk_clk (clk_is_err c) (clk_enable_ret c) (clk_enable_count c + 1).
Definition clk_down (c : rve_clk) : rve_clk :=
  mk_clk (clk_is_err c) (clk_enable_ret c) (clk_enable_count c - 1).

(** [for (i = ...; i < num_clks; i++)] of rve_power_enable, [k] clocks
    still to visit from index [i]; the result carries the index and code
    of the clock that failed, if any. *)
Fixpoint clks_enable_from (k i : nat) (clks : list rve_clk)
  : list rve_clk * option (nat * Z) :=
  match k with
  | O => (clks, None)
  | S k' =>
      match clks !! i with
      | None => (clks, None)
      | Some c =>
          if clk_is_err c then clks_enable_from k' (S i) clks
          else if clk_enable_ret c <? 0 then (clks, Some (i, clk_enable_ret c))
          else clks_enable_from k' (S i) (<[i := clk_up c]> clks)
      end
  end.

(** [for (--i; i >= 0; --i)]: the clocks below index [i], highest first. *)
Fixpoint clks_disable_below (i : nat) (clks : list rve_clk) : list rve_clk :=
  match i with
  | O => clks
  | S i' =>
      clks_disable_below i'
        (match clks !! i' with
         | Some c => if clk_is_err c then clks else <[i' := clk_down c]> clks
         | None => clks
         end)
  end.

Definition rve_power_enable (p : rve_power) : Z * rve_power :=
  let usage := pw_pm_usage p + 1 in
  match clks_enable_from (length (pw_clks p)) 0 (pw_clks p) with
  | (clks, None) => (0, mk_power clks (pw_pd_refcount p) usage true)
  | (clks, Some (i, r)) =>
      (r, mk_power (clks_disable_below i clks)
                   (int_wrap (pw_pd_refcount p + 1)) (usage - 1) false)
  end.

Definition rve_power_disable (p : rve_power) : Z * rve_power :=
  (0, mk_power (clks_disable_below (length (pw_clks p)) (pw_clks p))
               (int_wrap (pw_pd_refcount p - 1)) (pw_pm_usage p - 1) false).

End Power.

(** ** The load timer (rve_drv.c)

    hrtimer_handler is the one piece of the driver that runs periodically
    (every RVE_LOAD_INTERVAL).  It works on the load statistics of the
    scheduler and on the hw_recoder_time stamp of the running job, which
    the rest of the model leaves out; they are kept here beside the driver
    state.  rve_get_monitor_info (rve_debugger.c) only reads. *)
Record rve_load_state := mk_load_state {
  load_driver : rve_state;
  busy_time : Z;
  busy_time_record : Z;
  hw_recoder_time : gmap Z Z
}.

Definition ktime_us_delta (later earlier : Z) : Z := Z.quot (later - earlier) 1000.

Definition hrtimer_handler (s : rve_load_state) : result rve_load_state :=
  let st := load_driver s in
  let now := st_clock st in
  match running_job (st_sched st) with
  | Some job =>
      match st_jobs st !! job with
      | None => Fault
      | Some _ =>
          let busy :=
            busy_time s
            + ktime_us_delta now (default 0 (hw_recoder_time s !! job)) in
          Ok (mk_load_state st 0 busy (<[job := now]> (hw_recoder_time s)))
      end
  | None => Ok (mk_load_state st 0 (busy_time s) (hw_recoder_time s))
  end.

Section Driver.

Context `{hdr : rve_defs}.
Variable ops : rve_backend_ops.

(** ** rve_job.c *)

Definition rve_scheduler_get_pending_job_list : M (option ptr) :=
  let* s := get_sched in ret (head (todo_list s)).

Definition rve_scheduler_get_running_job : M (option ptr) :=
  let* s := get_sched in ret (running_job s).

Definition rve_job_free (job : ptr) : M unit :=
  let* j := get_job job in
  match job_out_fence j with
  | Some f => emit (EvFencePut f)
  | None => ret tt
  end ;;;
  emit (EvFreePage job) ;;;
  del_job job.

Definition rve_job_cleanup (job : ptr) : M Z :=
  let* now := ktime_get in
  rve_job_free job ;;;
  ret 0.

Definition rve_job_alloc (ctx : ptr) : M (option ptr) :=
  let* page := get_zeroed_page in
  match page with
  | None => ret None
  | Some job =>
      let* now := ktime_get in
      let* c := get_ctx ctx in
      let prio :=
        if ctx_priority c >? 0 then
          if ctx_priority c >? RVE_SCHED_PRIORITY_MAX
          then RVE_SCHED_PRIORITY_MAX
          else ctx_priority c
        else 0 in
      put_job job
        (mk_job ctx true prio 0 0 now 0
                (ctx_regcmd_data c + ctx_running_job_count c) None) ;;;
      ret (Some job)
  end.

(** The finish path.  Returns 0, -EFAULT or -EINVAL as the source does. *)
Definition rve_internal_ctx_signal (job : ptr) : M Z :=
  let* j := get_job job in
  if negb (job_scheduler j) then ret (- EFAULT)
  else if IS_ERR_OR_NULL (job_ctx j) then ret (- EINVAL)
  else
    let ctx := job_ctx j in
    let* c := get_ctx ctx in
    let finished_job_count := int_wrap (ctx_finished_job_count c + 1) in
    put_ctx ctx (ctx_record_finish (job_regcmd_data j) finished_job_count c) ;;;
    if finished_job_count >=? ctx_cmd_num c then
      match ctx_out_fence c with
      | Some f => emit (EvFenceSignal f)
      | None => ret tt
      end ;;;
      let flags := Z.lor (job_flags j) RVE_JOB_DONE in
      put_job job (set_job_flags flags j) ;;;
      (if Z.land flags RVE_ASYNC =? 0 then ret 0 else rve_job_cleanup job) ;;;
      emit EvWakeUp ;;;
      modify_ctx ctx ctx_stop ;;;
      ret 0
    else ret 0.

Definition rve_power_disable : M unit := emit EvPowerDisable.

Definition rve_job_run (job : ptr) : M Z :=
  emit EvPowerEnable ;;;
  if power_enable ops job <? 0 then ret (power_enable ops job)
  else
    emit (EvInitReg job) ;;;
    if init_reg ops job <? 0 then
      rve_power_disable ;;; ret (init_reg ops job)
    else
      emit (EvSetReg job) ;;;
      if set_reg ops job <? 0 then
        rve_power_disable ;;; ret (set_reg ops job)
      else ret (set_reg ops job).

(** The first locked region of rve_job_next: nothing to do ([None]) when a
    job is running or the list is empty, otherwise the head is unlinked and
    installed in the running slot. *)
Definition next_job_locked : M (option ptr) :=
  let* s := get_sched in
  match running_job s, todo_list s with
  | Some _, _ => ret None
  | None, [] => ret None
  | None, job :: rest =>
      put_sched (mk_sched rest (Some job) (int_wrap (job_count s - 1))) ;;;
      ret (Some job)
  end.

(** [scheduler->running_job = NULL] under the lock. *)
Definition clear_running_locked : M unit :=
  let* s := get_sched in put_sched (set_running_job None s).

(** rve_job_next; each pass through the [next_job] label spends one unit of
    fuel. *)
Fixpoint rve_job_next_loop (fuel : nat) : M unit :=
  match fuel with
  | O => out_of_fuel
  | S fuel' =>
      let* picked := next_job_locked in
      match picked with
      | None => ret tt
      | Some job =>
          let* r := rve_job_run job in
          modify_job job (set_job_ret r) ;;;
          if r <? 0 then
            clear_running_locked ;;;
            rve_internal_ctx_signal job ;;;
            rve_job_next_loop fuel'
          else ret tt
      end
  end.

Definition rve_job_next : M unit :=
  fun st => rve_job_next_loop (S (length (todo_list (st_sched st)))) st.

Definition rve_job_finish_and_next (job : ptr) (r : Z) : M unit :=
  let* now := ktime_get in
  modify_job job (set_job_ret r) ;;;
  rve_internal_ctx_signal job ;;;
  rve_job_next ;;;
  rve_power_disable.

(** The locked region of rve_job_done: the running job is taken out of the
    slot; an empty slot is a NULL dereference. *)
Definition job_done_locked : M ptr :=
  let* s := get_sched in
  put_sched (set_running_job None s) ;;;
  match running_job s with
  | Some job => let* _ := get_job job in ret job
  | None => fault
  end.

(** rve_job_done.  The forty configuration registers are copied to
    [job->regcmd_data->cmd_reg[18..57]]: the job's command array has to be
    there; the values come from the hardware and are not kept. *)
Definition rve_job_done (r : Z) : M unit :=
  let* now := ktime_get in
  let* job := job_done_locked in
  let* j := get_job job in
  let* _ := get_ctx (job_ctx j) in
  access_regcmd (job_regcmd_data j) ;;;
  emit (EvReadCfgReg job) ;;;
  rve_job_finish_and_next job r.

(** The locked region of rve_job_timeout_clean: [Some job] when an
    asynchronous running job has been started for at least the delay. *)
Definition timeout_clean_locked (now : Z) : M (option ptr) :=
  let* s := get_sched in
  match running_job s with
  | None => ret None
  | Some job =>
      let* j := get_job job in
      if negb (Z.land (job_flags j) RVE_ASYNC =? 0)
         && (ktime_to_ms (now - job_hw_running_time j) >=? RVE_ASYNC_TIMEOUT_DELAY)
      then put_sched (set_running_job None s) ;;; ret (Some job)
      else ret None
  end.

Definition rve_job_timeout_clean : M unit :=
  let* now := ktime_get in
  let* expired := timeout_clean_locked now in
  match expired with
  | Some job =>
      emit EvSoftReset ;;;
      rve_internal_ctx_signal job ;;;
      rve_power_disable
  | None => ret tt
  end.

(** [job_pos->priority++] *)
Definition priority_inc (j : rve_job) : rve_job :=
  set_job_priority (int_wrap (job_priority j + 1)) j.

(** The passes of the list_for_each_entry loop of rve_job_schedule that run
    with [first_match] set: each visited entry has its priority raised. *)
Fixpoint todo_bump (l : list ptr) : M unit :=
  match l with
  | [] => ret tt
  | job_pos :: rest => modify_job job_pos priority_inc ;;; todo_bump rest
  end.

(** The passes that run with [first_match] clear.  On the first entry with
    [job->priority > job_pos->priority] the job is linked by
    [list_add (&job->head, &job_pos->head)], that is right behind [job_pos];
    the walk then goes on from [job_pos] over the new entry and the rest of
    the list with [first_match] set.  The result is the new list, or [None]
    when no entry matched. *)
Fixpoint todo_scan (job : ptr) (l : list ptr) : M (option (list ptr)) :=
  match l with
  | [] => ret None
  | job_pos :: rest =>
      let* j := get_job job in
      let* jp := get_job job_pos in
      if job_priority j >? job_priority jp then
        todo_bump (job_pos :: job :: rest) ;;;
        ret (Some (job_pos :: job :: rest))
      else
        let* r := todo_scan job rest in
        ret (option_map (cons job_pos) r)
  end.

(** The locked region of rve_job_schedule. *)
Definition schedule_locked (job : ptr) : M unit :=
  let* s := get_sched in
  let* j := get_job job in
  let* todo :=
    match todo_list s with
    | [] => ret (todo_list s ++ [job])
    | _ :: _ =>
        if job_priority j =? RVE_SCHED_PRIORITY_DEFAULT
        then ret (todo_list s ++ [job])
        else
          let* r := todo_scan job (todo_list s) in
          match r with
          | Some l => ret l
          | None => ret (todo_list s ++ [job])
          end
    end in
  put_sched (mk_sched todo (running_job s) (int_wrap (job_count s + 1))).

(** rve_job_schedule; the result tells whether a scheduler was found. *)
Definition rve_job_schedule (job : ptr) : M bool :=
  let* j := get_job job in
  if negb (job_scheduler j) then ret false
  else
    rve_job_timeout_clean ;;;
    schedule_locked job ;;;
    rve_job_next ;;;
    ret true.

(** The locked region of rve_running_job_abort. *)
Definition abort_locked (job : ptr) : M unit :=
  let* s := get_sched in
  if decide (running_job s = Some job)
  then put_sched (set_running_job None s)
  else ret tt.

Definition rve_running_job_abort (job : ptr) : M unit :=
  abort_locked job ;;;
  rve_job_cleanup job ;;;
  ret tt.

Definition rve_invalid_job_abort (job : ptr) : M unit :=
  rve_job_cleanup job ;;; ret tt.

(** rve_job_wait: [left_time] is what wait_event_interruptible_timeout
    returned. *)
Definition rve_job_wait (job : ptr) (left_time : Z) : M Z :=
  emit (EvWait job) ;;;
  let* r :=
    if left_time =? 0 then emit EvSoftReset ;;; ret (- EBUSY)
    else if left_time =? - ERESTARTSYS then ret (- ERESTARTSYS)
    else ret 0 in
  let* now := ktime_get in
  ret r.

(** rve_input_fence_signaled, the callback queued on an input fence. *)
Definition rve_input_fence_signaled (job : ptr) : M unit :=
  let* now := ktime_get in
  rve_job_schedule job ;;;
  ret tt.

(** rve_job_commit, built with CONFIG_SYNC_FILE. *)
Definition rve_job_commit (env : commit_env) (ctx : ptr) : M Z :=
  modify_ctx ctx (set_ctx_sync_mode RVE_SYNC) ;;;
  let* allocated := rve_job_alloc ctx in
  match allocated with
  | None => ret (- ENOMEM)
  | Some job =>
      let* c := get_ctx ctx in
      if ctx_sync_mode c =? RVE_ASYNC then
        modify_job job (fun j => set_job_flags (Z.lor (job_flags j) RVE_ASYNC) j) ;;;
        let* fence_ret :=
          match ctx_out_fence c with
          | Some f => modify_job job (set_job_out_fence (Some f)) ;;; ret 0
          | None =>
              if fst (out_fence_alloc env) =? 0 then
                modify_job job (set_job_out_fence (Some (snd (out_fence_alloc env)))) ;;;
                modify_ctx ctx (fun c' =>
                  set_ctx_out_fence (Some (snd (out_fence_alloc env)))
                                    (ctx_out_fence_fd c') c') ;;;
                ret 0
              else ret (fst (out_fence_alloc env))
          end in
        if negb (fence_ret =? 0) then rve_job_free job ;;; ret fence_ret
        else
          modify_ctx ctx (fun c' =>
            set_ctx_out_fence (ctx_out_fence c') (out_fence_get_fd env) c') ;;;
          if ctx_in_fence_fd c >? 0 then
            match get_input_fence env with
            | None => rve_job_free job ;;; ret 0
            | Some in_fence =>
                emit (EvCloseFd (ctx_in_fence_fd c)) ;;;
                let status := fence_get_status env in
                if status =? 1 then
                  let* found := rve_job_schedule job in
                  if found then ret status
                  else rve_invalid_job_abort job ;;; ret status
                else if status =? 0 then
                  if add_fence_callback env <? 0 then
                    rve_job_free job ;;; ret (add_fence_callback env)
                  else
                    emit (EvFenceCallback job) ;;; ret (add_fence_callback env)
                else rve_job_free job ;;; ret status
            end
          else
            let* found := rve_job_schedule job in
            if found then ret 0
            else rve_invalid_job_abort job ;;; ret 0
      else if ctx_sync_mode c =? RVE_SYNC then
        let* found := rve_job_schedule job in
        if negb found then rve_invalid_job_abort job ;;; ret 0
        else
          let* j := get_job job in
          if job_ret j <? 0 then rve_running_job_abort job ;;; ret (job_ret j)
          else
            wait_activity env ;;;
            let* r := rve_job_wait job (wait_left_time env) in
            if r <? 0 then rve_running_job_abort job ;;; ret r
            else rve_job_cleanup job ;;; ret r
      else ret 0
  end.

(** rve_internal_ctx_lookup: idr_find on the context id. *)
Definition rve_internal_ctx_lookup (id : Z) : M (option rve_internal_ctx_t) :=
  fun st => Ok (st_ctxs st !! id, st).

Definition rve_internal_ctx_free_remove_idr (ctx : ptr) : M Z :=
  fun st =>
    Ok (0, with_ctx_count (int_wrap (st_ctx_count st - 1))
             (with_ctxs (delete ctx (st_ctxs st)) st)).

Definition rve_job_config_by_user_ctx (env : config_env) (user_ctx : rve_user_ctx_t)
  : M (Z * rve_user_ctx_t) :=
  let* found := rve_internal_ctx_lookup (uc_id user_ctx) in
  match found with
  | None => ret (- EINVAL, user_ctx)
  | Some c =>
      if ctx_is_running c then ret (- EFAULT, user_ctx)
      else
        match kmalloc_regcmd env with
        | None => ret (- ENOMEM, user_ctx)
        | Some regcmd_data =>
            kmalloc_done regcmd_data ;;;
            (* TODO: user cmd_num *)
            let user_ctx := set_uc_cmd_num 1 user_ctx in
            emit (EvCopyFromUser (uc_cmd_num user_ctx)) ;;;
            if copy_from_user_ok env then
              modify_ctx (uc_id user_ctx) (ctx_configure user_ctx regcmd_data) ;;;
              ret (0, user_ctx)
            else
              kfree regcmd_data ;;;
              ret (- EFAULT, user_ctx)
        end
  end.

(** The [for (i = 0; i < ctx->cmd_num; i++)] loop of
    rve_job_commit_by_user_ctx, from index [i] with the current [r] in
    [ret].  [None] is the early [return -EFAULT]. *)
Fixpoint commit_loop (fuel : nat) (envs : Z -> commit_env) (ctx : ptr) (i r : Z)
  : M (option Z) :=
  let* c := get_ctx ctx in
  if i <? ctx_cmd_num c then
    match fuel with
    | O => out_of_fuel
    | S fuel' =>
        let* r' := rve_job_commit (envs i) ctx in
        if r' <? 0 then ret None
        else
          modify_ctx ctx (fun c' =>
            set_ctx_running_job_count (int_wrap (ctx_running_job_count c' + 1)) c') ;;;
          commit_loop fuel' envs ctx (int_wrap (i + 1)) r'
    end
  else ret (Some r).

Definition rve_job_commit_by_user_ctx (envs : Z -> commit_env) (copy_to_user_ok : bool)
    (user_ctx : rve_user_ctx_t) : M (Z * rve_user_ctx_t) :=
  let* found := rve_internal_ctx_lookup (uc_id user_ctx) in
  match found with
  | None => ret (- EINVAL, user_ctx)
  | Some c =>
      if ctx_is_running c then ret (- EFAULT, user_ctx)
      else
        let ctx := uc_id user_ctx in
        put_ctx ctx (ctx_reset c) ;;;
        let* looped := commit_loop (Z.to_nat (ctx_cmd_num c)) envs ctx 0 0 in
        match looped with
        | None => ret (- EFAULT, user_ctx)
        | Some r =>
            let* c' := get_ctx ctx in
            let user_ctx := set_uc_out_fence_fd (ctx_out_fence_fd c') user_ctx in
            emit (EvCopyToUser (ctx_cmd_num c')) ;;;
            if copy_to_user_ok then ret (r, user_ctx)
            else ret (- EFAULT, user_ctx)
        end
  end.

(** The list_for_each_entry_safe walk of rve_internal_ctx_kref_release:
    every queued job of the context is unlinked and the queue counter
    lowered once per unlinked job. *)
Fixpoint cancel_todo (id : Z) (l : list ptr) (count : Z) : M (list ptr * Z) :=
  match l with
  | [] => ret ([], count)
  | job_pos :: rest =>
      let* jp := get_job job_pos in
      let* cp := get_ctx (job_ctx jp) in
      if id =? ctx_id cp then cancel_todo id rest (int_wrap (count - 1))
      else
        let* r := cancel_todo id rest count in
        ret (job_pos :: fst r, snd r)
  end.

(** The locked region of rve_internal_ctx_kref_release; [Some job] when the
    running job belonged to the context ([need_reset]). *)
Definition cancel_locked (ctx : ptr) : M (option ptr) :=
  let* c := get_ctx ctx in
  let* s := get_sched in
  let* kept := cancel_todo (ctx_id c) (todo_list s) (job_count s) in
  match running_job s with
  | Some job =>
      let* j := get_job job in
      let* cj := get_ctx (job_ctx j) in
      if ctx_id cj =? ctx_id c then
        put_sched (mk_sched (fst kept) None (snd kept)) ;;; ret (Some job)
      else
        put_sched (mk_sched (fst kept) (Some job) (snd kept)) ;;; ret None
  | None =>
      put_sched (mk_sched (fst kept) None (snd kept)) ;;; ret None
  end.

Definition rve_internal_ctx_kref_release (ctx : ptr) : M unit :=
  let* now := ktime_get in
  let* c := get_ctx ctx in
  (if negb (ctx_is_running c) || (ctx_finished_job_count c >=? ctx_cmd_num c)
   then ret tt
   else
     let* need_reset := cancel_locked ctx in
     match need_reset with
     | Some job => emit EvSoftReset ;;; rve_job_finish_and_next job 0
     | None => ret tt
     end ;;;
     let* c' := get_ctx ctx in
     kfree (ctx_regcmd_data c')) ;;;
  rve_internal_ctx_free_remove_idr ctx ;;;
  ret tt.

(** kref_put (&ctx->refcount, rve_internal_ctx_kref_release) *)
Definition kref_put (ctx : ptr) : M unit :=
  let* c := get_ctx ctx in
  put_ctx ctx (set_ctx_refcount (ctx_refcount c - 1) c) ;;;
  if ctx_refcount c - 1 =? 0 then rve_internal_ctx_kref_release ctx else ret tt.

Definition rve_job_cancel_by_user_ctx (id : Z) : M Z :=
  let* found := rve_internal_ctx_lookup id in
  match found with
  | None => ret (- EINVAL)
  | Some _ => kref_put id ;;; ret 0
  end.

(** ** Interleavings

    Every access to the todo list and to the running slot sits in one of
    the regions bracketed by spin_lock_irqsave (&scheduler->irq_lock) above.
    An execution of the driver under true parallelism is therefore a
    sequence of such regions, taken by whichever thread holds the lock,
    with steps in between that leave the scheduler record alone. *)
Inductive locked_region :=
  | RegionNext
  | RegionNextFailed
  | RegionDone
  | RegionTimeoutClean (now : Z)
  | RegionSchedule (job : ptr)
  | RegionAbort (job : ptr)
  | RegionCancel (ctx : ptr).

Definition run_region (r : locked_region) : M unit :=
  match r with
  | RegionNext => next_job_locked ;;; ret tt
  | RegionNextFailed => clear_running_locked
  | RegionDone => job_done_locked ;;; ret tt
  | RegionTimeoutClean now => timeout_clean_locked now ;;; ret tt
  | RegionSchedule job => schedule_locked job
  | RegionAbort job => abort_locked job
  | RegionCancel ctx => cancel_locked ctx ;;; ret tt
  end.

Inductive rve_step : rve_state -> rve_state -> Prop :=
  | step_locked r st st' :
      run_region r st = Ok (tt, st') -> rve_step st st'
  | step_unlocked st st' :
      st_sched st' = st_sched st -> rve_step st st'.

(** [rve_run st l]: the states [l] are visited in order, starting from [st]. *)
Inductive rve_run : rve_state -> list rve_state -> Prop :=
  | run_nil st : rve_run st []
  | run_cons st st' l : rve_step st st' -> rve_run st' l -> rve_run st (st' :: l).

(** The jobs in the running slot. *)
Definition running_jobs (st : rve_state) : list ptr :=
  match running_job (st_sched st) with
  | Some job => [job]
  | None => []
  end.

(** No observation of an occupied slot is directly followed by the
    observation of another job in it. *)
Fixpoint slot_handover_free (prev : option ptr) (l : list rve_state) : Prop :=
  match l with
  | [] => True
  | st :: rest =>
      match prev, running_job (st_sched st) with
      | Some a, Some b => a = b
      | _, _ => True
      end /\ slot_handover_free (running_job (st_sched st)) rest
  end.

(** ** Notions used in the statements *)

(** [m] leaves the scheduler record as it finds it. *)
Definition keeps_sched {A} (m : M A) : Prop :=
  forall st a st', m st = Ok (a, st') -> st_sched st' = st_sched st.

(** [slot_succession a b]: slot content [b] follows content [a] without
    one job replacing another. *)
Definition slot_succession (a b : option ptr) : Prop :=
  match a, b with
  | Some x, Some y => x = y
  | _, _ => True
  end.

(** The events of a completing finish call, newest first: the wake-up,
    the release of an asynchronous job, the signal on the output fence. *)
Definition completion_events (job : ptr) (j : rve_job) (c : rve_internal_ctx_t)
  : list rve_event :=
  [EvWakeUp] ++
  (if Z.land (Z.lor (job_flags j) RVE_JOB_DONE) RVE_ASYNC =? 0 then []
   else [EvFreePage job] ++
        match job_out_fence j with Some f => [EvFencePut f] | None => [] end) ++
  match ctx_out_fence c with Some f => [EvFenceSignal f] | None => [] end.

(** What rve_job_run returns for a job, read off the back end. *)
Definition run_result (job : ptr) : Z :=
  if power_enable ops job <? 0 then power_enable ops job
  else if init_reg ops job <? 0 then init_reg ops job
  else set_reg ops job.

(** Every queued job is linked once, is live and has a live context. *)
Definition queue_wf (st : rve_state) : Prop :=
  NoDup (todo_list (st_sched st)) /\
  Forall (fun job => exists j, st_jobs st !! job = Some j /\
                               is_Some (st_ctxs st !! job_ctx j))
         (todo_list (st_sched st)).

(** The state in which rve_job_next, having met a job whose start failed,
    calls the finish path: head unlinked, counter lowered, slot cleared
    again, the result stored in the job. *)
Definition after_failed_start (job : ptr) (j : rve_job) (rest : list ptr)
    (evs : list rve_event) (st : rve_state) : rve_state :=
  mk_state (mk_sched rest None (int_wrap (job_count (st_sched st) - 1)))
           (<[job := set_job_ret (run_result job) j]> (st_jobs st))
           (st_ctxs st) (st_ctx_count st) (st_pages st) (st_clock st)
           (evs ++ st_log st) (st_regcmds st).

(** The record rve_job_alloc leaves in the page of a new job of context
    [ctx], allocated at time [now]. *)
Definition allocated_job (ctx : ptr) (c : rve_internal_ctx_t) (now : Z) : rve_job :=
  mk_job ctx true
         (if ctx_priority c >? 0 then
            if ctx_priority c >? RVE_SCHED_PRIORITY_MAX
            then RVE_SCHED_PRIORITY_MAX
            else ctx_priority c
          else 0)
         0 0 now 0 (ctx_regcmd_data c + ctx_running_job_count c) None.

(** The context as Commit hands it to the scheduler: counters reset,
    marked running, the mode overwritten. *)
Definition committed (c : rve_internal_ctx_t) : rve_internal_ctx_t :=
  set_ctx_sync_mode RVE_SYNC (ctx_reset c).

(** The state in which Commit calls rve_job_schedule for the job of a
    single batch: the context [c] of handle [id] is committed, the page
    [p] has left the supply and holds the job. *)
Definition commit_allocated (id : Z) (c : rve_internal_ctx_t) (p : ptr)
    (rest : list ptr) (st : rve_state) : rve_state :=
  with_jobs (<[p := allocated_job id (committed c) (st_clock st)]> (st_jobs st))
    (with_pages rest (with_ctxs (<[id := committed c]> (st_ctxs st)) st)).

(** The end of rve_job_commit_by_user_ctx, after the job of the first
    batch has come back with [r]: the batch is counted, the loop test is
    made again and the command array is copied back to the caller. *)
Definition commit_tail (envs : Z -> commit_env) (copy_to_user_ok : bool)
    (user_ctx : rve_user_ctx_t) (r : Z) : M (Z * rve_user_ctx_t) :=
  let ctx := uc_id user_ctx in
  modify_ctx ctx (fun c' =>
    set_ctx_running_job_count (int_wrap (ctx_running_job_count c' + 1)) c') ;;;
  let* looped := commit_loop 0 envs ctx (int_wrap (0 + 1)) r in
  match looped with
  | None => ret (- EFAULT, user_ctx)
  | Some r =>
      let* c' := get_ctx ctx in
      let user_ctx := set_uc_out_fence_fd (ctx_out_fence_fd c') user_ctx in
      emit (EvCopyToUser (ctx_cmd_num c')) ;;;
      if copy_to_user_ok then ret (r, user_ctx)
      else ret (- EFAULT, user_ctx)
  end.

(** What Commit does once rve_job_schedule has returned for [job]: a
    failed start is reported at once; otherwise the caller sleeps in
    rve_job_wait, and a wait that ends badly is reported after the job has
    been aborted. *)
Definition commit_after_schedule (envs : Z -> commit_env) (copy_to_user_ok : bool)
    (user_ctx : rve_user_ctx_t) (job : ptr) : M (Z * rve_user_ctx_t) :=
  let* j := get_job job in
  if job_ret j <? 0 then rve_running_job_abort job ;;; ret (- EFAULT, user_ctx)
  else
    wait_activity (envs 0) ;;;
    let* r := rve_job_wait job (wait_left_time (envs 0)) in
    if r <? 0 then rve_running_job_abort job ;;; ret (- EFAULT, user_ctx)
    else rve_job_cleanup job ;;; commit_tail envs copy_to_user_ok user_ctx r.

(** The state after the enqueue of [job] on an idle engine with an empty
    queue, when the start succeeds: the job sits in the running slot. *)
Definition dispatched (job : ptr) (j : rve_job) (st : rve_state) : rve_state :=
  mk_state (mk_sched [] (Some job)
              (int_wrap (int_wrap (job_count (st_sched st) + 1) - 1)))
           (<[job := set_job_ret (run_result job) j]> (st_jobs st))
           (st_ctxs st) (st_ctx_count st) (st_pages st) (st_clock st)
           (EvSetReg job :: EvInitReg job :: EvPowerEnable :: st_log st)
           (st_regcmds st).

(** The events of the finish call that completes a context whose output
    fence is [f]. *)
Definition fence_signal (f : option ptr) : list rve_event :=
  match f with Some f => [EvFenceSignal f] | None => [] end.

(** The state after the interrupt thread has reported the end of the
    running synchronous job [job], the only batch of its context [c], on
    an empty queue. *)
Definition completed (r : Z) (job : ptr) (j : rve_job) (c : rve_internal_ctx_t)
    (st : rve_state) : rve_state :=
  mk_state (mk_sched [] None (job_count (st_sched st)))
           (<[job := set_job_flags (Z.lor (job_flags j) RVE_JOB_DONE)
                       (set_job_ret r j)]> (st_jobs st))
           (<[job_ctx j := ctx_stop (ctx_record_finish (job_regcmd_data j) 1 c)]>
              (st_ctxs st))
           (st_ctx_count st) (st_pages st) (st_clock st)
           (EvPowerDisable :: EvWakeUp :: fence_signal (ctx_out_fence c) ++
            EvReadCfgReg job :: st_log st)
           (st_regcmds st).

(** The events one successful Commit adds to the log, newest first. *)
Definition commit_events (job : ptr) (c : rve_internal_ctx_t) : list rve_event :=
  [EvCopyToUser 1; EvFreePage job; EvWait job; EvPowerDisable; EvWakeUp] ++
  fence_signal (ctx_out_fence c) ++
  [EvReadCfgReg job; EvSetReg job; EvInitReg job; EvPowerEnable].

(** [m] leaves context [id], once configured, in the registry with its
    batch count of 1. *)
Definition stays_configured {A} (id : Z) (m : M A) : Prop :=
  forall st a st', m st = Ok (a, st') ->
  forall c, st_ctxs st !! id = Some c -> ctx_cmd_num c = 1 ->
  exists c', st_ctxs st' !! id = Some c' /\ ctx_cmd_num c' = 1.

(** The jobs started and the command arrays copied out, read off a list
    of events. *)
Definition started_jobs (evs : list rve_event) : list ptr :=
  omap (fun e => match e with EvSetReg job => Some job | _ => None end) evs.
Definition arrays_copied_out (evs : list rve_event) : list Z :=
  omap (fun e => match e with EvCopyToUser n => Some n | _ => None end) evs.

(** The Commit allocates one job, starts it once on the engine and
    copies one command array back to the caller. *)
Definition commits_one_job (envs : Z -> commit_env) (ok : bool)
    (u : rve_user_ctx_t) (st : rve_state) : Prop :=
  exists p r u' st' evs,
    rve_job_commit_by_user_ctx envs ok u st = Ok ((r, u'), st') /\
    st_pages st = p :: st_pages st' /\
    st_log st' = evs ++ st_log st /\
    started_jobs evs = [p] /\
    arrays_copied_out evs = [1].

(** [m] frees no context and leaves every batch count as it finds it. *)
Definition keeps_cmd_num {A} (m : M A) : Prop :=
  forall st a st', m st = Ok (a, st') ->
  forall k c, st_ctxs st !! k = Some c ->
  exists c', st_ctxs st' !! k = Some c' /\ ctx_cmd_num c' = ctx_cmd_num c.

(** [run_to st l st']: the run [l] leads from [st] to [st']. *)
Definition run_to (st : rve_state) (l : list rve_state) (st' : rve_state) : Prop :=
  rve_run st l /\ last (st :: l) = Some st'.

(** Every returning execution of [m] is a run of locked regions and
    unlocked steps. *)
Definition as_run {A} (m : M A) : Prop :=
  forall st a st', m st = Ok (a, st') -> exists l, run_to st l st'.

(** ** The rest of rve_job.c and its callers in rve_drv.c *)

(** Answers of the allocators to one rve_internal_ctx_alloc_to_get_idr_id
    call: whether kzalloc returned a context, whether the driver has its
    context manager, and what idr_alloc returned (an unused id from 1 on,
    or a negative errno). *)
Record ctx_alloc_env := {
  kzalloc_ctx_ok : bool;
  ctx_manager_present : bool;
  idr_alloc_id : Z
}.

(** A context fresh from kzalloc, with its id stored and kref_init done. *)
Definition zeroed_ctx (id : Z) : rve_internal_ctx_t :=
  mk_ctx id 1 0 0 0 0 false 0 0 0 None 0.

(** rve_internal_ctx_alloc_to_get_idr_id.  The result of idr_alloc is
    stored and returned unchecked; on a negative result the idr holds no
    new entry, the counter is raised all the same. *)
Definition rve_internal_ctx_alloc_to_get_idr_id (env : ctx_alloc_env) : M Z :=
  if negb (kzalloc_ctx_ok env) then ret (- ENOMEM)
  else if negb (ctx_manager_present env) then ret (- EFAULT)
  else
    fun st =>
      let id := idr_alloc_id env in
      Ok (id,
          with_ctx_count (int_wrap (st_ctx_count st + 1))
            (with_ctxs (if id <? 0 then st_ctxs st
                        else <[id := zeroed_ctx id]> (st_ctxs st)) st)).

(** rve_ioctl_cmd_start: the value returned and, when the copy to the
    caller succeeds, the id the caller receives. *)
Definition rve_ioctl_cmd_start (env : ctx_alloc_env) (copy_to_user_ok : bool)
  : M (Z * option Z) :=
  let* rve_user_ctx_id := rve_internal_ctx_alloc_to_get_idr_id env in
  if copy_to_user_ok then ret (0, Some rve_user_ctx_id)
  else ret (- EFAULT, None).

(** rve_ioctl_cmd_config; [copy_in_ok] tells whether the ioctl argument
    could be copied from the caller. *)
Definition rve_ioctl_cmd_config (copy_in_ok : bool) (env : config_env)
    (user_ctx : rve_user_ctx_t) : M Z :=
  if negb copy_in_ok then ret (- EFAULT)
  else if uc_id user_ctx <=? 0 then ret (- EINVAL)
  else
    let* r := rve_job_config_by_user_ctx env user_ctx in
    if fst r <? 0 then ret (- EFAULT) else ret (fst r).

(** rve_ioctl_cmd_end: the value returned and, when the final copy
    succeeds, the argument handed back to the caller. *)
Definition rve_ioctl_cmd_end (copy_in_ok : bool) (envs : Z -> commit_env)
    (regcmd_copy_ok copy_out_ok : bool) (rve_user_ctx : rve_user_ctx_t)
  : M (Z * option rve_user_ctx_t) :=
  if negb copy_in_ok then ret (- EFAULT, None)
  else
    let* r := rve_job_commit_by_user_ctx envs regcmd_copy_ok rve_user_ctx in
    if fst r <? 0 then ret (- EFAULT, None)
    else if copy_out_ok then ret (fst r, Some (snd r))
    else ret (- EFAULT, None).

(** rve_ioctl_cmd_cancel *)
Definition rve_ioctl_cmd_cancel (copy_in_ok : bool) (rve_user_ctx_id : Z) : M Z :=
  if negb copy_in_ok then ret (- EFAULT)
  else
    let* r := rve_job_cancel_by_user_ctx rve_user_ctx_id in
    if r <? 0 then ret (- EFAULT) else ret r.

(** The scheduler fields the interrupt thread touches besides those of
    [rve_state]. *)
Record rve_irq_state := mk_irq_state {
  irq_driver : rve_state;
  total_int_cnt : Z
}.

Inductive irqreturn_t := IRQ_NONE | IRQ_HANDLED | IRQ_WAKE_THREAD.

(** rve_irq_thread: the running job is read without the lock; with no job
    in the slot the interrupt is counted and dropped. *)
Definition rve_irq_thread (s : rve_irq_state) : result (irqreturn_t * rve_irq_state) :=
  let counted := int_wrap (total_int_cnt s + 1) in
  match running_job (st_sched (irq_driver s)) with
  | None => Ok (IRQ_HANDLED, mk_irq_state (irq_driver s) counted)
  | Some _ =>
      match rve_job_done 0 (irq_driver s) with
      | Ok (_, st') => Ok (IRQ_HANDLED, mk_irq_state st' counted)
      | Fault => Fault
      | OutOfFuel => OutOfFuel
      end
  end.

(** *** Further notions used in the statements *)

(** The queue counter agrees with the queue. *)
Definition job_count_ok (st : rve_state) : Prop :=
  job_count (st_sched st) = Z.of_nat (length (todo_list (st_sched st))).

(** The job in the running slot, if any, is live, has a live context and
    is not linked in the queue. *)
Definition slot_wf (st : rve_state) : Prop :=
  forall job, running_job (st_sched st) = Some job ->
    (job ∉ todo_list (st_sched st)) /\
    exists j, st_jobs st !! job = Some j /\ is_Some (st_ctxs st !! job_ctx j).

(** The id of the context a live job points to. *)
Definition job_ctx_id (st : rve_state) (job : ptr) : option Z :=
  match st_jobs st !! job with
  | Some j => ctx_id <$> st_ctxs st !! job_ctx j
  | None => None
  end.

(** Enqueue of a series of jobs, one rve_job_schedule call per job. *)
Fixpoint schedule_all (jobs : list ptr) : M unit :=
  match jobs with
  | [] => ret tt
  | job :: rest => rve_job_schedule job ;;; schedule_all rest
  end.

(** The scheduler holds a job: it is queued or sits in the running slot. *)
Definition held (st : rve_state) (job : ptr) : Prop :=
  job ∈ todo_list (st_sched st) \/ running_job (st_sched st) = Some job.

(** The jobs the scheduler holds: the queue, then the running slot. *)
Definition held_list (st : rve_state) : list ptr :=
  todo_list (st_sched st) ++ running_jobs st.

(** The number of entries of [l] that are live jobs of context [k]. *)
Fixpoint tagged (k : Z) (jobs : gmap Z rve_job) (l : list ptr) : Z :=
  match l with
  | [] => 0
  | p :: rest =>
      (if decide (job_ctx <$> jobs !! p = Some k) then 1 else 0) +
      tagged k jobs rest
  end.

(** The number of live jobs of context [k] that the scheduler holds. *)
Definition held_of (k : Z) (st : rve_state) : Z :=
  tagged k (st_jobs st) (held_list st).

(** The number of entries of [E] that name context [k]. *)
Fixpoint in_flight (k : Z) (E : list Z) : Z :=
  match E with
  | [] => 0
  | x :: rest => (if decide (x = k) then 1 else 0) + in_flight k rest
  end.

(** The accounting invariant.  [E] lists the contexts of the jobs that
    are in flight between two steps of one operation: allocated and not
    yet queued, or taken from the scheduler for a finish call that is
    still to come.  Every context in the registry sits under its own id,
    holds at most one batch, and its finished count together with its
    jobs in flight and in the scheduler stays within the batch count; a
    context that is not running, or is gone, has no such job. *)
Definition accounting (E : list Z) (st : rve_state) : Prop :=
  forall k,
    match st_ctxs st !! k with
    | Some c =>
        ctx_id c = k /\ 0 < k /\
        0 <= ctx_finished_job_count c /\
        ctx_cmd_num c <= 1 /\
        ctx_finished_job_count c + (in_flight k E + held_of k st)
          <= ctx_cmd_num c /\
        (ctx_is_running c = false -> in_flight k E + held_of k st = 0)
    | None => in_flight k E + held_of k st = 0
    end.

(** The pages still to be handed out are distinct and none of them is
    held by the scheduler. *)
Definition pages_fresh (st : rve_state) : Prop :=
  NoDup (st_pages st) /\ forall p, p ∈ st_pages st -> p ∉ held_list st.

(** Every live job has its scheduler and points to a context id. *)
Definition jobs_sound (st : rve_state) : Prop :=
  forall p j, st_jobs st !! p = Some j -> job_scheduler j = true /\ 0 < job_ctx j.

Definition driver_inv (st : rve_state) : Prop :=
  accounting [] st /\ pages_fresh st /\ jobs_sound st.

(** The driver after probe: no context, no job, an idle engine. *)
Definition booted (st : rve_state) : Prop :=
  st_ctxs st = ∅ /\ st_jobs st = ∅ /\
  todo_list (st_sched st) = [] /\ running_job (st_sched st) = None /\
  NoDup (st_pages st).

(** idr_alloc (start 1) answers with a negative errno or with an id from
    1 on that is not in use. *)
Definition idr_answer_ok (env : ctx_alloc_env) (st : rve_state) : Prop :=
  0 <= idr_alloc_id env ->
  0 < idr_alloc_id env /\ st_ctxs st !! idr_alloc_id env = None.

(** [driver_reaches st st']: starting in [st] the driver passes through
    [st'].  It gets there by calls of its entry points, each one
    returning: Start, Configure, Commit and Cancel from the ioctl layer,
    rve_job_done from the interrupt thread.  What happens while a Commit
    sleeps in its wait passes through such states again; and the state in
    which a Commit on a configured context goes to sleep, its job handed
    to rve_job_schedule and started or queued, is itself passed through,
    with whatever the other callers and the interrupt thread do from
    there. *)
Inductive driver_reaches : rve_state -> rve_state -> Prop :=
  | reach_here st : driver_reaches st st
  | reach_start env st a st1 st2 :
      idr_answer_ok env st ->
      rve_internal_ctx_alloc_to_get_idr_id env st = Ok (a, st1) ->
      driver_reaches st1 st2 -> driver_reaches st st2
  | reach_config env u st a st1 st2 :
      rve_job_config_by_user_ctx env u st = Ok (a, st1) ->
      driver_reaches st1 st2 -> driver_reaches st st2
  | reach_commit envs ok u st a st1 st2 :
      (forall i s s', wait_activity (envs i) s = Ok (tt, s') ->
         driver_reaches s s') ->
      rve_job_commit_by_user_ctx envs ok u st = Ok (a, st1) ->
      driver_reaches st1 st2 -> driver_reaches st st2
  | reach_cancel id st a st1 st2 :
      rve_job_cancel_by_user_ctx id st = Ok (a, st1) ->
      driver_reaches st1 st2 -> driver_reaches st st2
  | reach_irq r st st1 st2 :
      rve_job_done r st = Ok (tt, st1) ->
      driver_reaches st1 st2 -> driver_reaches st st2
  | reach_asleep id c p rest st j st1 st2 :
      st_ctxs st !! id = Some c ->
      ctx_is_running c = false ->
      ctx_cmd_num c = 1 ->
      st_pages st = p :: rest ->
      rve_job_schedule p (commit_allocated id c p rest st) = Ok (true, st1) ->
      st_jobs st1 !! p = Some j ->
      0 <= job_ret j ->
      driver_reaches st1 st2 -> driver_reaches st st2.

(** [settles st st']: no page has been handed out, the scheduler holds
    no job it did not hold, and every live job was live before, for the
    same context. *)
Definition settles (st st' : rve_state) : Prop :=
  st_pages st' = st_pages st /\
  held_list st' ⊆+ held_list st /\
  forall p j', st_jobs st' !! p = Some j' ->
    exists j, st_jobs st !! p = Some j /\
              job_ctx j' = job_ctx j /\ job_scheduler j' = job_scheduler j.

(** What the accounting reads of a context. *)
Definition ctx_view (c : rve_internal_ctx_t) : Z * Z * Z * bool :=
  (ctx_id c, ctx_finished_job_count c, ctx_cmd_num c, ctx_is_running c).

Definition same_views (st st' : rve_state) : Prop :=
  forall k, ctx_view <$> st_ctxs st' !! k = ctx_view <$> st_ctxs st !! k.

(** [rewrites_jobs st st']: nothing but job records has changed, and
    those for the same context. *)
Definition rewrites_jobs (st st' : rve_state) : Prop :=
  st_sched st' = st_sched st /\ st_ctxs st' = st_ctxs st /\
  st_pages st' = st_pages st /\
  forall p j', st_jobs st' !! p = Some j' ->
    exists j, st_jobs st !! p = Some j /\
              job_ctx j' = job_ctx j /\ job_scheduler j' = job_scheduler j.

(** ** Reasoning about the monad *)

Lemma bind_Ok_inv {A B} (m : M A) (k : A -> M B) st b st' :
  bind m k st = Ok (b, st') ->
  exists a st1, m st = Ok (a, st1) /\ k a st1 = Ok (b, st').
Proof.
  unfold bind. destruct (m st) as [[a st1]| |]; try discriminate.
  intros H. exists a, st1. split; [reflexivity|exact H].
Qed.

Lemma bind_Ok {A B} (m : M A) (k : A -> M B) st a st1 :
  m st = Ok (a, st1) -> bind m k st = k a st1.
Proof. unfold bind. intros ->. reflexivity. Qed.

Lemma bind_ext {A B} (m : M A) (k1 k2 : A -> M B) st :
  (forall a st', m st = Ok (a, st') -> k1 a st' = k2 a st') ->
  bind m k1 st = bind m k2 st.
Proof.
  intros H. unfold bind. destruct (m st) as [[a st']| |]; auto.
Qed.

Lemma bind_assoc {A B C} (m : M A) (f : A -> M B) (g : B -> M C) st :
  bind (bind m f) g st = bind m (fun a => bind (f a) g) st.
Proof. unfold bind. destruct (m st) as [[a st']| |]; reflexivity. Qed.

Lemma get_job_Ok st p j :
  st_jobs st !! p = Some j -> get_job p st = Ok (j, st).
Proof. unfold get_job. intros ->. reflexivity. Qed.

Lemma get_ctx_Ok st p c :
  st_ctxs st !! p = Some c -> get_ctx p st = Ok (c, st).
Proof. unfold get_ctx. intros ->. reflexivity. Qed.

Lemma rve_internal_ctx_lookup_Ok id st :
  rve_internal_ctx_lookup id st = Ok (st_ctxs st !! id, st).
Proof. reflexivity. Qed.

Lemma get_job_inv st p j st' :
  get_job p st = Ok (j, st') -> st' = st /\ st_jobs st !! p = Some j.
Proof.
  unfold get_job. destruct (st_jobs st !! p); [|discriminate].
  intros [= -> ->]. split; reflexivity.
Qed.

Lemma get_ctx_inv st p c st' :
  get_ctx p st = Ok (c, st') -> st' = st /\ st_ctxs st !! p = Some c.
Proof.
  unfold get_ctx. destruct (st_ctxs st !! p); [|discriminate].
  intros [= -> ->]. split; reflexivity.
Qed.

(** Splits a hypothesis [bind m k st = Ok _] into its two halves. *)
Ltac bind_inv H :=
  let a := fresh "a" in
  let st1 := fresh "st" in
  let H1 := fresh "Hm" in
  apply bind_Ok_inv in H; destruct H as (a & st1 & H1 & H).

(** *** Operations that leave the scheduler record alone *)

Lemma keeps_sched_bind {A B} (m : M A) (k : A -> M B) :
  keeps_sched m -> (forall a, keeps_sched (k a)) -> keeps_sched (bind m k).
Proof.
  intros Hm Hk st b st' H. bind_inv H.
  rewrite (Hk _ _ _ _ H). eapply Hm; eassumption.
Qed.

Lemma keeps_sched_ret {A} (a : A) : keeps_sched (ret a).
Proof. intros st a' st' [= _ <-]. reflexivity. Qed.

Lemma keeps_sched_get_job p : keeps_sched (get_job p).
Proof. intros st a st' H. apply get_job_inv in H as [-> _]. reflexivity. Qed.

Lemma keeps_sched_get_ctx p : keeps_sched (get_ctx p).
Proof. intros st a st' H. apply get_ctx_inv in H as [-> _]. reflexivity. Qed.

Lemma keeps_sched_put_job p j : keeps_sched (put_job p j).
Proof. intros st a st' [= _ <-]. reflexivity. Qed.

Lemma keeps_sched_modify_job p f : keeps_sched (modify_job p f).
Proof.
  apply keeps_sched_bind; [apply keeps_sched_get_job|].
  intros j. apply keeps_sched_put_job.
Qed.

Lemma keeps_sched_todo_bump l : keeps_sched (todo_bump l).
Proof.
  induction l as [|p l IH]; simpl.
  - apply keeps_sched_ret.
  - apply keeps_sched_bind; [apply keeps_sched_modify_job|]. intros _. exact IH.
Qed.

Lemma keeps_sched_todo_scan job l : keeps_sched (todo_scan job l).
Proof.
  induction l as [|p l IH]; simpl.
  - apply keeps_sched_ret.
  - apply keeps_sched_bind; [apply keeps_sched_get_job|]. intros j.
    apply keeps_sched_bind; [apply keeps_sched_get_job|]. intros jp.
    destruct (job_priority j >? job_priority jp).
    + apply keeps_sched_bind; [apply (keeps_sched_todo_bump (p :: job :: l))|].
      intros _. apply keeps_sched_ret.
    + apply keeps_sched_bind; [exact IH|]. intros r. apply keeps_sched_ret.
Qed.

Lemma keeps_sched_cancel_todo id l count : keeps_sched (cancel_todo id l count).
Proof.
  revert count. induction l as [|p l IH]; intros count; simpl.
  - apply keeps_sched_ret.
  - apply keeps_sched_bind; [apply keeps_sched_get_job|]. intros j.
    apply keeps_sched_bind; [apply keeps_sched_get_ctx|]. intros c.
    destruct (id =? ctx_id c).
    + apply IH.
    + apply keeps_sched_bind; [apply IH|]. intros r. apply keeps_sched_ret.
Qed.

(** *** The running slot across one locked region *)

Lemma slot_succession_refl a : slot_succession a a.
Proof. destruct a; simpl; auto. Qed.

Lemma slot_succession_None_r a : slot_succession a None.
Proof. destruct a; simpl; auto. Qed.

Lemma slot_succession_None_l b : slot_succession None b.
Proof. destruct b; simpl; auto. Qed.

Lemma next_job_locked_slot st a st' :
  next_job_locked st = Ok (a, st') ->
  slot_succession (running_job (st_sched st)) (running_job (st_sched st')).
Proof.
  unfold next_job_locked, bind, get_sched.
  destruct (running_job (st_sched st)) as [x|] eqn:Hr.
  - intros [= _ <-]. rewrite Hr. reflexivity.
  - intros _. apply slot_succession_None_l.
Qed.

Lemma schedule_locked_slot job st a st' :
  schedule_locked job st = Ok (a, st') ->
  running_job (st_sched st') = running_job (st_sched st).
Proof.
  unfold schedule_locked. intros H.
  bind_inv H. injection Hm as <- <-.
  bind_inv H. apply get_job_inv in Hm as [-> _].
  bind_inv H. injection H as _ <-. reflexivity.
Qed.

Lemma cancel_locked_slot ctx st a st' :
  cancel_locked ctx st = Ok (a, st') ->
  slot_succession (running_job (st_sched st)) (running_job (st_sched st')).
Proof.
  unfold cancel_locked. intros H.
  bind_inv H. apply get_ctx_inv in Hm as [-> _].
  bind_inv H. injection Hm as <- <-.
  bind_inv H.
  destruct (running_job (st_sched st)) as [x|] eqn:Hr;
    [|apply slot_succession_None_l].
  bind_inv H. bind_inv H.
  destruct (_ =? _); bind_inv H;
    match goal with
    | Hp : put_sched _ _ = Ok _ |- _ => injection Hp as _ <-
    end; injection H as _ <-; simpl; [exact I|reflexivity].
Qed.

Lemma run_region_slot r st st' :
  run_region r st = Ok (tt, st') ->
  slot_succession (running_job (st_sched st)) (running_job (st_sched st')).
Proof.
  destruct r; simpl; intros H.
  - bind_inv H. injection H as <-. eapply next_job_locked_slot; eassumption.
  - unfold clear_running_locked, bind, get_sched, put_sched in H.
    injection H as <-. apply slot_succession_None_r.
  - bind_inv H. injection H as <-.
    unfold job_done_locked in Hm. bind_inv Hm. injection Hm0 as <- <-.
    bind_inv Hm. injection Hm0 as _ <-.
    destruct (running_job (st_sched st)); [|discriminate].
    bind_inv Hm. apply get_job_inv in Hm0 as [-> _]. injection Hm as _ <-.
    simpl. exact I.
  - bind_inv H. injection H as <-.
    unfold timeout_clean_locked in Hm. bind_inv Hm. injection Hm0 as <- <-.
    destruct (running_job (st_sched st)) as [x|] eqn:Hr.
    + bind_inv Hm. apply get_job_inv in Hm0 as [-> _].
      destruct (_ && _).
      * bind_inv Hm. injection Hm0 as _ <-. injection Hm as _ <-.
        simpl. exact I.
      * injection Hm as _ <-. rewrite Hr. reflexivity.
    + apply slot_succession_None_l.
  - rewrite (schedule_locked_slot _ _ _ _ H). apply slot_succession_refl.
  - unfold abort_locked in H. bind_inv H. injection Hm as <- <-.
    destruct (decide _).
    + injection H as <-. apply slot_succession_None_r.
    + injection H as <-. apply slot_succession_refl.
  - bind_inv H. injection H as <-. eapply cancel_locked_slot; eassumption.
Qed.

Lemma rve_step_slot st st' :
  rve_step st st' ->
  slot_succession (running_job (st_sched st)) (running_job (st_sched st')).
Proof.
  intros [r s s' H|s s' H].
  - eapply run_region_slot; eassumption.
  - rewrite H. apply slot_succession_refl.
Qed.

(** *** The finish path on one job *)

Lemma int_wrap_id z : - 2 ^ 31 <= z <= INT_MAX -> int_wrap z = z.
Proof.
  unfold int_wrap, INT_MAX. intros H.
  rewrite Z.mod_small by lia. lia.
Qed.

(** A finish call that does not complete the context only records the
    job's command array and the new count. *)
Lemma rve_internal_ctx_signal_pending st job j c :
  st_jobs st !! job = Some j ->
  job_scheduler j = true ->
  IS_ERR_OR_NULL (job_ctx j) = false ->
  st_ctxs st !! job_ctx j = Some c ->
  0 <= ctx_finished_job_count c ->
  ctx_finished_job_count c + 1 < ctx_cmd_num c ->
  ctx_cmd_num c <= INT_MAX ->
  rve_internal_ctx_signal job st =
    Ok (0, with_ctxs (<[job_ctx j :=
                         ctx_record_finish (job_regcmd_data j)
                           (ctx_finished_job_count c + 1) c]> (st_ctxs st)) st).
Proof.
  intros Hj Hs Hp Hc H0 Hlt Hmax. unfold rve_internal_ctx_signal.
  rewrite (bind_Ok _ _ _ _ _ (get_job_Ok _ _ _ Hj)). rewrite Hs, Hp. simpl.
  rewrite (bind_Ok _ _ _ _ _ (get_ctx_Ok _ _ _ Hc)).
  rewrite int_wrap_id by (unfold INT_MAX in *; lia).
  unfold bind at 1. unfold put_ctx at 1.
  destruct (_ >=? _) eqn:Hge; [lia|]. reflexivity.
Qed.

(** The finish call that brings the count up to [cmd_num]. *)
Lemma rve_internal_ctx_signal_last st job j c :
  st_jobs st !! job = Some j ->
  job_scheduler j = true ->
  IS_ERR_OR_NULL (job_ctx j) = false ->
  st_ctxs st !! job_ctx j = Some c ->
  0 <= ctx_finished_job_count c ->
  ctx_cmd_num c <= ctx_finished_job_count c + 1 <= INT_MAX ->
  exists st',
    rve_internal_ctx_signal job st = Ok (0, st') /\
    st_sched st' = st_sched st /\
    st_pages st' = st_pages st /\
    st_clock st' = st_clock st /\
    st_log st' = completion_events job j c ++ st_log st /\
    st_ctxs st' =
      <[job_ctx j := ctx_stop (ctx_record_finish (job_regcmd_data j)
                                 (ctx_finished_job_count c + 1) c)]> (st_ctxs st) /\
    st_jobs st' =
      (if Z.land (Z.lor (job_flags j) RVE_JOB_DONE) RVE_ASYNC =? 0
       then <[job := set_job_flags (Z.lor (job_flags j) RVE_JOB_DONE) j]> (st_jobs st)
       else delete job (st_jobs st)).
Proof.
  intros Hj Hs Hp Hc H0 Hge. unfold rve_internal_ctx_signal, completion_events.
  rewrite (bind_Ok _ _ _ _ _ (get_job_Ok _ _ _ Hj)). rewrite Hs, Hp. simpl.
  rewrite (bind_Ok _ _ _ _ _ (get_ctx_Ok _ _ _ Hc)).
  rewrite int_wrap_id by (unfold INT_MAX in *; lia).
  unfold bind at 1. unfold put_ctx at 1.
  destruct (_ >=? _) eqn:Hcmp; [|lia].
  destruct (Z.land _ _ =? 0) eqn:Hasync;
    destruct (ctx_out_fence c) as [f|] eqn:Hf;
    unfold bind, emit, put_job, put_ctx, modify_ctx, get_ctx, rve_job_cleanup,
      rve_job_free, ktime_get, get_job, del_job, ret, bind; simpl;
    rewrite ?Hasync; simpl; rewrite ?lookup_insert_eq; simpl.
  1,2: eexists; split; [reflexivity|]; simpl;
       rewrite insert_insert_eq; repeat split; reflexivity.
  all: destruct (job_out_fence j) as [g|] eqn:Hg; simpl;
       rewrite ?lookup_insert_eq; simpl;
       eexists; (split; [reflexivity|]); simpl;
       rewrite insert_insert_eq, delete_insert_eq; repeat split; reflexivity.
Qed.

Lemma count_occ_completion_wake job j c :
  count_occ rve_event_eq_dec (completion_events job j c) EvWakeUp = 1%nat.
Proof.
  unfold completion_events.
  destruct (_ =? 0), (job_out_fence j), (ctx_out_fence c); reflexivity.
Qed.

Lemma count_occ_completion_fence job j c f :
  ctx_out_fence c = Some f ->
  count_occ rve_event_eq_dec (completion_events job j c) (EvFenceSignal f) = 1%nat.
Proof.
  unfold completion_events. intros ->.
  destruct (_ =? 0), (job_out_fence j); cbn [count_occ app];
    repeat match goal with
           | |- context [rve_event_eq_dec ?a ?b] =>
               destruct (rve_event_eq_dec a b)
           end; congruence.
Qed.

Lemma count_occ_completion_no_fence job j c f :
  ctx_out_fence c <> Some f ->
  count_occ rve_event_eq_dec (completion_events job j c) (EvFenceSignal f) = 0%nat.
Proof.
  unfold completion_events. intros Hf.
  destruct (_ =? 0), (job_out_fence j), (ctx_out_fence c) as [f'|];
    cbn [count_occ app];
    repeat match goal with
           | |- context [rve_event_eq_dec ?a ?b] =>
               destruct (rve_event_eq_dec a b)
           end; congruence.
Qed.

(** *** Dispatch *)

Lemma rve_job_run_spec job st :
  exists evs, rve_job_run job st = Ok (run_result job, with_log (evs ++ st_log st) st).
Proof.
  unfold rve_job_run, run_result, rve_power_disable, bind, emit, ret. simpl.
  destruct (power_enable ops job <? 0).
  - exists [EvPowerEnable]. reflexivity.
  - destruct (init_reg ops job <? 0).
    + exists [EvPowerDisable; EvInitReg job; EvPowerEnable]. reflexivity.
    + destruct (set_reg ops job <? 0).
      * exists [EvPowerDisable; EvSetReg job; EvInitReg job; EvPowerEnable].
        reflexivity.
      * exists [EvSetReg job; EvInitReg job; EvPowerEnable]. reflexivity.
Qed.

(** The finish path returns for every live job with a live context; it
    leaves the scheduler and every other job alone and frees no context. *)
Lemma rve_internal_ctx_signal_total st job j :
  st_jobs st !! job = Some j ->
  is_Some (st_ctxs st !! job_ctx j) ->
  exists r st',
    rve_internal_ctx_signal job st = Ok (r, st') /\
    st_sched st' = st_sched st /\
    (forall x, x <> job -> st_jobs st' !! x = st_jobs st !! x) /\
    (forall k, is_Some (st_ctxs st !! k) -> is_Some (st_ctxs st' !! k)).
Proof.
  intros Hj [c Hc]. unfold rve_internal_ctx_signal.
  rewrite (bind_Ok _ _ _ _ _ (get_job_Ok _ _ _ Hj)).
  destruct (job_scheduler j); simpl.
  2: { exists (- EFAULT), st. repeat split; auto. }
  destruct (IS_ERR_OR_NULL (job_ctx j)).
  { exists (- EINVAL), st. repeat split; auto. }
  rewrite (bind_Ok _ _ _ _ _ (get_ctx_Ok _ _ _ Hc)).
  unfold bind at 1. unfold put_ctx at 1.
  assert (Hkeep : forall (v : rve_internal_ctx_t) k,
             is_Some (st_ctxs st !! k) ->
             is_Some (<[job_ctx j := v]> (st_ctxs st) !! k)).
  { intros v k Hk. destruct (decide (job_ctx j = k)) as [->|Hne].
    - rewrite lookup_insert_eq. eauto.
    - rewrite lookup_insert_ne by exact Hne. exact Hk. }
  destruct (_ >=? _).
  2: { eexists _, _. split; [reflexivity|]. simpl. repeat split; auto. }
  destruct (Z.land (Z.lor (job_flags j) RVE_JOB_DONE) RVE_ASYNC =? 0) eqn:Hasync;
    destruct (ctx_out_fence c) as [f|];
    unfold bind, emit, put_job, put_ctx, modify_ctx, get_ctx, rve_job_cleanup,
      rve_job_free, ktime_get, get_job, del_job, ret, bind; simpl;
    rewrite ?Hasync; simpl; rewrite ?lookup_insert_eq; simpl;
    try (destruct (job_out_fence j); simpl; rewrite ?lookup_insert_eq; simpl);
    eexists _, _; (split; [reflexivity|]); simpl; repeat split;
    solve
      [ intros x Hx; rewrite ?lookup_delete_ne by congruence;
        rewrite lookup_insert_ne by congruence; reflexivity
      | intros k Hk; rewrite insert_insert_eq; apply Hkeep, Hk ].
Qed.

Lemma next_job_locked_pick st job rest :
  running_job (st_sched st) = None ->
  todo_list (st_sched st) = job :: rest ->
  next_job_locked st =
    Ok (Some job,
        with_sched (mk_sched rest (Some job)
                      (int_wrap (job_count (st_sched st) - 1))) st).
Proof.
  intros Hslot Htodo. unfold next_job_locked, bind, get_sched.
  rewrite Hslot, Htodo. reflexivity.
Qed.

Lemma modify_job_Ok st p f j :
  st_jobs st !! p = Some j ->
  modify_job p f st = Ok (tt, with_jobs (<[p := f j]> (st_jobs st)) st).
Proof.
  intros Hj. unfold modify_job.
  rewrite (bind_Ok _ _ _ _ _ (get_job_Ok _ _ _ Hj)). reflexivity.
Qed.

Lemma modify_ctx_Ok st p f c :
  st_ctxs st !! p = Some c ->
  modify_ctx p f st = Ok (tt, with_ctxs (<[p := f c]> (st_ctxs st)) st).
Proof.
  intros Hc. unfold modify_ctx.
  rewrite (bind_Ok _ _ _ _ _ (get_ctx_Ok _ _ _ Hc)). reflexivity.
Qed.

Lemma rve_job_next_loop_failed fuel st job j rest :
  running_job (st_sched st) = None ->
  todo_list (st_sched st) = job :: rest ->
  st_jobs st !! job = Some j ->
  run_result job < 0 ->
  exists evs,
    rve_job_next_loop (S fuel) st =
      (rve_internal_ctx_signal job ;;; rve_job_next_loop fuel)
        (after_failed_start job j rest evs st).
Proof.
  intros Hslot Htodo Hj Hneg.
  destruct (rve_job_run_spec job
              (with_sched (mk_sched rest (Some job)
                             (int_wrap (job_count (st_sched st) - 1))) st))
    as (evs & Hrun).
  exists evs. cbn [rve_job_next_loop].
  rewrite (bind_Ok _ _ _ _ _ (next_job_locked_pick _ _ _ Hslot Htodo)).
  rewrite (bind_Ok _ _ _ _ _ Hrun).
  erewrite bind_Ok by (apply modify_job_Ok; exact Hj).
  destruct (run_result job <? 0) eqn:Hlt; [|lia].
  reflexivity.
Qed.

Lemma rve_job_next_loop_started fuel st job j rest :
  running_job (st_sched st) = None ->
  todo_list (st_sched st) = job :: rest ->
  st_jobs st !! job = Some j ->
  0 <= run_result job ->
  exists st',
    rve_job_next_loop (S fuel) st = Ok (tt, st') /\
    running_job (st_sched st') = Some job /\
    todo_list (st_sched st') = rest.
Proof.
  intros Hslot Htodo Hj Hpos.
  destruct (rve_job_run_spec job
              (with_sched (mk_sched rest (Some job)
                             (int_wrap (job_count (st_sched st) - 1))) st))
    as (evs & Hrun).
  cbn [rve_job_next_loop].
  rewrite (bind_Ok _ _ _ _ _ (next_job_locked_pick _ _ _ Hslot Htodo)).
  rewrite (bind_Ok _ _ _ _ _ Hrun).
  erewrite bind_Ok by (apply modify_job_Ok; exact Hj).
  destruct (run_result job <? 0) eqn:Hlt; [lia|].
  eexists. split; [reflexivity|]. simpl. split; reflexivity.
Qed.

Lemma next_job_locked_idle st :
  running_job (st_sched st) <> None \/ todo_list (st_sched st) = [] ->
  next_job_locked st = Ok (None, st).
Proof.
  intros H. unfold next_job_locked, bind, get_sched.
  destruct (running_job (st_sched st)); [reflexivity|].
  destruct H as [H|H]; [congruence|]. rewrite H. reflexivity.
Qed.

(** rve_job_next returns: the fuel it is given is enough.  When it is
    done either a job whose start succeeded sits in the running slot, or
    the slot was busy from the start, or nothing is left in the queue. *)
Lemma rve_job_next_loop_total fuel : forall st,
  (length (todo_list (st_sched st)) < fuel)%nat ->
  queue_wf st ->
  exists st',
    rve_job_next_loop fuel st = Ok (tt, st') /\
    (running_job (st_sched st') = None -> todo_list (st_sched st') = []) /\
    (forall x, running_job (st_sched st') = Some x ->
       running_job (st_sched st) = Some x \/
       (x ∈ todo_list (st_sched st) /\ 0 <= run_result x)).
Proof.
  induction fuel as [|fuel IH]; intros st Hlen [Hnd Hlive]; [lia|].
  destruct (running_job (st_sched st)) as [r|] eqn:Hslot.
  { exists st. cbn [rve_job_next_loop].
    rewrite (bind_Ok _ _ _ _ _ (next_job_locked_idle st
               ltac:(left; congruence))).
    split; [reflexivity|]. split; [congruence|]. intros x Hx. left.
    congruence. }
  destruct (todo_list (st_sched st)) as [|job rest] eqn:Htodo.
  { exists st. cbn [rve_job_next_loop].
    rewrite (bind_Ok _ _ _ _ _ (next_job_locked_idle st
               ltac:(right; assumption))).
    split; [reflexivity|]. split; [auto|]. intros x Hx. left. congruence. }
  apply Forall_cons in Hlive as [(j & Hj & Hjc) Hlive].
  apply NoDup_cons in Hnd as [Hnotin Hnd].
  destruct (Z_lt_le_dec (run_result job) 0) as [Hneg|Hpos].
  - destruct (rve_job_next_loop_failed fuel st job j rest Hslot Htodo Hj Hneg)
      as (evs & ->).
    destruct (rve_internal_ctx_signal_total
                (after_failed_start job j rest evs st) job
                (set_job_ret (run_result job) j))
      as (r & st4 & Hsig & Hsched & Hjobs & Hctxs).
    { simpl. apply lookup_insert_eq. }
    { simpl. exact Hjc. }
    rewrite (bind_Ok _ _ _ _ _ Hsig).
    destruct (IH st4) as (st' & Hrun & Hsettled & Hfrom).
    + rewrite Hsched. simpl in *. lia.
    + unfold queue_wf. rewrite Hsched. simpl. split; [exact Hnd|].
      rewrite Forall_forall in Hlive |- *. intros x Hx.
      destruct (Hlive x Hx) as (jx & Hjx & Hcx).
      exists jx. split.
      * rewrite Hjobs by (intros ->; contradiction). simpl.
        rewrite lookup_insert_ne by (intros ->; contradiction). exact Hjx.
      * apply Hctxs. simpl. exact Hcx.
    + exists st'. split; [exact Hrun|]. split; [exact Hsettled|].
      intros x Hx. right. destruct (Hfrom x Hx) as [Hx'|[Hx' Hr]].
      * rewrite Hsched in Hx'. simpl in Hx'. discriminate.
      * rewrite Hsched in Hx'. simpl in Hx'. split; [|exact Hr].
        apply elem_of_cons. right. exact Hx'.
  - destruct (rve_job_next_loop_started fuel st job j rest Hslot Htodo Hj Hpos)
      as (st' & Hrun & Hr & Ht).
    exists st'. split; [exact Hrun|]. split; [congruence|].
    intros x Hx. right. rewrite Hr in Hx. injection Hx as <-.
    split; [apply elem_of_cons; left; reflexivity|exact Hpos].
Qed.

Lemma rve_job_next_unfold st job rest :
  todo_list (st_sched st) = job :: rest ->
  rve_job_next st = rve_job_next_loop (S (S (length rest))) st.
Proof. unfold rve_job_next. intros ->. reflexivity. Qed.


(** C5.  With a job in the running slot, or with an empty queue,
    rve_job_next changes nothing at all (queue, counter and slot
    included), and calling it again changes nothing either. *)
Theorem rve_job_next_idle_noop st :
  running_job (st_sched st) <> None \/ todo_list (st_sched st) = [] ->
  rve_job_next st = Ok (tt, st) /\
  (rve_job_next ;;; rve_job_next) st = rve_job_next st.
Proof.
  intros H.
  assert (Hnext : rve_job_next st = Ok (tt, st)).
  { unfold rve_job_next. cbn [rve_job_next_loop].
    rewrite (bind_Ok _ _ _ _ _ (next_job_locked_idle st H)). reflexivity. }
  split; [exact Hnext|].
  rewrite (bind_Ok _ _ _ _ _ Hnext). reflexivity.
Qed.

(** C1.  Along every interleaving of the locked regions of the scheduler
    (enqueue, dispatch, failed dispatch, completion, timeout cleaning,
    abort, cancellation) with arbitrary unlocked activity in between, the
    running slot holds at most one job in every state, and no state with
    one job in the slot is directly followed by a state with another job in
    it: a job gets into the slot only from the empty slot, after whatever
    path held the previous job has cleared it. *)
Theorem running_slot_exclusive st l :
  rve_run st l ->
  Forall (fun s => (length (running_jobs s) <= 1)%nat) (st :: l) /\
  slot_handover_free (running_job (st_sched st)) l.
Proof.
  intros Hrun. split.
  - apply Forall_forall. intros s _. unfold running_jobs.
    destruct (running_job (st_sched s)); simpl; lia.
  - induction Hrun as [st|st st' l Hstep Hrun IH]; simpl; [exact I|].
    split; [|exact IH].
    apply rve_step_slot in Hstep. exact Hstep.
Qed.

(** *** Timeout cleaning *)


(** *** Commit *)

Lemma rve_job_alloc_ctx st ctx a st' :
  rve_job_alloc ctx st = Ok (a, st') -> st_ctxs st' = st_ctxs st.
Proof.
  unfold rve_job_alloc, bind, get_zeroed_page.
  destruct (st_pages st) as [|p rest]; [intros [= _ <-]; reflexivity|].
  unfold ktime_get, get_ctx. simpl.
  destruct (st_ctxs st !! ctx); [|discriminate].
  unfold put_job, ret. intros [= _ <-]. reflexivity.
Qed.

Lemma modify_ctx_inv st p f a st' :
  modify_ctx p f st = Ok (a, st') ->
  exists c, st_ctxs st !! p = Some c /\
            st' = with_ctxs (<[p := f c]> (st_ctxs st)) st.
Proof.
  unfold modify_ctx. intros H. bind_inv H.
  apply get_ctx_inv in Hm as [-> Hc]. injection H as _ <-.
  eexists. split; [exact Hc|reflexivity].
Qed.

Lemma rve_job_alloc_exact ctx c p rest st :
  st_pages st = p :: rest ->
  st_ctxs st !! ctx = Some c ->
  rve_job_alloc ctx st =
    Ok (Some p, with_jobs (<[p := allocated_job ctx c (st_clock st)]> (st_jobs st))
                  (with_pages rest st)).
Proof.
  intros Hp Hc. unfold rve_job_alloc, bind, get_zeroed_page. rewrite Hp.
  unfold ktime_get, get_ctx, put_job, ret. simpl. rewrite Hc. reflexivity.
Qed.

Lemma rve_job_alloc_none ctx st :
  st_pages st = [] -> rve_job_alloc ctx st = Ok (None, st).
Proof.
  intros Hp. unfold rve_job_alloc, bind, get_zeroed_page. rewrite Hp.
  reflexivity.
Qed.

(** Commit of a configured context, up to the call of rve_job_schedule. *)
Lemma commit_configured envs ok u st c :
  RVE_SYNC <> RVE_ASYNC ->
  st_ctxs st !! uc_id u = Some c ->
  ctx_is_running c = false ->
  ctx_cmd_num c = 1 ->
  rve_job_commit_by_user_ctx envs ok u st =
    match st_pages st with
    | [] =>
        Ok ((- EFAULT, u),
            with_ctxs (<[uc_id u := committed c]> (st_ctxs st)) st)
    | p :: rest =>
        (rve_job_timeout_clean ;;; schedule_locked p ;;; rve_job_next ;;;
         commit_after_schedule envs ok u p)
          (commit_allocated (uc_id u) c p rest st)
    end.
Proof.
  intros Hne Hc Hrun Hn. unfold rve_job_commit_by_user_ctx.
  rewrite (bind_Ok _ _ _ _ _ (rve_internal_ctx_lookup_Ok _ _)).
  rewrite Hc, Hrun, Hn. change (Z.to_nat 1) with 1%nat.
  rewrite (bind_Ok (put_ctx _ _) _ st tt _ eq_refl).
  set (st1 := with_ctxs (<[uc_id u := ctx_reset c]> (st_ctxs st)) st).
  assert (Hc1 : st_ctxs st1 !! uc_id u = Some (ctx_reset c))
    by apply lookup_insert_eq.
  cbn [commit_loop]. rewrite ?bind_assoc.
  rewrite (bind_Ok _ _ _ _ _ (get_ctx_Ok _ _ _ Hc1)).
  change (ctx_cmd_num (ctx_reset c)) with (ctx_cmd_num c). rewrite Hn.
  change (0 <? 1) with true. cbv iota.
  unfold rve_job_commit. rewrite ?bind_assoc.
  rewrite (bind_Ok _ _ _ _ _ (modify_ctx_Ok _ _ _ _ Hc1)).
  set (st2 := with_ctxs _ st1).
  assert (Hst2 : st2 = with_ctxs (<[uc_id u := committed c]> (st_ctxs st)) st).
  { unfold st2, st1, with_ctxs. simpl. rewrite insert_insert_eq. reflexivity. }
  assert (Hc2 : st_ctxs st2 !! uc_id u = Some (committed c))
    by apply lookup_insert_eq.
  rewrite ?bind_assoc.
  destruct (st_pages st) as [|p rest] eqn:Hp.
  { rewrite (bind_Ok _ _ _ _ _ (rve_job_alloc_none _ st2 Hp)).
    cbv beta iota. rewrite Hst2. reflexivity. }
  rewrite (bind_Ok _ _ _ _ _ (rve_job_alloc_exact _ _ _ _ st2 Hp Hc2)).
  cbv beta iota. rewrite Hst2.
  change (with_jobs _ (with_pages rest _))
    with (commit_allocated (uc_id u) c p rest st).
  set (st3 := commit_allocated (uc_id u) c p rest st).
  assert (Hc3 : st_ctxs st3 !! uc_id u = Some (committed c))
    by apply lookup_insert_eq.
  assert (Hj3 : st_jobs st3 !! p =
                Some (allocated_job (uc_id u) (committed c) (st_clock st)))
    by apply lookup_insert_eq.
  rewrite ?bind_assoc.
  rewrite (bind_Ok _ _ _ _ _ (get_ctx_Ok _ _ _ Hc3)).
  change (ctx_sync_mode (committed c)) with RVE_SYNC.
  destruct (RVE_SYNC =? RVE_ASYNC) eqn:Ha; [lia|]. rewrite Z.eqb_refl.
  unfold rve_job_schedule. rewrite ?bind_assoc.
  rewrite (bind_Ok _ _ _ _ _ (get_job_Ok _ _ _ Hj3)).
  change (job_scheduler (allocated_job _ _ _)) with true. cbn [negb].
  rewrite ?bind_assoc.
  apply bind_ext. intros [] s1 _. rewrite ?bind_assoc.
  apply bind_ext. intros [] s2 _. rewrite ?bind_assoc.
  apply bind_ext. intros [] s3 _. rewrite ?bind_assoc.
  rewrite (bind_Ok (ret true) _ s3 true s3 eq_refl). cbn [negb].
  unfold commit_after_schedule. rewrite ?bind_assoc.
  apply bind_ext. intros j s4 _.
  destruct (job_ret j <? 0) eqn:Hret.
  { rewrite ?bind_assoc. apply bind_ext. intros [] s5 _.
    rewrite ?bind_assoc.
    rewrite (bind_Ok (ret (job_ret j)) _ s5 _ s5 eq_refl). rewrite Hret.
    reflexivity. }
  rewrite ?bind_assoc. apply bind_ext. intros [] s5 _.
  rewrite ?bind_assoc. apply bind_ext. intros r s6 _.
  destruct (r <? 0) eqn:Hr.
  { rewrite ?bind_assoc. apply bind_ext. intros [] s7 _.
    rewrite ?bind_assoc.
    rewrite (bind_Ok (ret r) _ s7 _ s7 eq_refl). rewrite Hr. reflexivity. }
  rewrite ?bind_assoc. apply bind_ext. intros z s7 _.
  rewrite ?bind_assoc.
  rewrite (bind_Ok (ret r) _ s7 _ s7 eq_refl). rewrite Hr.
  unfold commit_tail. rewrite ?bind_assoc. reflexivity.
Qed.

Lemma rve_job_wait_inv job left_time st r st' :
  rve_job_wait job left_time st = Ok (r, st') ->
  In (EvWait job) (st_log st') /\
  (0 <= r ->
   r = 0 /\ left_time <> 0 /\ left_time <> - ERESTARTSYS /\
   st' = with_log (EvWait job :: st_log st) st).
Proof.
  unfold rve_job_wait, bind, emit, ktime_get, ret.
  destruct (left_time =? 0) eqn:H0; [|destruct (left_time =? - ERESTARTSYS) eqn:H1];
    intros [= <- <-]; simpl.
  - split; [auto|]. unfold EBUSY. lia.
  - split; [auto|]. unfold ERESTARTSYS. lia.
  - split; [auto|]. intros _. repeat split; lia.
Qed.

(** rve_job_cleanup and the end of Commit only add to the log. *)
Lemma rve_job_cleanup_log job st a st' :
  rve_job_cleanup job st = Ok (a, st') ->
  exists evs, st_log st' = evs ++ st_log st.
Proof.
  unfold rve_job_cleanup, rve_job_free, bind, ktime_get, get_job, emit,
    del_job, ret.
  destruct (st_jobs st !! job) as [j|]; [|discriminate].
  destruct (job_out_fence j); intros [= _ <-]; simpl.
  - eexists [_; _]. reflexivity.
  - eexists [_]. reflexivity.
Qed.

Lemma commit_tail_inv envs ok u r st r' u' st' :
  commit_tail envs ok u r st = Ok ((r', u'), st') ->
  (r' = r /\ ok = true \/ r' = - EFAULT) /\
  (exists evs, st_log st' = evs ++ st_log st) /\
  exists c', st_ctxs st' !! uc_id u = Some c' /\
             u' = set_uc_out_fence_fd (ctx_out_fence_fd c') u.
Proof.
  unfold commit_tail. intros H. bind_inv H.
  apply modify_ctx_inv in Hm as (c0 & Hc0 & ->).
  bind_inv H. cbn [commit_loop] in Hm. bind_inv Hm.
  apply get_ctx_inv in Hm0 as [-> Hc1].
  destruct (_ <? _); [discriminate|]. injection Hm as <- <-.
  bind_inv H. apply get_ctx_inv in Hm as [-> Hc2]. bind_inv H.
  injection Hm as _ <-.
  destruct ok; injection H as <- <- <-; simpl.
  - split; [left; auto|]. split; [eexists [_]; reflexivity|].
    eexists. split; [exact Hc2|reflexivity].
  - split; [right; auto|]. split; [eexists [_]; reflexivity|].
    eexists. split; [exact Hc2|reflexivity].
Qed.


(** *** Nothing but Configure touches the batch count *)

Lemma keeps_cmd_num_bind {A B} (m : M A) (k : A -> M B) :
  keeps_cmd_num m -> (forall a, keeps_cmd_num (k a)) -> keeps_cmd_num (bind m k).
Proof.
  intros Hm Hk st b st' H p c Hc. bind_inv H.
  destruct (Hm _ _ _ Hm0 _ _ Hc) as (c1 & Hc1 & Hn1).
  destruct (Hk _ _ _ _ H _ _ Hc1) as (c2 & Hc2 & Hn2).
  exists c2. split; [exact Hc2|congruence].
Qed.

Lemma keeps_cmd_num_of_ctxs {A} (m : M A) :
  (forall st a st', m st = Ok (a, st') -> st_ctxs st' = st_ctxs st) ->
  keeps_cmd_num m.
Proof.
  intros H st a st' Hrun k c Hc. exists c. rewrite (H _ _ _ Hrun). auto.
Qed.

Lemma keeps_cmd_num_ret {A} (a : A) : keeps_cmd_num (ret a).
Proof. apply keeps_cmd_num_of_ctxs. intros st a' st' [= _ <-]. reflexivity. Qed.

Lemma keeps_cmd_num_get_sched : keeps_cmd_num get_sched.
Proof. apply keeps_cmd_num_of_ctxs. intros st a' st' [= _ <-]. reflexivity. Qed.

Lemma keeps_cmd_num_put_sched s : keeps_cmd_num (put_sched s).
Proof. apply keeps_cmd_num_of_ctxs. intros st a' st' [= _ <-]. reflexivity. Qed.

Lemma keeps_cmd_num_get_job p : keeps_cmd_num (get_job p).
Proof.
  apply keeps_cmd_num_of_ctxs. intros st a st' H.
  apply get_job_inv in H as [-> _]. reflexivity.
Qed.

Lemma keeps_cmd_num_put_job p j : keeps_cmd_num (put_job p j).
Proof. apply keeps_cmd_num_of_ctxs. intros st a' st' [= _ <-]. reflexivity. Qed.

Lemma keeps_cmd_num_del_job p : keeps_cmd_num (del_job p).
Proof. apply keeps_cmd_num_of_ctxs. intros st a' st' [= _ <-]. reflexivity. Qed.

Lemma keeps_cmd_num_get_ctx p : keeps_cmd_num (get_ctx p).
Proof.
  apply keeps_cmd_num_of_ctxs. intros st a st' H.
  apply get_ctx_inv in H as [-> _]. reflexivity.
Qed.

Lemma keeps_cmd_num_emit e : keeps_cmd_num (emit e).
Proof. apply keeps_cmd_num_of_ctxs. intros st a' st' [= _ <-]. reflexivity. Qed.

Lemma keeps_cmd_num_ktime_get : keeps_cmd_num ktime_get.
Proof. apply keeps_cmd_num_of_ctxs. intros st a' st' [= _ <-]. reflexivity. Qed.

Lemma keeps_cmd_num_get_zeroed_page : keeps_cmd_num get_zeroed_page.
Proof.
  apply keeps_cmd_num_of_ctxs. intros st a' st'. unfold get_zeroed_page.
  destruct (st_pages st); intros [= _ <-]; reflexivity.
Qed.

Lemma keeps_cmd_num_modify_ctx p f :
  (forall c, ctx_cmd_num (f c) = ctx_cmd_num c) -> keeps_cmd_num (modify_ctx p f).
Proof.
  intros Hf st a st' H k c Hc.
  apply modify_ctx_inv in H as (c0 & Hc0 & ->). simpl.
  destruct (decide (p = k)) as [->|Hne].
  - rewrite lookup_insert_eq. eexists. split; [reflexivity|].
    rewrite Hf. congruence.
  - rewrite lookup_insert_ne by exact Hne. eauto.
Qed.

(** [ctx] is read and written back with the same batch count. *)
Lemma keeps_cmd_num_update_ctx {A} p (f : rve_internal_ctx_t -> rve_internal_ctx_t)
    (k : rve_internal_ctx_t -> M A) :
  (forall c, ctx_cmd_num (f c) = ctx_cmd_num c) ->
  (forall c, keeps_cmd_num (k c)) ->
  keeps_cmd_num (let* c := get_ctx p in put_ctx p (f c) ;;; k c).
Proof.
  intros Hf Hk st a st' H q c Hc. bind_inv H.
  apply get_ctx_inv in Hm as [-> Hc0]. bind_inv H. injection Hm as _ <-.
  match type of H with
  | _ _ ?s = _ =>
      assert (Hq : exists c1, st_ctxs s !! q = Some c1 /\
                              ctx_cmd_num c1 = ctx_cmd_num c)
  end.
  { simpl. destruct (decide (p = q)) as [->|Hne].
    - rewrite lookup_insert_eq. eexists. split; [reflexivity|].
      rewrite Hf. congruence.
    - rewrite lookup_insert_ne by exact Hne. eauto. }
  destruct Hq as (c1 & Hc1 & Hn1).
  destruct (Hk _ _ _ _ H _ _ Hc1) as (c2 & Hc2 & Hn2).
  exists c2. split; [exact Hc2|congruence].
Qed.

Lemma keeps_cmd_num_access_regcmd a : keeps_cmd_num (access_regcmd a).
Proof.
  apply keeps_cmd_num_of_ctxs. intros st a' st'. unfold access_regcmd.
  destruct (bool_decide _); [|discriminate]. intros [= _ <-]. reflexivity.
Qed.

Lemma keeps_cmd_num_kfree a : keeps_cmd_num (kfree a).
Proof. apply keeps_cmd_num_of_ctxs. intros st a' st' [= _ <-]. reflexivity. Qed.

Lemma keeps_cmd_num_fault {A} : keeps_cmd_num (@fault A).
Proof. intros st a st' H. discriminate. Qed.

Lemma keeps_cmd_num_out_of_fuel {A} : keeps_cmd_num (@out_of_fuel A).
Proof. intros st a st' H. discriminate. Qed.

Create HintDb keeps.
#[local] Hint Resolve keeps_cmd_num_fault keeps_cmd_num_out_of_fuel : keeps.
#[local] Hint Resolve keeps_cmd_num_ret keeps_cmd_num_get_sched
  keeps_cmd_num_put_sched keeps_cmd_num_get_job keeps_cmd_num_put_job
  keeps_cmd_num_del_job keeps_cmd_num_get_ctx keeps_cmd_num_emit
  keeps_cmd_num_ktime_get keeps_cmd_num_get_zeroed_page
  keeps_cmd_num_access_regcmd keeps_cmd_num_kfree : keeps.

(** Walks down a monadic term, one bind or one branch at a time. *)
Ltac keeps :=
  repeat first
    [ assumption
    | solve [auto with keeps]
    | apply keeps_cmd_num_modify_ctx; intros ?; reflexivity
    | apply keeps_cmd_num_bind; [|intros ?]
    | match goal with
      | |- keeps_cmd_num (if ?b then _ else _) => destruct b
      | |- keeps_cmd_num (match ?x with _ => _ end) => destruct x
      end ].

Lemma keeps_cmd_num_modify_job p f : keeps_cmd_num (modify_job p f).
Proof. unfold modify_job. keeps. Qed.
#[local] Hint Resolve keeps_cmd_num_modify_job : keeps.

Lemma keeps_cmd_num_rve_job_free job : keeps_cmd_num (rve_job_free job).
Proof. unfold rve_job_free. keeps. Qed.
#[local] Hint Resolve keeps_cmd_num_rve_job_free : keeps.

Lemma keeps_cmd_num_rve_job_cleanup job : keeps_cmd_num (rve_job_cleanup job).
Proof. unfold rve_job_cleanup. keeps. Qed.
#[local] Hint Resolve keeps_cmd_num_rve_job_cleanup : keeps.

Lemma keeps_cmd_num_rve_job_alloc ctx : keeps_cmd_num (rve_job_alloc ctx).
Proof. unfold rve_job_alloc. keeps. Qed.
#[local] Hint Resolve keeps_cmd_num_rve_job_alloc : keeps.

Lemma keeps_cmd_num_signal job : keeps_cmd_num (rve_internal_ctx_signal job).
Proof.
  unfold rve_internal_ctx_signal.
  apply keeps_cmd_num_bind; [auto with keeps|]. intros j.
  destruct (negb _); [auto with keeps|].
  destruct (IS_ERR_OR_NULL _); [auto with keeps|].
  apply (keeps_cmd_num_update_ctx (job_ctx j)
           (fun c => ctx_record_finish (job_regcmd_data j)
                       (int_wrap (ctx_finished_job_count c + 1)) c)).
  - reflexivity.
  - intros c. keeps.
Qed.
#[local] Hint Resolve keeps_cmd_num_signal : keeps.

Lemma keeps_cmd_num_rve_job_run job : keeps_cmd_num (rve_job_run job).
Proof. unfold rve_job_run, rve_power_disable. keeps. Qed.
#[local] Hint Resolve keeps_cmd_num_rve_job_run : keeps.

Lemma keeps_cmd_num_next_loop fuel : keeps_cmd_num (rve_job_next_loop fuel).
Proof.
  induction fuel as [|fuel IH]; simpl.
  - keeps.
  - unfold next_job_locked, clear_running_locked. keeps.
Qed.

Lemma keeps_cmd_num_rve_job_next : keeps_cmd_num rve_job_next.
Proof.
  intros st a st' H. unfold rve_job_next in H.
  eapply keeps_cmd_num_next_loop. exact H.
Qed.
#[local] Hint Resolve keeps_cmd_num_rve_job_next : keeps.

Lemma keeps_cmd_num_timeout_clean : keeps_cmd_num rve_job_timeout_clean.
Proof.
  unfold rve_job_timeout_clean, timeout_clean_locked, rve_power_disable. keeps.
Qed.
#[local] Hint Resolve keeps_cmd_num_timeout_clean : keeps.

Lemma keeps_cmd_num_todo_bump l : keeps_cmd_num (todo_bump l).
Proof. induction l as [|p l IH]; simpl; keeps. Qed.
#[local] Hint Resolve keeps_cmd_num_todo_bump : keeps.

Lemma keeps_cmd_num_todo_scan job l : keeps_cmd_num (todo_scan job l).
Proof.
  induction l as [|p l IH]; simpl; [keeps|].
  apply keeps_cmd_num_bind; [auto with keeps|]. intros j.
  apply keeps_cmd_num_bind; [auto with keeps|]. intros jp.
  destruct (_ >? _).
  - apply keeps_cmd_num_bind;
      [apply (keeps_cmd_num_todo_bump (p :: job :: l))|]. intros _. keeps.
  - keeps.
Qed.
#[local] Hint Resolve keeps_cmd_num_todo_scan : keeps.

Lemma keeps_cmd_num_schedule_locked job : keeps_cmd_num (schedule_locked job).
Proof. unfold schedule_locked. keeps. Qed.
#[local] Hint Resolve keeps_cmd_num_schedule_locked : keeps.

Lemma keeps_cmd_num_rve_job_schedule job : keeps_cmd_num (rve_job_schedule job).
Proof. unfold rve_job_schedule. keeps. Qed.
#[local] Hint Resolve keeps_cmd_num_rve_job_schedule : keeps.

Lemma keeps_cmd_num_rve_job_commit env ctx :
  keeps_cmd_num (wait_activity env) -> keeps_cmd_num (rve_job_commit env ctx).
Proof.
  intros Henv.
  unfold rve_job_commit, rve_invalid_job_abort, rve_running_job_abort,
    abort_locked, rve_job_wait.
  keeps.
Qed.

Lemma keeps_cmd_num_rve_job_done r : keeps_cmd_num (rve_job_done r).
Proof.
  unfold rve_job_done, job_done_locked, rve_job_finish_and_next,
    rve_power_disable, fault.
  keeps.
Qed.

Lemma rve_job_config_by_user_ctx_success env u st u' st' :
  rve_job_config_by_user_ctx env u st = Ok ((0, u'), st') ->
  uc_cmd_num u' = 1 /\
  st_log st' = EvCopyFromUser 1 :: st_log st /\
  exists c', st_ctxs st' !! uc_id u = Some c' /\ ctx_cmd_num c' = 1.
Proof.
  unfold rve_job_config_by_user_ctx, rve_internal_ctx_lookup.
  unfold bind at 1.
  destruct (st_ctxs st !! uc_id u) as [c|] eqn:Hc; [|discriminate].
  destruct (ctx_is_running c); [discriminate|].
  destruct (kmalloc_regcmd env) as [regcmd|]; [|discriminate].
  unfold bind at 1. unfold kmalloc_done at 1.
  unfold bind at 1. unfold emit at 1.
  destruct (copy_from_user_ok env).
  - intros H. bind_inv H. injection H as <- <-.
    apply modify_ctx_inv in Hm as (c0 & Hc0 & ->). simpl.
    split; [reflexivity|]. split; [reflexivity|].
    rewrite lookup_insert_eq. eexists. split; reflexivity.
  - unfold bind, kfree, ret. discriminate.
Qed.

(** *** Priority insertion *)

Lemma todo_bump_spec l : forall st,
  NoDup l ->
  Forall (fun x => is_Some (st_jobs st !! x)) l ->
  exists st',
    todo_bump l st = Ok (tt, st') /\
    st_sched st' = st_sched st /\
    (forall x, x ∉ l -> st_jobs st' !! x = st_jobs st !! x) /\
    (forall x j, x ∈ l -> st_jobs st !! x = Some j ->
                 st_jobs st' !! x = Some (priority_inc j)).
Proof.
  induction l as [|p l IH]; intros st Hnd Hlive.
  - exists st. simpl. repeat split; auto. intros x j Hx.
    apply elem_of_nil in Hx. contradiction.
  - apply NoDup_cons in Hnd as [Hp Hnd].
    apply Forall_cons in Hlive as [[jp Hjp] Hlive].
    cbn [todo_bump].
    rewrite (bind_Ok _ _ _ _ _ (modify_job_Ok _ _ priority_inc _ Hjp)).
    destruct (IH (with_jobs (<[p := priority_inc jp]> (st_jobs st)) st) Hnd)
      as (st' & Hrun & Hsched & Hout & Hin).
    { rewrite Forall_forall in Hlive |- *. intros x Hx. simpl.
      rewrite lookup_insert_ne by (intros ->; contradiction). auto. }
    exists st'. split; [exact Hrun|]. split; [exact Hsched|]. split.
    + intros x Hx. apply not_elem_of_cons in Hx as [Hxp Hxl].
      rewrite (Hout x Hxl). simpl. apply lookup_insert_ne. congruence.
    + intros x j Hx Hj. apply elem_of_cons in Hx as [->|Hx].
      * rewrite (Hout p Hp). simpl. rewrite lookup_insert_eq. congruence.
      * apply Hin; [exact Hx|]. simpl.
        rewrite lookup_insert_ne by (intros ->; contradiction). exact Hj.
Qed.

(** What the walk over the todo list does when [pos] is the first entry
    of strictly lower priority than the new job: the job is linked right
    behind [pos], and [pos], the job itself and every later entry have
    their priority raised. *)
Lemma todo_scan_match job jn pos after before : forall st,
  st_jobs st !! job = Some jn ->
  NoDup (job :: before ++ pos :: after) ->
  Forall (fun x => exists j, st_jobs st !! x = Some j /\
                             job_priority jn <= job_priority j) before ->
  (exists jp, st_jobs st !! pos = Some jp /\ job_priority jp < job_priority jn) ->
  Forall (fun x => is_Some (st_jobs st !! x)) after ->
  exists st',
    todo_scan job (before ++ pos :: after) st =
      Ok (Some (before ++ pos :: job :: after), st') /\
    st_sched st' = st_sched st /\
    (forall x, x ∉ pos :: job :: after -> st_jobs st' !! x = st_jobs st !! x) /\
    (forall x j, x ∈ pos :: job :: after -> st_jobs st !! x = Some j ->
                 st_jobs st' !! x = Some (priority_inc j)).
Proof.
  induction before as [|b before IH]; intros st Hjn Hnd Hbefore Hpos Hafter.
  - destruct Hpos as (jp & Hjp & Hlt). cbn [app todo_scan].
    rewrite (bind_Ok _ _ _ _ _ (get_job_Ok _ _ _ Hjn)).
    rewrite (bind_Ok _ _ _ _ _ (get_job_Ok _ _ _ Hjp)).
    destruct (job_priority jn >? job_priority jp) eqn:Hgt; [|lia].
    destruct (todo_bump_spec (pos :: job :: after) st)
      as (st' & Hrun & Hsched & Hout & Hin).
    { simpl in Hnd. apply NoDup_cons in Hnd as [Hj Hnd].
      apply NoDup_cons in Hnd as [Hp Hnd].
      apply not_elem_of_cons in Hj as [Hjp' Hja].
      apply NoDup_cons. split.
      - intros Hx. apply elem_of_cons in Hx as [->|Hx]; [congruence|contradiction].
      - apply NoDup_cons. split; assumption. }
    { repeat apply Forall_cons; eauto. }
    rewrite (bind_Ok _ _ _ _ _ Hrun).
    exists st'. repeat split; assumption.
  - apply Forall_cons in Hbefore as [(jb & Hjb & Hle) Hbefore].
    cbn [app todo_scan].
    rewrite (bind_Ok _ _ _ _ _ (get_job_Ok _ _ _ Hjn)).
    rewrite (bind_Ok _ _ _ _ _ (get_job_Ok _ _ _ Hjb)).
    destruct (job_priority jn >? job_priority jb) eqn:Hgt; [lia|].
    destruct (IH st Hjn) as (st' & Hrun & Hrest); try assumption.
    { simpl in Hnd. apply NoDup_cons in Hnd as [Hj Hnd].
      apply NoDup_cons in Hnd as [Hb Hnd].
      apply not_elem_of_cons in Hj as [_ Hj].
      apply NoDup_cons. split; assumption. }
    rewrite (bind_Ok _ _ _ _ _ Hrun).
    exists st'. split; [reflexivity|exact Hrest].
Qed.

(** A job of default priority, or one that meets an empty queue, goes to
    the tail and no priority changes. *)
Lemma schedule_locked_appends st job j :
  st_jobs st !! job = Some j ->
  todo_list (st_sched st) = [] \/
    job_priority j = RVE_SCHED_PRIORITY_DEFAULT ->
  schedule_locked job st =
    Ok (tt, with_sched (mk_sched (todo_list (st_sched st) ++ [job])
                          (running_job (st_sched st))
                          (int_wrap (job_count (st_sched st) + 1))) st).
Proof.
  intros Hj Hcase. unfold schedule_locked.
  unfold bind at 1. unfold get_sched at 1.
  rewrite (bind_Ok _ _ _ _ _ (get_job_Ok _ _ _ Hj)).
  destruct (todo_list (st_sched st)) as [|x l] eqn:Htodo; [reflexivity|].
  destruct Hcase as [Hnil|Hdef]; [discriminate|].
  rewrite Hdef, Z.eqb_refl. reflexivity.
Qed.

(** A job of another priority goes right behind the first queued entry of
    strictly lower priority; that entry, the job and all later entries are
    raised. *)
Lemma schedule_locked_links_behind st job jn pos after before :
  todo_list (st_sched st) = before ++ pos :: after ->
  st_jobs st !! job = Some jn ->
  job_priority jn <> RVE_SCHED_PRIORITY_DEFAULT ->
  NoDup (job :: before ++ pos :: after) ->
  Forall (fun x => exists j, st_jobs st !! x = Some j /\
                             job_priority jn <= job_priority j) before ->
  (exists jp, st_jobs st !! pos = Some jp /\ job_priority jp < job_priority jn) ->
  Forall (fun x => is_Some (st_jobs st !! x)) after ->
  exists st',
    schedule_locked job st = Ok (tt, st') /\
    todo_list (st_sched st') = before ++ pos :: job :: after /\
    running_job (st_sched st') = running_job (st_sched st) /\
    (forall x, x ∉ pos :: job :: after -> st_jobs st' !! x = st_jobs st !! x) /\
    (forall x j, x ∈ pos :: job :: after -> st_jobs st !! x = Some j ->
                 st_jobs st' !! x = Some (priority_inc j)).
Proof.
  intros Htodo Hjn Hdef Hnd Hbefore Hpos Hafter.
  destruct (todo_scan_match job jn pos after before st Hjn Hnd Hbefore Hpos
              Hafter) as (st1 & Hscan & Hsched & Hout & Hin).
  unfold schedule_locked.
  unfold bind at 1. unfold get_sched at 1.
  rewrite (bind_Ok _ _ _ _ _ (get_job_Ok _ _ _ Hjn)).
  rewrite Htodo.
  destruct (before ++ pos :: after) as [|x l] eqn:Hl.
  { destruct before; discriminate. }
  destruct (job_priority jn =? RVE_SCHED_PRIORITY_DEFAULT) eqn:Heq; [lia|].
  rewrite bind_assoc. rewrite (bind_Ok _ _ _ _ _ Hscan).
  eexists. split; [reflexivity|]. simpl.
  repeat split; assumption.
Qed.

(** The priority a job inherits from its context at allocation is clamped
    to RVE_SCHED_PRIORITY_MAX, and is 0 for a context priority that is not
    positive. *)
Lemma rve_job_alloc_priority ctx st job st' :
  rve_job_alloc ctx st = Ok (Some job, st') ->
  exists c j,
    st_ctxs st !! ctx = Some c /\
    st_jobs st' !! job = Some j /\
    job_priority j =
      (if ctx_priority c >? 0
       then Z.min (ctx_priority c) RVE_SCHED_PRIORITY_MAX else 0).
Proof.
  unfold rve_job_alloc, bind, get_zeroed_page.
  destruct (st_pages st) as [|p rest]; [discriminate|].
  unfold ktime_get, get_ctx. simpl.
  destruct (st_ctxs st !! ctx) as [c|] eqn:Hc; [|discriminate].
  unfold put_job, ret. intros [= <- <-]. simpl.
  exists c. eexists. split; [reflexivity|].
  split; [apply lookup_insert_eq|]. simpl.
  destruct (ctx_priority c >? 0); [|reflexivity].
  rewrite Z.gtb_ltb.
  destruct (RVE_SCHED_PRIORITY_MAX <? ctx_priority c) eqn:Hgt.
  - apply Z.ltb_lt in Hgt. symmetry. apply Z.min_r. lia.
  - apply Z.ltb_ge in Hgt. symmetry. apply Z.min_l. lia.
Qed.

(** *** The operations of the driver are runs

    Each operation of rve_job.c that touches the scheduler goes through
    its locked regions one after the other, with only unlocked work in
    between; its executions, and those of any number of callers
    interleaved at the lock, are runs in the sense of [rve_run]. *)

Lemma run_to_refl st : run_to st [] st.
Proof. split; [apply run_nil|reflexivity]. Qed.

Lemma run_to_step st st' : rve_step st st' -> run_to st [st'] st'.
Proof.
  intros H. split; [|reflexivity].
  apply run_cons; [exact H|apply run_nil].
Qed.

Lemma run_to_trans l1 : forall a b l2 c,
  run_to a l1 b -> run_to b l2 c -> run_to a (l1 ++ l2) c.
Proof.
  induction l1 as [|x l1 IH]; intros a b l2 c [Hrun Hlast] Hbc.
  - simpl in Hlast. injection Hlast as ->. exact Hbc.
  - inversion Hrun as [|? ? ? Hstep Hrest]; subst.
    destruct (IH x b l2 c) as [Hrun' Hlast'].
    + split; [exact Hrest|]. exact Hlast.
    + exact Hbc.
    + split.
      * simpl. apply run_cons; assumption.
      * exact Hlast'.
Qed.

Lemma as_run_bind {A B} (m : M A) (k : A -> M B) :
  as_run m -> (forall a, as_run (k a)) -> as_run (bind m k).
Proof.
  intros Hm Hk st b st' H. bind_inv H.
  destruct (Hm _ _ _ Hm0) as (l1 & H1).
  destruct (Hk _ _ _ _ H) as (l2 & H2).
  exists (l1 ++ l2). eapply run_to_trans; eassumption.
Qed.

Lemma as_run_unlocked {A} (m : M A) : keeps_sched m -> as_run m.
Proof.
  intros Hm st a st' H. exists [st']. apply run_to_step.
  apply step_unlocked. eapply Hm. exact H.
Qed.

Lemma as_run_region {A} (m : M A) (r : locked_region) :
  (forall st a st', m st = Ok (a, st') -> run_region r st = Ok (tt, st')) ->
  as_run m.
Proof.
  intros Hm st a st' H. exists [st']. apply run_to_step.
  apply (step_locked r). eapply Hm. exact H.
Qed.

Lemma as_run_next_job_locked : as_run next_job_locked.
Proof.
  apply (as_run_region _ RegionNext). intros st a st' H. simpl.
  rewrite (bind_Ok _ _ _ _ _ H). reflexivity.
Qed.

Lemma as_run_clear_running_locked : as_run clear_running_locked.
Proof.
  apply (as_run_region _ RegionNextFailed). intros st [] st' H. exact H.
Qed.

Lemma as_run_job_done_locked : as_run job_done_locked.
Proof.
  apply (as_run_region _ RegionDone). intros st a st' H. simpl.
  rewrite (bind_Ok _ _ _ _ _ H). reflexivity.
Qed.

Lemma as_run_timeout_clean_locked now : as_run (timeout_clean_locked now).
Proof.
  apply (as_run_region _ (RegionTimeoutClean now)). intros st a st' H. simpl.
  rewrite (bind_Ok _ _ _ _ _ H). reflexivity.
Qed.

Lemma as_run_schedule_locked job : as_run (schedule_locked job).
Proof.
  apply (as_run_region _ (RegionSchedule job)). intros st [] st' H. exact H.
Qed.

Lemma as_run_abort_locked job : as_run (abort_locked job).
Proof.
  apply (as_run_region _ (RegionAbort job)). intros st [] st' H. exact H.
Qed.

Lemma as_run_cancel_locked ctx : as_run (cancel_locked ctx).
Proof.
  apply (as_run_region _ (RegionCancel ctx)). intros st a st' H. simpl.
  rewrite (bind_Ok _ _ _ _ _ H). reflexivity.
Qed.

Lemma keeps_sched_put_ctx p c : keeps_sched (put_ctx p c).
Proof. intros st a st' [= _ <-]. reflexivity. Qed.

Lemma keeps_sched_del_job p : keeps_sched (del_job p).
Proof. intros st a st' [= _ <-]. reflexivity. Qed.

Lemma keeps_sched_emit e : keeps_sched (emit e).
Proof. intros st a st' [= _ <-]. reflexivity. Qed.

Lemma keeps_sched_ktime_get : keeps_sched ktime_get.
Proof. intros st a st' [= _ <-]. reflexivity. Qed.

Lemma keeps_sched_get_zeroed_page : keeps_sched get_zeroed_page.
Proof.
  intros st a st'. unfold get_zeroed_page.
  destruct (st_pages st); intros [= _ <-]; reflexivity.
Qed.

Lemma keeps_sched_fault {A} : keeps_sched (@fault A).
Proof. intros st a st' H. discriminate. Qed.

Lemma keeps_sched_out_of_fuel {A} : keeps_sched (@out_of_fuel A).
Proof. intros st a st' H. discriminate. Qed.

Lemma keeps_sched_ctx_lookup id : keeps_sched (rve_internal_ctx_lookup id).
Proof. intros st a st' [= _ <-]. reflexivity. Qed.

Lemma keeps_sched_ctx_free ctx : keeps_sched (rve_internal_ctx_free_remove_idr ctx).
Proof. intros st a st' [= _ <-]. reflexivity. Qed.

Lemma keeps_sched_access_regcmd a : keeps_sched (access_regcmd a).
Proof.
  intros st a' st'. unfold access_regcmd.
  destruct (bool_decide _); [|discriminate]. intros [= _ <-]. reflexivity.
Qed.

Lemma keeps_sched_kfree a : keeps_sched (kfree a).
Proof. intros st a' st' [= _ <-]. reflexivity. Qed.

Lemma keeps_sched_kmalloc_done a : keeps_sched (kmalloc_done a).
Proof. intros st a' st' [= _ <-]. reflexivity. Qed.

Create HintDb runs.
#[local] Hint Resolve as_run_next_job_locked as_run_clear_running_locked
  as_run_job_done_locked as_run_timeout_clean_locked as_run_schedule_locked
  as_run_abort_locked as_run_cancel_locked : runs.
#[local] Hint Resolve keeps_sched_ret keeps_sched_get_job keeps_sched_get_ctx
  keeps_sched_put_job keeps_sched_modify_job keeps_sched_put_ctx
  keeps_sched_del_job keeps_sched_emit keeps_sched_ktime_get
  keeps_sched_get_zeroed_page keeps_sched_fault keeps_sched_out_of_fuel
  keeps_sched_ctx_lookup keeps_sched_ctx_free keeps_sched_access_regcmd
  keeps_sched_kfree keeps_sched_kmalloc_done : runs.

(** Walks down a monadic term; the leaves are locked regions or unlocked
    primitives. *)
Ltac runs :=
  repeat first
    [ assumption
    | solve [auto with runs]
    | solve [apply as_run_unlocked; auto with runs]
    | apply as_run_bind; [|intros ?]
    | match goal with
      | |- as_run (if ?b then _ else _) => destruct b
      | |- as_run (match ?x with _ => _ end) => destruct x
      end ].

Lemma as_run_modify_ctx p f : as_run (modify_ctx p f).
Proof. unfold modify_ctx. runs. Qed.
#[local] Hint Resolve as_run_modify_ctx : runs.

Lemma as_run_rve_job_cleanup job : as_run (rve_job_cleanup job).
Proof. unfold rve_job_cleanup, rve_job_free. runs. Qed.
#[local] Hint Resolve as_run_rve_job_cleanup : runs.

Lemma as_run_signal job : as_run (rve_internal_ctx_signal job).
Proof. unfold rve_internal_ctx_signal. runs. Qed.
#[local] Hint Resolve as_run_signal : runs.

Lemma as_run_rve_job_run job : as_run (rve_job_run job).
Proof. unfold rve_job_run, rve_power_disable. runs. Qed.
#[local] Hint Resolve as_run_rve_job_run : runs.

Lemma as_run_next_loop fuel : as_run (rve_job_next_loop fuel).
Proof. induction fuel as [|fuel IH]; simpl; runs. Qed.

Lemma as_run_rve_job_next : as_run rve_job_next.
Proof.
  intros st a st' H. unfold rve_job_next in H.
  eapply as_run_next_loop. exact H.
Qed.
#[local] Hint Resolve as_run_rve_job_next : runs.

Lemma as_run_finish_and_next job r : as_run (rve_job_finish_and_next job r).
Proof. unfold rve_job_finish_and_next, rve_power_disable. runs. Qed.
#[local] Hint Resolve as_run_finish_and_next : runs.

Lemma as_run_rve_job_done r : as_run (rve_job_done r).
Proof. unfold rve_job_done. runs. Qed.

Lemma as_run_timeout_clean : as_run rve_job_timeout_clean.
Proof. unfold rve_job_timeout_clean, rve_power_disable. runs. Qed.
#[local] Hint Resolve as_run_timeout_clean : runs.

Lemma as_run_rve_job_schedule job : as_run (rve_job_schedule job).
Proof. unfold rve_job_schedule. runs. Qed.
#[local] Hint Resolve as_run_rve_job_schedule : runs.

Lemma as_run_running_job_abort job : as_run (rve_running_job_abort job).
Proof. unfold rve_running_job_abort. runs. Qed.

Lemma as_run_kref_release ctx : as_run (rve_internal_ctx_kref_release ctx).
Proof. unfold rve_internal_ctx_kref_release. runs. Qed.

Lemma as_run_rve_job_commit env ctx :
  as_run (wait_activity env) -> as_run (rve_job_commit env ctx).
Proof.
  intros Henv.
  unfold rve_job_commit, rve_job_alloc, rve_job_free, rve_invalid_job_abort,
    rve_running_job_abort, rve_job_wait.
  runs.
Qed.

(** *** The context registry *)

Lemma with_same st :
  mk_state (st_sched st) (st_jobs st) (st_ctxs st) (st_ctx_count st)
           (st_pages st) (st_clock st) (st_log st) (st_regcmds st) = st.
Proof. destruct st. reflexivity. Qed.

(** Release of a context that is not running, or has finished all its
    batches: only the registry changes. *)
Lemma kref_release_idle ctx c st :
  st_ctxs st !! ctx = Some c ->
  ctx_is_running c = false \/ ctx_cmd_num c <= ctx_finished_job_count c ->
  rve_internal_ctx_kref_release ctx st =
    Ok (tt, with_ctx_count (int_wrap (st_ctx_count st - 1))
              (with_ctxs (delete ctx (st_ctxs st)) st)).
Proof.
  intros Hc Hidle. unfold rve_internal_ctx_kref_release.
  unfold bind at 1. unfold ktime_get at 1.
  rewrite (bind_Ok _ _ _ _ _ (get_ctx_Ok _ _ _ Hc)).
  assert (Hskip : negb (ctx_is_running c)
                  || (ctx_finished_job_count c >=? ctx_cmd_num c) = true).
  { destruct Hidle as [->|Hle]; [reflexivity|].
    apply orb_true_iff. right. lia. }
  rewrite Hskip. reflexivity.
Qed.

(** X1.  A handle that the registry does not hold is refused by Configure,
    Commit and Cancel alike: each returns -EINVAL and leaves the driver
    state as it was. *)
Theorem unknown_handle_is_refused st id :
  st_ctxs st !! id = None ->
  (forall env u, uc_id u = id ->
     rve_job_config_by_user_ctx env u st = Ok ((- EINVAL, u), st)) /\
  (forall envs ok u, uc_id u = id ->
     rve_job_commit_by_user_ctx envs ok u st = Ok ((- EINVAL, u), st)) /\
  rve_job_cancel_by_user_ctx id st = Ok (- EINVAL, st).
Proof.
  intros Hnone. split; [|split].
  - intros env u Hu. unfold rve_job_config_by_user_ctx.
    rewrite (bind_Ok _ _ _ _ _ (rve_internal_ctx_lookup_Ok _ _)).
    rewrite Hu, Hnone. reflexivity.
  - intros envs ok u Hu. unfold rve_job_commit_by_user_ctx.
    rewrite (bind_Ok _ _ _ _ _ (rve_internal_ctx_lookup_Ok _ _)).
    rewrite Hu, Hnone. reflexivity.
  - unfold rve_job_cancel_by_user_ctx.
    rewrite (bind_Ok _ _ _ _ _ (rve_internal_ctx_lookup_Ok _ _)).
    rewrite Hnone. reflexivity.
Qed.

(** X2.  Cancel of a context that holds the only reference and is not
    running (or has finished every batch) returns 0 and removes it from
    the registry; the scheduler, the jobs and the hardware are not
    touched, and the handle is unknown afterwards. *)
Theorem cancel_idle_context st id c :
  st_ctxs st !! id = Some c ->
  ctx_refcount c = 1 ->
  ctx_is_running c = false \/ ctx_cmd_num c <= ctx_finished_job_count c ->
  exists st',
    rve_job_cancel_by_user_ctx id st = Ok (0, st') /\
    st_ctxs st' = delete id (st_ctxs st) /\
    st_ctx_count st' = int_wrap (st_ctx_count st - 1) /\
    st_sched st' = st_sched st /\ st_jobs st' = st_jobs st /\
    st_log st' = st_log st /\
    rve_job_cancel_by_user_ctx id st' = Ok (- EINVAL, st').
Proof.
  intros Hc Href Hidle. unfold rve_job_cancel_by_user_ctx at 1.
  rewrite (bind_Ok _ _ _ _ _ (rve_internal_ctx_lookup_Ok _ _)). rewrite Hc.
  unfold kref_put. rewrite bind_assoc.
  rewrite (bind_Ok _ _ _ _ _ (get_ctx_Ok _ _ _ Hc)). rewrite Href.
  change (1 - 1 =? 0) with true. cbv iota.
  rewrite bind_assoc. unfold bind at 1. unfold put_ctx at 1.
  erewrite bind_Ok.
  2: { apply (kref_release_idle id (set_ctx_refcount (1 - 1) c)).
       - simpl. apply lookup_insert_eq.
       - exact Hidle. }
  eexists. split; [reflexivity|]. simpl.
  rewrite delete_insert_eq.
  repeat split.
  unfold rve_job_cancel_by_user_ctx.
  rewrite (bind_Ok _ _ _ _ _ (rve_internal_ctx_lookup_Ok _ _)). simpl.
  rewrite lookup_delete_eq. reflexivity.
Qed.

(** X3.  A context that has just been allocated can be cancelled again,
    and the two calls together leave the driver state exactly as it was:
    the registry holds the same contexts and counts the same number. *)
Theorem ctx_alloc_cancel_round_trip env st :
  kzalloc_ctx_ok env = true ->
  ctx_manager_present env = true ->
  0 < idr_alloc_id env ->
  st_ctxs st !! idr_alloc_id env = None ->
  - 2 ^ 31 <= st_ctx_count st < INT_MAX ->
  (let* id := rve_internal_ctx_alloc_to_get_idr_id env in
   rve_job_cancel_by_user_ctx id) st = Ok (0, st).
Proof.
  intros Hk Hm Hid Hfresh Hcount.
  unfold rve_internal_ctx_alloc_to_get_idr_id. rewrite Hk, Hm. simpl.
  unfold bind at 1.
  destruct (idr_alloc_id env <? 0) eqn:Hneg; [lia|].
  set (id := idr_alloc_id env) in *.
  unfold rve_job_cancel_by_user_ctx.
  rewrite (bind_Ok _ _ _ _ _ (rve_internal_ctx_lookup_Ok _ _)). simpl.
  rewrite lookup_insert_eq.
  unfold kref_put. rewrite bind_assoc.
  erewrite bind_Ok by (apply get_ctx_Ok; simpl; apply lookup_insert_eq).
  change (ctx_refcount (zeroed_ctx id) - 1 =? 0) with true. cbv iota.
  rewrite bind_assoc. unfold bind at 1. unfold put_ctx at 1.
  erewrite bind_Ok.
  2: { apply (kref_release_idle id (set_ctx_refcount (1 - 1) (zeroed_ctx id))).
       - simpl. apply lookup_insert_eq.
       - left. reflexivity. }
  unfold ret. f_equal. f_equal. unfold with_ctx_count, with_ctxs. simpl.
  rewrite !delete_insert_eq, delete_id by exact Hfresh.
  rewrite (int_wrap_id (st_ctx_count st + 1)) by (unfold INT_MAX in *; lia).
  replace (st_ctx_count st + 1 - 1) with (st_ctx_count st) by lia.
  rewrite int_wrap_id by (unfold INT_MAX in *; lia).
  apply with_same.
Qed.

(** *** Configure and Commit at their edges *)

(** X4.  Configure is all or nothing.  It returns 0 exactly when the
    context exists, is not running, the command buffer could be allocated
    and copied in; the context then holds the caller's mode, priority and
    input fence, the new buffer and one batch, with its counters, its
    reference count and its output fence as before.  Otherwise it returns
    -EINVAL, -EFAULT or -ENOMEM and no context has changed.  Scheduler and
    jobs are never touched. *)
Theorem config_all_or_nothing env u st :
  exists r u' st',
    rve_job_config_by_user_ctx env u st = Ok ((r, u'), st') /\
    st_sched st' = st_sched st /\ st_jobs st' = st_jobs st /\
    ((r = 0 /\
      exists c regcmd,
        st_ctxs st !! uc_id u = Some c /\ ctx_is_running c = false /\
        kmalloc_regcmd env = Some regcmd /\ copy_from_user_ok env = true /\
        st_ctxs st' =
          <[uc_id u :=
              mk_ctx (ctx_id c) (ctx_refcount c) (uc_sync_mode u) 1
                     (ctx_finished_job_count c) (ctx_running_job_count c)
                     false (uc_priority u) regcmd (uc_in_fence_fd u)
                     (ctx_out_fence c) (ctx_out_fence_fd c)]> (st_ctxs st))
     \/
     ((r = - EINVAL \/ r = - EFAULT \/ r = - ENOMEM) /\
      st_ctxs st' = st_ctxs st /\
      (st_ctxs st !! uc_id u = None \/
       (exists c, st_ctxs st !! uc_id u = Some c /\ ctx_is_running c = true) \/
       kmalloc_regcmd env = None \/ copy_from_user_ok env = false))).
Proof.
  unfold rve_job_config_by_user_ctx.
  rewrite (bind_Ok _ _ _ _ _ (rve_internal_ctx_lookup_Ok _ _)).
  destruct (st_ctxs st !! uc_id u) as [c|] eqn:Hc.
  2: { eexists _, _, _. split; [reflexivity|]. repeat split.
       right. split; [left; reflexivity|]. split; [reflexivity|]. left.
       reflexivity. }
  destruct (ctx_is_running c) eqn:Hrun.
  { eexists _, _, _. split; [reflexivity|]. repeat split.
    right. split; [right; left; reflexivity|]. split; [reflexivity|].
    right. left. eauto. }
  destruct (kmalloc_regcmd env) as [regcmd|] eqn:Hk.
  2: { eexists _, _, _. split; [reflexivity|]. repeat split.
       right. split; [right; right; reflexivity|]. split; [reflexivity|].
       right. right. left. reflexivity. }
  unfold bind at 1. unfold kmalloc_done at 1.
  unfold bind at 1. unfold emit at 1.
  destruct (copy_from_user_ok env) eqn:Hcopy.
  - erewrite bind_Ok by (apply modify_ctx_Ok; simpl; exact Hc).
    eexists _, _, _. split; [reflexivity|]. simpl. repeat split.
    left. split; [reflexivity|]. exists c, regcmd.
    split; [reflexivity|]. split; [exact Hrun|].
    split; [reflexivity|]. split; [reflexivity|].
    unfold ctx_configure. simpl. rewrite Hrun. reflexivity.
  - eexists _, _, _. split; [reflexivity|]. simpl. repeat split.
    right. split; [right; left; reflexivity|]. split; [reflexivity|].
    right. right. right. reflexivity.
Qed.

(** X5.  Commit on a context that holds no batch (one that was never
    configured) enqueues nothing and returns 0, yet leaves the context
    marked running.  As no job exists that could finish, every later
    Configure of the context is refused with -EFAULT. *)
Theorem commit_without_batches envs ok u st c :
  st_ctxs st !! uc_id u = Some c ->
  ctx_is_running c = false ->
  ctx_cmd_num c <= 0 ->
  exists st',
    rve_job_commit_by_user_ctx envs ok u st =
      Ok ((if ok then 0 else - EFAULT,
           set_uc_out_fence_fd (ctx_out_fence_fd c) u), st') /\
    st_sched st' = st_sched st /\ st_jobs st' = st_jobs st /\
    st_pages st' = st_pages st /\
    st_ctxs st' = <[uc_id u := ctx_reset c]> (st_ctxs st) /\
    forall env u', uc_id u' = uc_id u ->
      rve_job_config_by_user_ctx env u' st' = Ok ((- EFAULT, u'), st').
Proof.
  intros Hc Hrun Hn. unfold rve_job_commit_by_user_ctx.
  rewrite (bind_Ok _ _ _ _ _ (rve_internal_ctx_lookup_Ok _ _)).
  rewrite Hc, Hrun. unfold bind at 1. unfold put_ctx at 1.
  set (st1 := with_ctxs _ st).
  assert (Hc1 : st_ctxs st1 !! uc_id u = Some (ctx_reset c))
    by apply lookup_insert_eq.
  assert (Hloop : commit_loop (Z.to_nat (ctx_cmd_num c)) envs (uc_id u) 0 0 st1
                  = Ok (Some 0, st1)).
  { destruct (Z.to_nat (ctx_cmd_num c)); cbn [commit_loop];
      rewrite (bind_Ok _ _ _ _ _ (get_ctx_Ok _ _ _ Hc1));
      change (ctx_cmd_num (ctx_reset c)) with (ctx_cmd_num c);
      (destruct (0 <? ctx_cmd_num c) eqn:Hlt; [lia|reflexivity]). }
  rewrite (bind_Ok _ _ _ _ _ Hloop).
  rewrite (bind_Ok _ _ _ _ _ (get_ctx_Ok _ _ _ Hc1)).
  unfold bind at 1. unfold emit at 1.
  eexists. split; [destruct ok; reflexivity|]. simpl.
  repeat split.
  intros env u' Hu'. unfold rve_job_config_by_user_ctx.
  rewrite (bind_Ok _ _ _ _ _ (rve_internal_ctx_lookup_Ok _ _)). simpl.
  rewrite Hu', lookup_insert_eq. reflexivity.
Qed.

(** X6.  When no page is left for the job of the first batch, Commit
    returns -EFAULT and enqueues nothing; the scheduler and the jobs are
    as before, and the context is left marked running. *)
Theorem commit_allocation_failure envs ok u st c :
  st_ctxs st !! uc_id u = Some c ->
  ctx_is_running c = false ->
  0 < ctx_cmd_num c ->
  st_pages st = [] ->
  exists st',
    rve_job_commit_by_user_ctx envs ok u st = Ok ((- EFAULT, u), st') /\
    st_sched st' = st_sched st /\ st_jobs st' = st_jobs st /\
    st_log st' = st_log st /\
    st_ctxs st' =
      <[uc_id u := set_ctx_sync_mode RVE_SYNC (ctx_reset c)]> (st_ctxs st).
Proof.
  intros Hc Hrun Hn Hpages. unfold rve_job_commit_by_user_ctx.
  rewrite (bind_Ok _ _ _ _ _ (rve_internal_ctx_lookup_Ok _ _)).
  rewrite Hc, Hrun. unfold bind at 1. unfold put_ctx at 1.
  set (st1 := with_ctxs _ st).
  assert (Hc1 : st_ctxs st1 !! uc_id u = Some (ctx_reset c))
    by apply lookup_insert_eq.
  destruct (Z.to_nat (ctx_cmd_num c)) as [|k] eqn:Hk; [lia|].
  cbn [commit_loop]. rewrite bind_assoc.
  rewrite (bind_Ok _ _ _ _ _ (get_ctx_Ok _ _ _ Hc1)).
  change (ctx_cmd_num (ctx_reset c)) with (ctx_cmd_num c).
  destruct (0 <? ctx_cmd_num c) eqn:Hlt; [|lia].
  rewrite bind_assoc. unfold rve_job_commit. rewrite bind_assoc.
  rewrite (bind_Ok _ _ _ _ _ (modify_ctx_Ok _ _ _ _ Hc1)).
  rewrite bind_assoc. unfold rve_job_alloc. rewrite bind_assoc.
  unfold bind at 1. unfold get_zeroed_page at 1. simpl st_pages.
  rewrite Hpages. unfold ret at 1. unfold bind at 1. unfold ret at 1.
  change (- ENOMEM <? 0) with true. cbv iota.
  unfold bind at 1. unfold ret at 1.
  eexists. split; [reflexivity|]. simpl.
  rewrite insert_insert_eq. repeat split.
Qed.

(** *** The ioctl layer and the interrupt thread *)

(** X7.  rve_ioctl_cmd_start does not look at what the allocation
    returned.  When the allocation fails (no memory, no context manager,
    or no id from the idr) the ioctl still returns 0, and the negative
    error code reaches the caller as the context id.  Configure through
    the ioctl refuses such an id with -EINVAL before looking it up. *)
Theorem ioctl_start_hides_allocation_failure env st :
  kzalloc_ctx_ok env = false \/ ctx_manager_present env = false \/
    idr_alloc_id env < 0 ->
  exists id st',
    rve_ioctl_cmd_start env true st = Ok ((0, Some id), st') /\
    id < 0 /\
    st_ctxs st' = st_ctxs st /\
    forall cenv u, uc_id u = id ->
      rve_ioctl_cmd_config true cenv u st' = Ok (- EINVAL, st').
Proof.
  intros Hfail.
  assert (Hreject : forall id st', id < 0 -> forall cenv u, uc_id u = id ->
            rve_ioctl_cmd_config true cenv u st' = Ok (- EINVAL, st')).
  { intros id st' Hid cenv u Hu. unfold rve_ioctl_cmd_config. simpl.
    destruct (uc_id u <=? 0) eqn:Hle; [reflexivity|lia]. }
  unfold rve_ioctl_cmd_start, rve_internal_ctx_alloc_to_get_idr_id.
  destruct (kzalloc_ctx_ok env) eqn:Hk; simpl.
  2: { exists (- ENOMEM), st. split; [reflexivity|].
       split; [reflexivity|]. split; [reflexivity|].
       apply Hreject. reflexivity. }
  destruct (ctx_manager_present env) eqn:Hm; simpl.
  2: { exists (- EFAULT), st. split; [reflexivity|].
       split; [reflexivity|]. split; [reflexivity|].
       apply Hreject. reflexivity. }
  destruct Hfail as [Hf|[Hf|Hneg]]; try discriminate.
  eexists _, _. unfold bind. split; [reflexivity|].
  split; [exact Hneg|]. split.
  - simpl. destruct (idr_alloc_id env <? 0) eqn:Hlt; [reflexivity|lia].
  - apply Hreject. exact Hneg.
Qed.

(** X8.  rve_job_done takes the running job for granted: with an empty
    slot it dereferences NULL.  Its caller rve_irq_thread checks the slot
    first, so an interrupt that arrives with no job running is counted and
    dropped, and the driver state stays as it was. *)
Theorem spurious_interrupt_is_dropped s r :
  running_job (st_sched (irq_driver s)) = None ->
  rve_job_done r (irq_driver s) = Fault /\
  rve_irq_thread s =
    Ok (IRQ_HANDLED,
        mk_irq_state (irq_driver s) (int_wrap (total_int_cnt s + 1))).
Proof.
  intros Hslot. split.
  - unfold rve_job_done, job_done_locked, bind, ktime_get, get_sched, put_sched.
    simpl. rewrite Hslot. reflexivity.
  - unfold rve_irq_thread. rewrite Hslot. reflexivity.
Qed.

(** *** Enqueue in general *)

Lemma modify_job_inv st p f a st' :
  modify_job p f st = Ok (a, st') ->
  exists j, st_jobs st !! p = Some j /\
            st' = with_jobs (<[p := f j]> (st_jobs st)) st.
Proof.
  unfold modify_job. intros H. bind_inv H.
  apply get_job_inv in Hm as [-> Hj]. injection H as _ <-.
  eexists. split; [exact Hj|reflexivity].
Qed.

(** The walk over the todo list changes nothing but job records. *)
Lemma todo_bump_frame l : forall st a st',
  todo_bump l st = Ok (a, st') -> st' = with_jobs (st_jobs st') st.
Proof.
  induction l as [|p l IH]; intros st a st' H; simpl in H.
  - injection H as _ <-. destruct st. reflexivity.
  - bind_inv H. apply modify_job_inv in Hm as (j & _ & ->).
    rewrite (IH _ _ _ H) at 1. reflexivity.
Qed.

(** The walk returns for every queue of live jobs that does not hold the
    new job; it links the job once and keeps the order of the others. *)
Lemma todo_scan_total job jn l : forall st,
  st_jobs st !! job = Some jn ->
  NoDup (job :: l) ->
  Forall (fun x => is_Some (st_jobs st !! x)) l ->
  exists r st',
    todo_scan job l st = Ok (r, st') /\
    st' = with_jobs (st_jobs st') st /\
    match r with
    | None => st_jobs st' = st_jobs st
    | Some l' => l' ≡ₚ job :: l /\ sublist l l'
    end /\
    (forall x, x ∉ job :: l -> st_jobs st' !! x = st_jobs st !! x) /\
    (forall x j, st_jobs st !! x = Some j ->
       st_jobs st' !! x = Some j \/ st_jobs st' !! x = Some (priority_inc j)).
Proof.
  induction l as [|pos l IH]; intros st Hjn Hnd Hlive.
  - exists None, st. simpl. split; [reflexivity|].
    split; [destruct st; reflexivity|]. repeat split; auto.
  - apply Forall_cons in Hlive as [[jp Hjp] Hlive].
    cbn [todo_scan].
    rewrite (bind_Ok _ _ _ _ _ (get_job_Ok _ _ _ Hjn)).
    rewrite (bind_Ok _ _ _ _ _ (get_job_Ok _ _ _ Hjp)).
    assert (Hnd' : NoDup (pos :: job :: l)).
    { rewrite (perm_swap job pos l). exact Hnd. }
    destruct (job_priority jn >? job_priority jp).
    + destruct (todo_bump_spec (pos :: job :: l) st Hnd')
        as (st' & Hrun & _ & Hout & Hin).
      { repeat apply Forall_cons; eauto. }
      rewrite (bind_Ok _ _ _ _ _ Hrun).
      exists (Some (pos :: job :: l)), st'. split; [reflexivity|].
      split; [eapply todo_bump_frame; exact Hrun|].
      split; [split; [apply perm_swap|]|split].
      * apply sublist_skip, sublist_cons. reflexivity.
      * intros x Hx. apply Hout. intros Hx'. apply Hx.
        apply elem_of_cons in Hx' as [->|Hx'];
          [apply list_elem_of_further, list_elem_of_here|].
        apply elem_of_cons in Hx' as [->|Hx'];
          [apply list_elem_of_here|do 2 apply list_elem_of_further; exact Hx'].
      * intros x j Hj. destruct (decide (x ∈ pos :: job :: l)) as [Hx|Hx].
        -- right. apply Hin; assumption.
        -- left. rewrite (Hout x Hx). exact Hj.
    + apply NoDup_cons in Hnd' as [_ Hnd''].
      destruct (IH st Hjn Hnd'' Hlive) as (r & st' & Hrun & Hframe & Hr & Hout & Hin).
      rewrite (bind_Ok _ _ _ _ _ Hrun).
      exists (option_map (cons pos) r), st'. split; [reflexivity|].
      split; [exact Hframe|]. split; [|split].
      * destruct r as [l'|]; simpl; [|exact Hr].
        destruct Hr as [Hperm Hsub]. split.
        -- rewrite Hperm. apply perm_swap.
        -- apply sublist_skip. exact Hsub.
      * intros x Hx. apply Hout. intros Hx'. apply Hx.
        apply elem_of_cons in Hx' as [->|Hx'];
          [apply list_elem_of_here|do 2 apply list_elem_of_further; exact Hx'].
      * exact Hin.
Qed.

(** The locked region of rve_job_schedule, for any queue of live jobs that
    does not hold the new job. *)
Lemma schedule_locked_total job jn st :
  st_jobs st !! job = Some jn ->
  NoDup (job :: todo_list (st_sched st)) ->
  Forall (fun x => is_Some (st_jobs st !! x)) (todo_list (st_sched st)) ->
  exists todo' jobs',
    schedule_locked job st =
      Ok (tt, with_sched (mk_sched todo' (running_job (st_sched st))
                            (int_wrap (job_count (st_sched st) + 1)))
                (with_jobs jobs' st)) /\
    todo' ≡ₚ job :: todo_list (st_sched st) /\
    sublist (todo_list (st_sched st)) todo' /\
    (forall x, x ∉ job :: todo_list (st_sched st) ->
       jobs' !! x = st_jobs st !! x) /\
    (forall x j, st_jobs st !! x = Some j ->
       jobs' !! x = Some j \/ jobs' !! x = Some (priority_inc j)).
Proof.
  intros Hjn Hnd Hlive.
  assert (Htail : todo_list (st_sched st) ++ [job] ≡ₚ job :: todo_list (st_sched st)).
  { rewrite Permutation_app_comm. reflexivity. }
  assert (Hsub : sublist (todo_list (st_sched st)) (todo_list (st_sched st) ++ [job])).
  { apply sublist_inserts_r. reflexivity. }
  assert (Hsame : with_jobs (st_jobs st) st = st) by (destruct st; reflexivity).
  unfold schedule_locked. unfold bind at 1. unfold get_sched at 1.
  rewrite (bind_Ok _ _ _ _ _ (get_job_Ok _ _ _ Hjn)).
  destruct (todo_list (st_sched st)) as [|x l] eqn:Htodo.
  { exists [job], (st_jobs st). rewrite Hsame.
    split; [reflexivity|]. repeat split; auto. }
  destruct (job_priority jn =? RVE_SCHED_PRIORITY_DEFAULT).
  { exists ((x :: l) ++ [job]), (st_jobs st). rewrite Hsame.
    split; [reflexivity|]. repeat split; auto. }
  destruct (todo_scan_total job jn (x :: l) st Hjn Hnd Hlive)
    as (r & st' & Hrun & Hframe & Hr & Hout & Hin).
  rewrite bind_assoc. rewrite (bind_Ok _ _ _ _ _ Hrun).
  destruct r as [l'|].
  - destruct Hr as [Hperm Hsubl]. exists l', (st_jobs st').
    split; [rewrite Hframe at 1; reflexivity|]. repeat split; assumption.
  - exists ((x :: l) ++ [job]), (st_jobs st').
    split; [rewrite Hframe at 1; reflexivity|]. repeat split; assumption.
Qed.

(** X9.  An enqueue links the job exactly once and loses nothing: the new
    queue holds the job and the old entries and no others, each once, the
    old entries in the order they had; the counter goes up by one and the
    running slot and the contexts are left alone.  No job is created or
    freed, and each job keeps its priority or has it raised by one. *)
Theorem enqueue_links_job_once job jn st :
  st_jobs st !! job = Some jn ->
  NoDup (job :: todo_list (st_sched st)) ->
  Forall (fun x => is_Some (st_jobs st !! x)) (todo_list (st_sched st)) ->
  exists st',
    schedule_locked job st = Ok (tt, st') /\
    NoDup (todo_list (st_sched st')) /\
    (forall x, x ∈ todo_list (st_sched st') <->
               x = job \/ x ∈ todo_list (st_sched st)) /\
    sublist (todo_list (st_sched st)) (todo_list (st_sched st')) /\
    job_count (st_sched st') = int_wrap (job_count (st_sched st) + 1) /\
    running_job (st_sched st') = running_job (st_sched st) /\
    st_ctxs st' = st_ctxs st /\
    (forall x, is_Some (st_jobs st' !! x) <-> is_Some (st_jobs st !! x)) /\
    (forall x j, st_jobs st !! x = Some j ->
       exists j', st_jobs st' !! x = Some j' /\
                  job_ctx j' = job_ctx j /\
                  (job_priority j' = job_priority j \/
                   job_priority j' = int_wrap (job_priority j + 1))).
Proof.
  intros Hjn Hnd Hlive.
  destruct (schedule_locked_total job jn st Hjn Hnd Hlive)
    as (todo' & jobs' & Hrun & Hperm & Hsub & Hout & Hin).
  eexists. split; [exact Hrun|]. simpl.
  split; [rewrite Hperm; exact Hnd|].
  split; [intros x; rewrite Hperm; apply elem_of_cons|].
  split; [exact Hsub|]. split; [reflexivity|]. split; [reflexivity|].
  split; [reflexivity|]. split.
  - intros x. destruct (st_jobs st !! x) as [j|] eqn:Hj.
    + destruct (Hin x j Hj) as [->| ->]; split; eauto.
    + assert (Hx : x ∉ job :: todo_list (st_sched st)).
      { intros Hx. apply elem_of_cons in Hx as [->|Hx]; [congruence|].
        rewrite Forall_forall in Hlive. destruct (Hlive x Hx). congruence. }
      rewrite (Hout x Hx), Hj. reflexivity.
  - intros x j Hj. destruct (Hin x j Hj) as [Hx|Hx]; rewrite Hx.
    + exists j. auto.
    + exists (priority_inc j). simpl. auto.
Qed.

(** *** The queue counter *)

Lemma todo_scan_length job l : forall st r st',
  todo_scan job l st = Ok (Some r, st') -> length r = S (length l).
Proof.
  induction l as [|pos l IH]; intros st r st' H; simpl in H.
  - discriminate.
  - bind_inv H. bind_inv H. destruct (_ >? _).
    + bind_inv H. injection H as <- _. reflexivity.
    + bind_inv H. injection H as Hr _.
      destruct a1 as [l'|]; [|discriminate]. injection Hr as <-.
      simpl. f_equal. eapply IH. exact Hm1.
Qed.

Lemma cancel_todo_count id l : forall count st kept st',
  cancel_todo id l count st = Ok (kept, st') ->
  - 2 ^ 31 <= count - Z.of_nat (length l) ->
  count <= INT_MAX ->
  snd kept - Z.of_nat (length (fst kept)) = count - Z.of_nat (length l).
Proof.
  induction l as [|pos l IH]; intros count st kept st' H Hlo Hhi; simpl in H.
  - injection H as <- _. reflexivity.
  - cbn [length] in Hlo |- *. bind_inv H. bind_inv H. destruct (_ =? _).
    + assert (Hw : int_wrap (count - 1) = count - 1)
        by (apply int_wrap_id; lia).
      rewrite Hw in H. rewrite (IH _ _ _ _ H); lia.
    + bind_inv H. injection H as <- _. cbn [fst snd length].
      pose proof (IH _ _ _ _ Hm1 ltac:(lia) Hhi). lia.
Qed.

Lemma run_region_job_count r st st' :
  run_region r st = Ok (tt, st') ->
  job_count_ok st ->
  Z.of_nat (length (todo_list (st_sched st))) < INT_MAX ->
  job_count_ok st'.
Proof.
  unfold job_count_ok. destruct r; simpl; intros H Hok Hlen.
  - bind_inv H. injection H as <-.
    unfold next_job_locked, bind, get_sched in Hm.
    destruct (running_job (st_sched st)).
    { injection Hm as _ <-. exact Hok. }
    destruct (todo_list (st_sched st)) as [|job rest] eqn:Htodo.
    { injection Hm as _ <-. rewrite Htodo. exact Hok. }
    injection Hm as _ <-. simpl. cbn [length] in Hok, Hlen.
    rewrite int_wrap_id; unfold INT_MAX in *; lia.
  - unfold clear_running_locked, bind, get_sched, put_sched in H.
    injection H as <-. exact Hok.
  - bind_inv H. injection H as <-.
    unfold job_done_locked in Hm. bind_inv Hm. injection Hm0 as <- <-.
    bind_inv Hm. injection Hm0 as _ <-.
    destruct (running_job (st_sched st)); [|discriminate].
    bind_inv Hm. apply get_job_inv in Hm0 as [-> _]. injection Hm as _ <-.
    exact Hok.
  - bind_inv H. injection H as <-.
    unfold timeout_clean_locked in Hm. bind_inv Hm. injection Hm0 as <- <-.
    destruct (running_job (st_sched st)) as [x|].
    + bind_inv Hm. apply get_job_inv in Hm0 as [-> _].
      destruct (_ && _).
      * bind_inv Hm. injection Hm0 as _ <-. injection Hm as _ <-. exact Hok.
      * injection Hm as _ <-. exact Hok.
    + injection Hm as _ <-. exact Hok.
  - unfold schedule_locked in H.
    bind_inv H. injection Hm as <- <-.
    bind_inv H. apply get_job_inv in Hm as [-> _].
    bind_inv H. injection H as <-. simpl.
    match type of Hm with _ = Ok (?t, _) => rename t into todo' end.
    assert (Hlen' : length todo' = S (length (todo_list (st_sched st)))).
    { destruct (todo_list (st_sched st)) as [|x l] eqn:Htodo.
      - injection Hm as <- _. reflexivity.
      - destruct (_ =? _).
        + injection Hm as <- _. simpl. rewrite ?length_app. simpl. lia.
        + bind_inv Hm.
          match goal with
          | Hs : todo_scan _ _ _ = Ok (?r, _) |- _ =>
              destruct r as [l'|]; injection Hm as <- _;
                [eapply todo_scan_length; exact Hs
                |simpl; rewrite ?length_app; simpl; lia]
          end. }
    rewrite Hlen', int_wrap_id; unfold INT_MAX in *; lia.
  - unfold abort_locked in H. bind_inv H. injection Hm as <- <-.
    destruct (decide _); injection H as <-; exact Hok.
  - bind_inv H. injection H as <-.
    unfold cancel_locked in Hm.
    bind_inv Hm. apply get_ctx_inv in Hm0 as [-> _].
    bind_inv Hm. injection Hm0 as <- <-.
    bind_inv Hm.
    match type of Hm0 with _ = Ok (?t, _) => rename t into kept end.
    pose proof (cancel_todo_count _ _ _ _ _ _ Hm0 ltac:(lia) ltac:(lia)) as Hc.
    assert (Hk : snd kept = Z.of_nat (length (fst kept))) by lia.
    destruct (running_job (st_sched st)) as [x|].
    + bind_inv Hm. bind_inv Hm.
      destruct (_ =? _); bind_inv Hm;
        match goal with
        | Hp : put_sched _ _ = Ok _ |- _ => injection Hp as _ <-
        end; injection Hm as _ <-; exact Hk.
    + bind_inv Hm. injection Hm1 as _ <-. injection Hm as _ <-. exact Hk.
Qed.

(** X10.  The queue counter tracks the queue: along any interleaving of
    the locked regions, started where job_count is the length of the todo
    list, job_count is the length of the todo list in every state that
    follows, as long as the list stays below INT_MAX entries. *)
Theorem job_count_tracks_queue st l :
  rve_run st l ->
  job_count_ok st ->
  Forall (fun s => Z.of_nat (length (todo_list (st_sched s))) < INT_MAX)
         (st :: l) ->
  Forall job_count_ok l.
Proof.
  intros Hrun. induction Hrun as [st|st st' l Hstep Hrun IH]; intros Hok Hlen.
  - constructor.
  - apply Forall_cons in Hlen as [Hlen Hrest].
    assert (Hok' : job_count_ok st').
    { destruct Hstep as [r s s' H|s s' H].
      - eapply run_region_job_count; eassumption.
      - unfold job_count_ok in *. rewrite H. exact Hok. }
    constructor; [exact Hok'|]. apply IH; assumption.
Qed.

(** *** Well-formed scheduler states *)

(** What rve_job_next leaves behind is well formed again: the queue has
    only shrunk, the contexts are all still there, and the jobs the
    scheduler holds kept their context. *)
Lemma rve_job_next_loop_wf fuel : forall st st',
  rve_job_next_loop fuel st = Ok (tt, st') ->
  queue_wf st -> slot_wf st ->
  queue_wf st' /\ slot_wf st' /\
  (forall k, is_Some (st_ctxs st !! k) -> is_Some (st_ctxs st' !! k)) /\
  (forall x, held st' x ->
     held st x /\
     exists j j', st_jobs st !! x = Some j /\ st_jobs st' !! x = Some j' /\
                  job_ctx j' = job_ctx j).
Proof.
  induction fuel as [|fuel IH]; intros st st' H Hq Hs; [discriminate|].
  assert (Hsame : st = st' ->
    queue_wf st' /\ slot_wf st' /\
    (forall k, is_Some (st_ctxs st !! k) -> is_Some (st_ctxs st' !! k)) /\
    (forall x, held st' x ->
       held st x /\
       exists j j', st_jobs st !! x = Some j /\ st_jobs st' !! x = Some j' /\
                    job_ctx j' = job_ctx j)).
  { intros <-. split; [exact Hq|]. split; [exact Hs|]. split; [auto|].
    intros x Hx. split; [exact Hx|]. destruct Hx as [Hx|Hx].
    - destruct Hq as [_ Hlive]. rewrite Forall_forall in Hlive.
      destruct (Hlive x Hx) as (j & Hj & _). eauto.
    - destruct (Hs x Hx) as (_ & j & Hj & _). eauto. }
  destruct (running_job (st_sched st)) as [r|] eqn:Hslot.
  { cbn [rve_job_next_loop] in H.
    rewrite (bind_Ok _ _ _ _ _ (next_job_locked_idle st
               ltac:(left; congruence))) in H.
    injection H as H. exact (Hsame H). }
  destruct (todo_list (st_sched st)) as [|job rest] eqn:Htodo.
  { cbn [rve_job_next_loop] in H.
    rewrite (bind_Ok _ _ _ _ _ (next_job_locked_idle st
               ltac:(right; assumption))) in H.
    injection H as H. exact (Hsame H). }
  clear Hsame. destruct Hq as [Hnd Hlive]. rewrite Htodo in Hnd, Hlive.
  apply Forall_cons in Hlive as [(j & Hj & Hjc) Hlive].
  apply NoDup_cons in Hnd as [Hnotin Hnd].
  rewrite Forall_forall in Hlive.
  destruct (Z_lt_le_dec (run_result job) 0) as [Hneg|Hpos].
  - destruct (rve_job_next_loop_failed fuel st job j rest Hslot Htodo Hj Hneg)
      as (evs & Heq).
    rewrite Heq in H. clear Heq.
    destruct (rve_internal_ctx_signal_total
                (after_failed_start job j rest evs st) job
                (set_job_ret (run_result job) j))
      as (r & st4 & Hsig & Hsched & Hjobs & Hctxs).
    { simpl. apply lookup_insert_eq. }
    { simpl. exact Hjc. }
    rewrite (bind_Ok _ _ _ _ _ Hsig) in H.
    assert (Hjobs4 : forall x, x ∈ rest -> st_jobs st4 !! x = st_jobs st !! x).
    { intros x Hx. rewrite Hjobs by (intros ->; contradiction). simpl.
      apply lookup_insert_ne. intros ->. contradiction. }
    destruct (IH st4 st' H) as (Hq' & Hs' & Hc' & Hheld).
    + split; rewrite Hsched; simpl; [exact Hnd|].
      rewrite Forall_forall. intros x Hx.
      destruct (Hlive x Hx) as (jx & Hjx & Hcx). exists jx.
      split; [rewrite Hjobs4; assumption|apply Hctxs; simpl; exact Hcx].
    + intros x Hx. rewrite Hsched in Hx. simpl in Hx. discriminate.
    + split; [exact Hq'|]. split; [exact Hs'|]. split.
      * intros k Hk. apply Hc', Hctxs. simpl. exact Hk.
      * intros x Hx.
        destruct (Hheld x Hx) as (Hx4 & jx & jx' & Hjx & Hjx' & Hsame).
        unfold held in Hx4. rewrite Hsched in Hx4. simpl in Hx4.
        destruct Hx4 as [Hx4|Hx4]; [|discriminate].
        split.
        { left. rewrite Htodo. apply elem_of_cons. right. exact Hx4. }
        exists jx, jx'. rewrite <- (Hjobs4 x Hx4). auto.
  - cbn [rve_job_next_loop] in H.
    rewrite (bind_Ok _ _ _ _ _ (next_job_locked_pick _ _ _ Hslot Htodo)) in H.
    destruct (rve_job_run_spec job
                (with_sched (mk_sched rest (Some job)
                               (int_wrap (job_count (st_sched st) - 1))) st))
      as (evs & Hrun).
    rewrite (bind_Ok _ _ _ _ _ Hrun) in H.
    erewrite bind_Ok in H by (apply modify_job_Ok; exact Hj).
    destruct (run_result job <? 0) eqn:Hlt; [lia|]. injection H as <-.
    unfold queue_wf, slot_wf, held. simpl.
    split; [split; [exact Hnd|]|].
    { rewrite Forall_forall. intros x Hx.
      destruct (Hlive x Hx) as (jx & Hjx & Hcx). exists jx.
      split; [|exact Hcx].
      rewrite lookup_insert_ne by (intros ->; contradiction). exact Hjx. }
    split.
    { intros x [= <-]. split; [exact Hnotin|].
      exists (set_job_ret (run_result job) j).
      split; [apply lookup_insert_eq|exact Hjc]. }
    split; [auto|].
    intros x [Hx|[= <-]].
    + split; [left; rewrite Htodo; apply elem_of_cons; right; exact Hx|].
      destruct (Hlive x Hx) as (jx & Hjx & _). exists jx, jx.
      rewrite lookup_insert_ne by (intros ->; contradiction). auto.
    + split; [left; rewrite Htodo; apply elem_of_cons; left; reflexivity|].
      exists j, (set_job_ret (run_result job) j).
      rewrite lookup_insert_eq. auto.
Qed.

Lemma rve_job_finish_and_next_wf job r j st st' :
  rve_job_finish_and_next job r st = Ok (tt, st') ->
  st_jobs st !! job = Some j ->
  is_Some (st_ctxs st !! job_ctx j) ->
  job ∉ todo_list (st_sched st) ->
  running_job (st_sched st) = None ->
  queue_wf st ->
  queue_wf st' /\ slot_wf st' /\
  (forall k, is_Some (st_ctxs st !! k) -> is_Some (st_ctxs st' !! k)) /\
  (forall x, held st' x ->
     x ∈ todo_list (st_sched st) /\
     exists j j', st_jobs st !! x = Some j /\ st_jobs st' !! x = Some j' /\
                  job_ctx j' = job_ctx j).
Proof.
  intros H Hj Hc Hnotin Hr [Hnd Hlive]. unfold rve_job_finish_and_next in H.
  erewrite bind_Ok in H by reflexivity.
  rewrite (bind_Ok _ _ _ _ _ (modify_job_Ok _ _ _ _ Hj)) in H.
  destruct (rve_internal_ctx_signal_total
              (with_jobs (<[job := set_job_ret r j]> (st_jobs st)) st) job
              (set_job_ret r j))
    as (r' & st4 & Hsig & Hsched & Hjobs & Hctxs).
  { simpl. apply lookup_insert_eq. }
  { simpl. exact Hc. }
  rewrite (bind_Ok _ _ _ _ _ Hsig) in H.
  bind_inv H. unfold rve_power_disable, emit in H. injection H as <-.
  assert (Hjobs4 : forall x, x ∈ todo_list (st_sched st) ->
            st_jobs st4 !! x = st_jobs st !! x).
  { intros x Hx. rewrite Hjobs by (intros ->; contradiction). simpl.
    apply lookup_insert_ne. intros ->. contradiction. }
  rewrite Forall_forall in Hlive.
  match type of Hm with
  | _ = Ok (?u, _) => destruct u
  end.
  unfold rve_job_next in Hm.
  apply rve_job_next_loop_wf in Hm as (Hq' & Hs' & Hc' & Hheld).
  - split; [exact Hq'|]. split; [exact Hs'|]. split.
    + intros k Hk. apply Hc', Hctxs. simpl. exact Hk.
    + intros x Hx.
      destruct (Hheld x Hx) as (Hx4 & jx & jx' & Hjx & Hjx' & Hsame).
      unfold held in Hx4. rewrite Hsched in Hx4. simpl in Hx4.
      destruct Hx4 as [Hx4|Hx4]; [|congruence].
      split; [exact Hx4|]. exists jx, jx'. rewrite <- (Hjobs4 x Hx4). auto.
  - split; rewrite Hsched; simpl; [exact Hnd|].
    rewrite Forall_forall. intros x Hx.
    destruct (Hlive x Hx) as (jx & Hjx & Hcx). exists jx.
    split; [rewrite Hjobs4; assumption|apply Hctxs; simpl; exact Hcx].
  - intros x Hx. rewrite Hsched in Hx. simpl in Hx. congruence.
Qed.

(** *** No job waits while the slot is empty *)

Lemma access_regcmd_Ok a st :
  a ∈ st_regcmds st -> access_regcmd a st = Ok (tt, st).
Proof.
  intros H. unfold access_regcmd. rewrite bool_decide_eq_true_2 by exact H.
  reflexivity.
Qed.

Lemma job_done_locked_Ok st job j :
  running_job (st_sched st) = Some job ->
  st_jobs st !! job = Some j ->
  job_done_locked st =
    Ok (job, with_sched (set_running_job None (st_sched st)) st).
Proof.
  intros Hr Hj. unfold job_done_locked, bind, get_sched, put_sched, get_job.
  simpl. rewrite Hr. unfold with_sched. simpl. rewrite Hj. reflexivity.
Qed.

(** rve_job_finish_and_next returns for a live job that is not queued; it
    leaves the slot filled or the queue empty. *)
Lemma rve_job_finish_and_next_total job r j st :
  st_jobs st !! job = Some j ->
  is_Some (st_ctxs st !! job_ctx j) ->
  job ∉ todo_list (st_sched st) ->
  queue_wf st ->
  exists st',
    rve_job_finish_and_next job r st = Ok (tt, st') /\
    (running_job (st_sched st') = None -> todo_list (st_sched st') = []) /\
    (forall x, running_job (st_sched st') = Some x ->
       running_job (st_sched st) = Some x \/
       (x ∈ todo_list (st_sched st) /\ 0 <= run_result x)).
Proof.
  intros Hj Hc Hnotin [Hnd Hlive]. unfold rve_job_finish_and_next.
  erewrite bind_Ok by reflexivity.
  rewrite (bind_Ok _ _ _ _ _ (modify_job_Ok _ _ _ _ Hj)).
  destruct (rve_internal_ctx_signal_total
              (with_jobs (<[job := set_job_ret r j]> (st_jobs st)) st) job
              (set_job_ret r j))
    as (r' & st4 & Hsig & Hsched & Hjobs & Hctxs).
  { simpl. apply lookup_insert_eq. }
  { simpl. exact Hc. }
  rewrite (bind_Ok _ _ _ _ _ Hsig).
  destruct (rve_job_next_loop_total (S (length (todo_list (st_sched st4)))) st4)
    as (st5 & Hrun & Hsettled & Hfrom).
  { lia. }
  { unfold queue_wf. rewrite Hsched. simpl. split; [exact Hnd|].
    rewrite Forall_forall in Hlive |- *. intros x Hx.
    destruct (Hlive x Hx) as (jx & Hjx & Hcx). exists jx. split.
    - rewrite Hjobs by (intros ->; contradiction). simpl.
      rewrite lookup_insert_ne by (intros ->; contradiction). exact Hjx.
    - apply Hctxs. simpl. exact Hcx. }
  rewrite (bind_Ok rve_job_next _ st4 tt st5 Hrun).
  unfold rve_power_disable, emit. eexists. split; [reflexivity|]. simpl.
  rewrite Hsched in Hfrom. simpl in Hfrom. split; assumption.
Qed.

(** rve_job_timeout_clean returns whenever the running job is live; it
    leaves the queue and every job outside the slot alone. *)
Lemma rve_job_timeout_clean_total st :
  slot_wf st ->
  exists st',
    rve_job_timeout_clean st = Ok (tt, st') /\
    todo_list (st_sched st') = todo_list (st_sched st) /\
    (forall x, running_job (st_sched st) <> Some x ->
       st_jobs st' !! x = st_jobs st !! x) /\
    (forall k, is_Some (st_ctxs st !! k) -> is_Some (st_ctxs st' !! k)) /\
    slot_wf st' /\
    (forall x, running_job (st_sched st') = Some x ->
       running_job (st_sched st) = Some x).
Proof.
  intros Hslot. unfold rve_job_timeout_clean.
  erewrite bind_Ok by reflexivity.
  assert (Hcase :
    timeout_clean_locked (st_clock st) st = Ok (None, st) \/
    exists job j,
      running_job (st_sched st) = Some job /\
      st_jobs st !! job = Some j /\
      is_Some (st_ctxs st !! job_ctx j) /\
      timeout_clean_locked (st_clock st) st =
        Ok (Some job, with_sched (set_running_job None (st_sched st)) st)).
  { unfold timeout_clean_locked, bind, get_sched, get_job, put_sched, ret.
    destruct (running_job (st_sched st)) as [job|] eqn:Hr; [|left; reflexivity].
    destruct (Hslot _ Hr) as (_ & j & Hj & Hc). rewrite Hj.
    destruct (_ && _); [right|left; reflexivity].
    exists job, j. repeat split; assumption || reflexivity. }
  destruct Hcase as [H|(job & j & Hr & Hj & Hc & H)];
    rewrite (bind_Ok _ _ _ _ _ H).
  - exists st. split; [reflexivity|]. split; [reflexivity|].
    split; [auto|]. split; [auto|]. split; [exact Hslot|auto].
  - erewrite bind_Ok by reflexivity.
    match goal with
    | |- context [bind (rve_internal_ctx_signal job) _ ?s] =>
        destruct (rve_internal_ctx_signal_total s job j Hj Hc)
          as (r' & st4 & Hsig & Hsched & Hjobs & Hctxs)
    end.
    rewrite (bind_Ok _ _ _ _ _ Hsig).
    unfold rve_power_disable, emit. eexists. split; [reflexivity|]. simpl.
    unfold slot_wf. simpl. rewrite Hsched. simpl.
    split; [reflexivity|]. split; [|split; [exact Hctxs|]].
    + intros x Hx. rewrite Hjobs by congruence. reflexivity.
    + split; intros x Hx; discriminate.
Qed.

(** X11.  An enqueue leaves no job waiting for an empty slot and keeps
    the scheduler well formed: for a live job that is neither queued nor
    running, handed to rve_job_schedule in a state whose queued and
    running jobs are live, the call returns true; afterwards the running
    slot is filled or the queue is empty, and again every queued job is
    linked once and live, and the running job is live and not queued. *)
Theorem enqueue_is_work_conserving job j st :
  st_jobs st !! job = Some j ->
  job_scheduler j = true ->
  is_Some (st_ctxs st !! job_ctx j) ->
  job ∉ todo_list (st_sched st) ->
  running_job (st_sched st) <> Some job ->
  queue_wf st ->
  slot_wf st ->
  exists st',
    rve_job_schedule job st = Ok (true, st') /\
    (running_job (st_sched st') = None -> todo_list (st_sched st') = []) /\
    queue_wf st' /\ slot_wf st'.
Proof.
  intros Hj Hs Hc Hnotin Hnr [Hnd Hlive] Hslot.
  unfold rve_job_schedule.
  rewrite (bind_Ok _ _ _ _ _ (get_job_Ok _ _ _ Hj)). rewrite Hs. cbn [negb].
  destruct (rve_job_timeout_clean_total st Hslot)
    as (st1 & Hclean & Htodo1 & Hjobs1 & Hctxs1 & Hs1 & Hrun1).
  rewrite (bind_Ok _ _ _ _ _ Hclean).
  assert (Hj1 : st_jobs st1 !! job = Some j) by (rewrite Hjobs1; assumption).
  assert (Hlive1 : forall x, x ∈ job :: todo_list (st_sched st) ->
            exists jx, st_jobs st1 !! x = Some jx /\
                       is_Some (st_ctxs st1 !! job_ctx jx)).
  { intros x Hx. apply elem_of_cons in Hx as [->|Hx].
    - exists j. split; [exact Hj1|apply Hctxs1, Hc].
    - rewrite Forall_forall in Hlive.
      destruct (Hlive x Hx) as (jx & Hjx & Hcx).
      exists jx. split; [|apply Hctxs1, Hcx].
      rewrite Hjobs1; [exact Hjx|]. intros Hr.
      destruct (Hslot _ Hr) as [Hn _]. contradiction. }
  destruct (schedule_locked_total job j st1 Hj1)
    as (todo' & jobs' & Hsch & Hperm & _ & _ & Hin).
  { rewrite Htodo1. apply NoDup_cons. split; assumption. }
  { rewrite Htodo1. rewrite Forall_forall. intros x Hx.
    destruct (Hlive1 x) as (jx & Hjx & _); [|eauto].
    apply elem_of_cons. right. exact Hx. }
  rewrite (bind_Ok _ _ _ _ _ Hsch).
  match goal with
  | |- context [bind rve_job_next _ ?s] => set (st2 := s)
  end.
  assert (Hq2 : queue_wf st2).
  { split; simpl.
    - rewrite Hperm, Htodo1. apply NoDup_cons. split; assumption.
    - rewrite Forall_forall. intros x Hx. rewrite Hperm, Htodo1 in Hx.
      destruct (Hlive1 x Hx) as (jx & Hjx & Hcx).
      destruct (Hin x jx Hjx) as [Hx'|Hx']; eexists;
        (split; [exact Hx'|]); simpl; exact Hcx. }
  assert (Hs2 : slot_wf st2).
  { intros x Hx. simpl in Hx.
    destruct (Hs1 x Hx) as (Hn1 & jx & Hjx & Hcx). split.
    - simpl. rewrite Hperm. intros Hin'.
      apply elem_of_cons in Hin' as [->|Hin']; [|contradiction].
      apply Hnr, Hrun1, Hx.
    - destruct (Hin x jx Hjx) as [Hx'|Hx']; eexists;
        (split; [exact Hx'|]); simpl; exact Hcx. }
  destruct (rve_job_next_loop_total (S (length todo')) st2)
    as (st3 & Hrun & Hsettled & _); [simpl; lia|exact Hq2|].
  destruct (rve_job_next_loop_wf _ st2 st3 Hrun Hq2 Hs2) as (Hq3 & Hs3 & _).
  rewrite (bind_Ok rve_job_next _ st2 tt st3 Hrun).
  exists st3. split; [reflexivity|]. split; [exact Hsettled|].
  split; assumption.
Qed.

(** X12.  A completion interrupt hands the slot on: with a live job in the
    running slot whose command array is allocated, and a queue of live
    jobs, rve_job_done returns, the finished job is out of the slot, any
    job now in the slot came from the queue and started without error, and
    the slot is left empty only when the queue is empty too.  The
    scheduler is well formed again: every queued job is linked once and
    live, and the running job is live and not queued. *)
Theorem completion_is_work_conserving r job st :
  running_job (st_sched st) = Some job ->
  (forall j, st_jobs st !! job = Some j ->
     job_regcmd_data j ∈ st_regcmds st) ->
  slot_wf st ->
  queue_wf st ->
  exists st',
    rve_job_done r st = Ok (tt, st') /\
    running_job (st_sched st') <> Some job /\
    (forall x, running_job (st_sched st') = Some x ->
       x ∈ todo_list (st_sched st) /\ 0 <= run_result x) /\
    (running_job (st_sched st') = None -> todo_list (st_sched st') = []) /\
    queue_wf st' /\ slot_wf st'.
Proof.
  intros Hr Harray Hslot Hq.
  destruct (Hslot _ Hr) as (Hnotin & j & Hj & [c Hc]).
  unfold rve_job_done. erewrite bind_Ok by reflexivity.
  rewrite (bind_Ok _ _ _ _ _ (job_done_locked_Ok _ _ _ Hr Hj)).
  set (st1 := with_sched (set_running_job None (st_sched st)) st).
  rewrite (bind_Ok _ _ _ _ _ (get_job_Ok st1 job j Hj)).
  rewrite (bind_Ok _ _ _ _ _ (get_ctx_Ok st1 (job_ctx j) c Hc)).
  rewrite (bind_Ok _ _ _ _ _ (access_regcmd_Ok _ st1 (Harray j Hj))).
  erewrite bind_Ok by reflexivity.
  match goal with
  | |- context [rve_job_finish_and_next job r ?s] =>
      destruct (rve_job_finish_and_next_total job r j s Hj (ex_intro _ c Hc)
                  Hnotin Hq)
        as (st' & Hrun & Hsettled & Hfrom);
      destruct (rve_job_finish_and_next_wf job r j s st' Hrun Hj
                  (ex_intro _ c Hc) Hnotin eq_refl Hq)
        as (Hq' & Hs' & _)
  end.
  simpl in Hfrom. exists st'. split; [exact Hrun|].
  assert (Hcame : forall x, running_job (st_sched st') = Some x ->
            x ∈ todo_list (st_sched st) /\ 0 <= run_result x).
  { intros x Hx. destruct (Hfrom x Hx) as [Hx'|Hx']; [discriminate|exact Hx']. }
  split; [|split; [exact Hcame|split; [exact Hsettled|split; assumption]]].
  intros Hx. destruct (Hcame job Hx) as [Hin _]. contradiction.
Qed.

(** *** Default priority *)

(** The check at the start of an enqueue leaves a running job alone that
    is synchronous or has not run for the delay yet. *)
Lemma rve_job_timeout_clean_keeps st r jr :
  running_job (st_sched st) = Some r ->
  st_jobs st !! r = Some jr ->
  Z.land (job_flags jr) RVE_ASYNC = 0 \/
    ktime_to_ms (st_clock st - job_hw_running_time jr) < RVE_ASYNC_TIMEOUT_DELAY ->
  rve_job_timeout_clean st = Ok (tt, st).
Proof.
  intros Hr Hj Hc. unfold rve_job_timeout_clean.
  erewrite bind_Ok by reflexivity.
  assert (H : timeout_clean_locked (st_clock st) st = Ok (None, st)).
  { unfold timeout_clean_locked, bind, get_sched, get_job, put_sched, ret.
    rewrite Hr, Hj. destruct Hc as [Hc|Hc].
    - rewrite Hc. reflexivity.
    - destruct (_ >=? _) eqn:E; [lia|]. rewrite andb_false_r. reflexivity. }
  rewrite (bind_Ok _ _ _ _ _ H). reflexivity.
Qed.

Lemma rve_job_next_busy st :
  running_job (st_sched st) <> None -> rve_job_next st = Ok (tt, st).
Proof.
  intros H. unfold rve_job_next. cbn [rve_job_next_loop].
  rewrite (bind_Ok _ _ _ _ _ (next_job_locked_idle st (or_introl H))).
  reflexivity.
Qed.

Lemma rve_job_schedule_behind_busy_slot st job j r jr :
  running_job (st_sched st) = Some r ->
  st_jobs st !! r = Some jr ->
  Z.land (job_flags jr) RVE_ASYNC = 0 \/
    ktime_to_ms (st_clock st - job_hw_running_time jr) < RVE_ASYNC_TIMEOUT_DELAY ->
  st_jobs st !! job = Some j ->
  job_scheduler j = true ->
  job_priority j = RVE_SCHED_PRIORITY_DEFAULT ->
  rve_job_schedule job st =
    Ok (true, with_sched (mk_sched (todo_list (st_sched st) ++ [job]) (Some r)
                            (int_wrap (job_count (st_sched st) + 1))) st).
Proof.
  intros Hr Hjr Hc Hj Hs Hdef. unfold rve_job_schedule.
  rewrite (bind_Ok _ _ _ _ _ (get_job_Ok _ _ _ Hj)). rewrite Hs. cbn [negb].
  rewrite (bind_Ok _ _ _ _ _ (rve_job_timeout_clean_keeps _ _ _ Hr Hjr Hc)).
  rewrite (bind_Ok _ _ _ _ _ (schedule_locked_appends _ _ _ Hj (or_intror Hdef))).
  rewrite Hr. erewrite bind_Ok by (apply rve_job_next_busy; simpl; congruence).
  reflexivity.
Qed.

(** X13.  Jobs of the default priority are queued first in, first out:
    while the running slot is held by a job that the timeout check leaves
    alone, a series of enqueues of default-priority jobs appends them to
    the todo list in the order of the calls, behind everything queued
    before, raises the counter by their number and changes nothing else:
    no priority is raised and nothing is dispatched. *)
Theorem default_priority_is_fifo jobs : forall st r jr,
  running_job (st_sched st) = Some r ->
  st_jobs st !! r = Some jr ->
  Z.land (job_flags jr) RVE_ASYNC = 0 \/
    ktime_to_ms (st_clock st - job_hw_running_time jr) < RVE_ASYNC_TIMEOUT_DELAY ->
  Forall (fun x => exists j, st_jobs st !! x = Some j /\
                             job_scheduler j = true /\
                             job_priority j = RVE_SCHED_PRIORITY_DEFAULT) jobs ->
  - 2 ^ 31 <= job_count (st_sched st) ->
  job_count (st_sched st) + Z.of_nat (length jobs) <= INT_MAX ->
  schedule_all jobs st =
    Ok (tt, with_sched (mk_sched (todo_list (st_sched st) ++ jobs) (Some r)
                          (job_count (st_sched st) + Z.of_nat (length jobs)))
              st).
Proof.
  induction jobs as [|job rest IH]; intros st r jr Hr Hjr Hc Hall Hlo Hhi.
  - simpl. rewrite app_nil_r, Z.add_0_r, <- Hr.
    destruct st as [[todo run count] ? ? ? ? ? ? ?]. reflexivity.
  - apply Forall_cons in Hall as [(j & Hj & Hs & Hdef) Hall].
    cbn [length] in Hhi. cbn [schedule_all].
    rewrite (bind_Ok _ _ _ _ _
               (rve_job_schedule_behind_busy_slot _ _ _ _ _ Hr Hjr Hc Hj Hs Hdef)).
    rewrite int_wrap_id by lia.
    rewrite (IH _ r jr); simpl; try assumption; try reflexivity; try lia.
    rewrite <- app_assoc. simpl. unfold with_sched. simpl.
    do 3 f_equal. f_equal. lia.
Qed.

(** *** Cancel of a running context *)

(** The walk of rve_internal_ctx_kref_release over a queue of live jobs
    keeps exactly the jobs of other contexts, in their order. *)
Lemma cancel_todo_filter id l : forall count st,
  Forall (fun x => exists j, st_jobs st !! x = Some j /\
                             is_Some (st_ctxs st !! job_ctx j)) l ->
  exists count',
    cancel_todo id l count st =
      Ok ((filter (fun x => job_ctx_id st x <> Some id) l, count'), st).
Proof.
  induction l as [|pos l IH]; intros count st Hl.
  - exists count. reflexivity.
  - apply Forall_cons in Hl as [(j & Hj & [cp Hcp]) Hl].
    cbn [cancel_todo].
    rewrite (bind_Ok _ _ _ _ _ (get_job_Ok _ _ _ Hj)).
    rewrite (bind_Ok _ _ _ _ _ (get_ctx_Ok _ _ _ Hcp)).
    assert (Hid : job_ctx_id st pos = Some (ctx_id cp)).
    { unfold job_ctx_id. rewrite Hj, Hcp. reflexivity. }
    destruct (id =? ctx_id cp) eqn:E.
    + apply Z.eqb_eq in E.
      destruct (IH (int_wrap (count - 1)) st Hl) as (count' & ->).
      exists count'. rewrite filter_cons_False; [reflexivity|].
      intros Hne. apply Hne. rewrite Hid. congruence.
    + apply Z.eqb_neq in E.
      destruct (IH count st Hl) as (count' & Hrun).
      rewrite (bind_Ok _ _ _ _ _ Hrun). exists count'.
      rewrite filter_cons_True; [reflexivity|]. rewrite Hid. congruence.
Qed.

Lemma cancel_locked_total ctx c st :
  st_ctxs st !! ctx = Some c ->
  queue_wf st ->
  slot_wf st ->
  exists need run' count',
    cancel_locked ctx st =
      Ok (need,
          with_sched
            (mk_sched (filter (fun x => job_ctx_id st x <> Some (ctx_id c))
                              (todo_list (st_sched st))) run' count') st) /\
    ((need = None /\ run' = running_job (st_sched st) /\
      forall job, running_job (st_sched st) = Some job ->
                  job_ctx_id st job <> Some (ctx_id c)) \/
     (exists job, need = Some job /\ run' = None /\
                  running_job (st_sched st) = Some job /\
                  job_ctx_id st job = Some (ctx_id c))).
Proof.
  intros Hc [Hnd Hlive] Hslot. unfold cancel_locked.
  rewrite (bind_Ok _ _ _ _ _ (get_ctx_Ok _ _ _ Hc)).
  unfold bind at 1. unfold get_sched at 1.
  destruct (cancel_todo_filter (ctx_id c) (todo_list (st_sched st))
              (job_count (st_sched st)) st Hlive) as (count' & Hrun).
  rewrite (bind_Ok _ _ _ _ _ Hrun). cbn [fst snd].
  destruct (running_job (st_sched st)) as [job|] eqn:Hr.
  - destruct (Hslot _ Hr) as (_ & j & Hj & [cj Hcj]).
    rewrite (bind_Ok _ _ _ _ _ (get_job_Ok _ _ _ Hj)).
    rewrite (bind_Ok _ _ _ _ _ (get_ctx_Ok _ _ _ Hcj)).
    assert (Hid : job_ctx_id st job = Some (ctx_id cj)).
    { unfold job_ctx_id. rewrite Hj, Hcj. reflexivity. }
    destruct (ctx_id cj =? ctx_id c) eqn:E.
    + apply Z.eqb_eq in E. exists (Some job), None, count'.
      split; [reflexivity|]. right. exists job. rewrite Hid, E. auto.
    + apply Z.eqb_neq in E. exists None, (Some job), count'.
      split; [reflexivity|]. left. split; [reflexivity|]. split; [reflexivity|].
      intros x [= <-]. rewrite Hid. congruence.
  - exists None, None, count'. split; [reflexivity|]. left.
    split; [reflexivity|]. split; [reflexivity|]. intros x Hx. discriminate.
Qed.

(** X14.  The locked region of a cancel unlinks the waiting jobs of the
    cancelled context and no others: with live jobs queued, the queue
    afterwards holds exactly the old entries that belong to other
    contexts, in their old order; the running slot is cleared if and only
    if its job belongs to the cancelled context.  The unlinked jobs are
    neither freed nor signalled, and no context is touched. *)
Theorem cancel_unlinks_queued_jobs ctx c st :
  st_ctxs st !! ctx = Some c ->
  queue_wf st ->
  slot_wf st ->
  exists need st',
    cancel_locked ctx st = Ok (need, st') /\
    (forall x, x ∈ todo_list (st_sched st') <->
               x ∈ todo_list (st_sched st) /\
               job_ctx_id st x <> Some (ctx_id c)) /\
    sublist (todo_list (st_sched st')) (todo_list (st_sched st)) /\
    (forall job, need = Some job <->
       running_job (st_sched st) = Some job /\
       job_ctx_id st job = Some (ctx_id c)) /\
    running_job (st_sched st') =
      match need with
      | Some _ => None
      | None => running_job (st_sched st)
      end /\
    st_jobs st' = st_jobs st /\ st_ctxs st' = st_ctxs st /\
    st_log st' = st_log st.
Proof.
  intros Hc Hq Hslot.
  destruct (cancel_locked_total ctx c st Hc Hq Hslot)
    as (need & run' & count' & Hrun & Hcase).
  exists need. eexists. split; [exact Hrun|]. simpl.
  split; [intros x; rewrite list_elem_of_filter; tauto|].
  split; [apply sublist_filter|].
  destruct Hcase as [(-> & -> & Hnot)|(job & -> & -> & Hr & Hid)].
  - split; [|auto]. intros job. split; [discriminate|].
    intros [Hr Hid]. destruct (Hnot job Hr Hid).
  - split; [|auto]. intros x. split.
    + intros [= <-]. auto.
    + intros [Hx _]. congruence.
Qed.

(** Taking a context out of the registry keeps the scheduler well formed
    when no job it holds points to that context. *)
Lemma free_ctx_wf ctx st st' :
  st_sched st' = st_sched st ->
  st_jobs st' = st_jobs st ->
  st_ctxs st' = delete ctx (st_ctxs st) ->
  queue_wf st ->
  slot_wf st ->
  (forall x j, held st x -> st_jobs st !! x = Some j -> job_ctx j <> ctx) ->
  queue_wf st' /\ slot_wf st'.
Proof.
  intros Hsched Hjobs Hctxs [Hnd Hlive] Hs Hother.
  rewrite Forall_forall in Hlive.
  unfold queue_wf, slot_wf. rewrite Hsched, Hjobs, Hctxs.
  split; [split; [exact Hnd|]|].
  - rewrite Forall_forall. intros x Hx.
    destruct (Hlive x Hx) as (j & Hj & Hc). exists j. split; [exact Hj|].
    assert (Hne : ctx <> job_ctx j).
    { intros Heq. eapply Hother; [left; exact Hx|exact Hj|congruence]. }
    rewrite lookup_delete_ne by exact Hne. exact Hc.
  - intros x Hx. destruct (Hs x Hx) as (Hn & j & Hj & Hc).
    split; [exact Hn|]. exists j. split; [exact Hj|].
    assert (Hne : ctx <> job_ctx j).
    { intros Heq. eapply Hother; [right; exact Hx|exact Hj|congruence]. }
    rewrite lookup_delete_ne by exact Hne. exact Hc.
Qed.

(** Release of a context that is still running: its jobs are taken from
    the scheduler before the context goes. *)
Lemma kref_release_running ctx c st :
  st_ctxs st !! ctx = Some c ->
  ctx_is_running c = true ->
  ctx_finished_job_count c < ctx_cmd_num c ->
  queue_wf st ->
  slot_wf st ->
  exists st',
    rve_internal_ctx_kref_release ctx st = Ok (tt, st') /\
    st_ctxs st' !! ctx = None /\
    queue_wf st' /\ slot_wf st' /\
    (forall x, held st' x -> held st x).
Proof.
  intros Hc Hrunning Hfin Hq Hs. unfold rve_internal_ctx_kref_release.
  erewrite bind_Ok by reflexivity.
  rewrite (bind_Ok _ _ _ _ _ (get_ctx_Ok _ _ _ Hc)).
  assert (Hskip : negb (ctx_is_running c)
                  || (ctx_finished_job_count c >=? ctx_cmd_num c) = false).
  { rewrite Hrunning. simpl. lia. }
  rewrite Hskip.
  destruct (cancel_locked_total ctx c st Hc Hq Hs)
    as (need & run' & count' & Hcancel & Hcase).
  rewrite !bind_assoc. rewrite (bind_Ok _ _ _ _ _ Hcancel).
  match type of Hcancel with
  | _ = Ok (_, ?s) => set (st1 := s) in *
  end.
  assert (Hptr : forall x j, st_jobs st !! x = Some j ->
            job_ctx_id st x <> Some (ctx_id c) -> job_ctx j <> ctx).
  { intros x j Hj Hne Heq. apply Hne. unfold job_ctx_id.
    rewrite Hj, Heq, Hc. reflexivity. }
  destruct Hq as [Hnd Hlive]. rewrite Forall_forall in Hlive.
  assert (Hq1 : queue_wf st1).
  { split; simpl; [apply NoDup_filter, Hnd|].
    rewrite Forall_forall. intros x Hx.
    apply list_elem_of_filter in Hx as [_ Hx]. exact (Hlive x Hx). }
  destruct Hcase as [(-> & -> & Hnot)|(job & -> & -> & Hr & Hid)];
    cbv beta iota; rewrite ?bind_assoc.
  - erewrite bind_Ok by reflexivity. rewrite ?bind_assoc.
    rewrite (bind_Ok _ _ _ _ _ (get_ctx_Ok st1 ctx c Hc)).
    erewrite bind_Ok by reflexivity. erewrite bind_Ok by reflexivity.
    eexists. split; [reflexivity|].
    assert (Hs1 : slot_wf st1).
    { intros x Hx. destruct (Hs x Hx) as (Hn & Hx'). split; [|exact Hx'].
      simpl. rewrite list_elem_of_filter. tauto. }
    assert (Hother : forall x j, held st1 x -> st_jobs st1 !! x = Some j ->
              job_ctx j <> ctx).
    { intros x j [Hx|Hx] Hj.
      - apply list_elem_of_filter in Hx as [Hne _]. exact (Hptr x j Hj Hne).
      - exact (Hptr x j Hj (Hnot x Hx)). }
    match goal with
    | |- st_ctxs ?S !! ctx = None /\ _ =>
        destruct (free_ctx_wf ctx st1 S eq_refl eq_refl eq_refl Hq1 Hs1 Hother)
          as [Hq' Hs']
    end.
    split; [apply lookup_delete_eq|]. split; [exact Hq'|]. split; [exact Hs'|].
    intros x [Hx|Hx].
    + left. apply list_elem_of_filter in Hx as [_ Hx]. exact Hx.
    + right. exact Hx.
  - destruct (Hs job Hr) as (Hn & j & Hj & Hcj).
    assert (Hn1 : job ∉ todo_list (st_sched st1)).
    { simpl. rewrite list_elem_of_filter. tauto. }
    erewrite bind_Ok by reflexivity.
    match goal with
    | |- context [bind (rve_job_finish_and_next job 0) _ ?s] =>
        destruct (rve_job_finish_and_next_total job 0 j s Hj Hcj Hn1 Hq1)
          as (st2 & Hfin2 & _ & _);
        destruct (rve_job_finish_and_next_wf job 0 j s st2 Hfin2 Hj Hcj Hn1
                    eq_refl Hq1)
          as (Hq2 & Hs2 & Hc2 & Hheld)
    end.
    rewrite ?bind_assoc. rewrite (bind_Ok _ _ _ _ _ Hfin2).
    destruct (Hc2 ctx (ex_intro _ c Hc)) as [c2 Hctx2].
    rewrite ?bind_assoc.
    rewrite (bind_Ok _ _ _ _ _ (get_ctx_Ok st2 ctx c2 Hctx2)).
    erewrite bind_Ok by reflexivity. erewrite bind_Ok by reflexivity.
    eexists. split; [reflexivity|].
    assert (Hother : forall x j', held st2 x -> st_jobs st2 !! x = Some j' ->
              job_ctx j' <> ctx).
    { intros x j' Hx Hj'.
      destruct (Hheld x Hx) as (Hin & jx & jx' & Hjx & Hjx' & Hsame).
      simpl in Hin. apply list_elem_of_filter in Hin as [Hne _].
      assert (j' = jx') by congruence. subst j'. rewrite Hsame.
      exact (Hptr x jx Hjx Hne). }
    match goal with
    | |- st_ctxs ?S !! ctx = None /\ _ =>
        destruct (free_ctx_wf ctx st2 S eq_refl eq_refl eq_refl Hq2 Hs2 Hother)
          as [Hq' Hs']
    end.
    split; [apply lookup_delete_eq|]. split; [exact Hq'|]. split; [exact Hs'|].
    intros x Hx. destruct (Hheld x Hx) as (Hin & _).
    simpl in Hin. apply list_elem_of_filter in Hin as [_ Hin]. left. exact Hin.
Qed.

(** X15.  Cancel of a context that is still running leaves no job behind
    that points to freed memory: when the caller holds the only reference
    and the context has batches outstanding, the call returns 0, the
    handle is gone from the registry, and every job the scheduler still
    holds, queued or running, is one it held before, is live and has a
    live context; the queue has no duplicates and the running job is not
    queued. *)
Theorem cancel_leaves_no_dangling_job st id c :
  st_ctxs st !! id = Some c ->
  ctx_refcount c = 1 ->
  ctx_is_running c = true ->
  ctx_finished_job_count c < ctx_cmd_num c ->
  queue_wf st ->
  slot_wf st ->
  exists st',
    rve_job_cancel_by_user_ctx id st = Ok (0, st') /\
    st_ctxs st' !! id = None /\
    queue_wf st' /\ slot_wf st' /\
    (forall x, held st' x -> held st x).
Proof.
  intros Hc Href Hrunning Hfin [Hnd Hlive] Hs.
  unfold rve_job_cancel_by_user_ctx.
  rewrite (bind_Ok _ _ _ _ _ (rve_internal_ctx_lookup_Ok _ _)). rewrite Hc.
  unfold kref_put. rewrite bind_assoc.
  rewrite (bind_Ok _ _ _ _ _ (get_ctx_Ok _ _ _ Hc)). rewrite Href.
  change (1 - 1 =? 0) with true. cbv iota.
  rewrite bind_assoc. unfold bind at 1. unfold put_ctx at 1.
  set (c0 := set_ctx_refcount (1 - 1) c).
  set (st0 := with_ctxs (<[id := c0]> (st_ctxs st)) st).
  assert (Hkeep : forall k, is_Some (st_ctxs st !! k) ->
            is_Some (st_ctxs st0 !! k)).
  { intros k Hk. simpl. destruct (decide (id = k)) as [->|Hne].
    - rewrite lookup_insert_eq. eauto.
    - rewrite lookup_insert_ne by exact Hne. exact Hk. }
  destruct (kref_release_running id c0 st0)
    as (st' & Hrel & Hgone & Hq' & Hs' & Hheld).
  { simpl. apply lookup_insert_eq. }
  { exact Hrunning. }
  { exact Hfin. }
  { split; [exact Hnd|]. rewrite Forall_forall in Hlive |- *.
    intros x Hx. destruct (Hlive x Hx) as (j & Hj & Hcj).
    exists j. split; [exact Hj|apply Hkeep, Hcj]. }
  { intros x Hx. destruct (Hs x Hx) as (Hn & j & Hj & Hcj).
    split; [exact Hn|]. exists j. split; [exact Hj|apply Hkeep, Hcj]. }
  rewrite (bind_Ok _ _ _ _ _ Hrel).
  exists st'. split; [reflexivity|]. split; [exact Hgone|].
  split; [exact Hq'|]. split; [exact Hs'|]. intros x Hx. exact (Hheld x Hx).
Qed.

(** *** A synchronous commit whose start fails *)

Lemma rve_job_alloc_Ok ctx c job pages st :
  st_pages st = job :: pages ->
  st_ctxs st !! ctx = Some c ->
  exists j,
    rve_job_alloc ctx st =
      Ok (Some job, with_jobs (<[job := j]> (st_jobs st)) (with_pages pages st)) /\
    job_ctx j = ctx /\ job_scheduler j = true /\ job_flags j = 0 /\
    job_out_fence j = None.
Proof.
  intros Hp Hc. unfold rve_job_alloc, bind, get_zeroed_page. rewrite Hp.
  unfold ktime_get, get_ctx, put_job, ret. simpl. rewrite Hc.
  eexists. split; [reflexivity|]. simpl. auto.
Qed.

(** The finish path leaves a synchronous job allocated. *)
Lemma rve_internal_ctx_signal_sync st job j :
  st_jobs st !! job = Some j ->
  is_Some (st_ctxs st !! job_ctx j) ->
  Z.land (Z.lor (job_flags j) RVE_JOB_DONE) RVE_ASYNC = 0 ->
  exists r st' j',
    rve_internal_ctx_signal job st = Ok (r, st') /\
    st_sched st' = st_sched st /\
    st_pages st' = st_pages st /\
    st_jobs st' !! job = Some j' /\
    job_ret j' = job_ret j /\
    job_out_fence j' = job_out_fence j /\
    (forall x, x <> job -> st_jobs st' !! x = st_jobs st !! x) /\
    (forall k, is_Some (st_ctxs st !! k) -> is_Some (st_ctxs st' !! k)).
Proof.
  intros Hj [c Hc] Hsync. unfold rve_internal_ctx_signal.
  rewrite (bind_Ok _ _ _ _ _ (get_job_Ok _ _ _ Hj)).
  destruct (job_scheduler j); simpl.
  2: { exists (- EFAULT), st, j. repeat split; auto. }
  destruct (IS_ERR_OR_NULL (job_ctx j)).
  { exists (- EINVAL), st, j. repeat split; auto. }
  rewrite (bind_Ok _ _ _ _ _ (get_ctx_Ok _ _ _ Hc)).
  unfold bind at 1. unfold put_ctx at 1.
  assert (Hkeep : forall (v : rve_internal_ctx_t) k,
             is_Some (st_ctxs st !! k) ->
             is_Some (<[job_ctx j := v]> (st_ctxs st) !! k)).
  { intros v k Hk. destruct (decide (job_ctx j = k)) as [->|Hne].
    - rewrite lookup_insert_eq. eauto.
    - rewrite lookup_insert_ne by exact Hne. exact Hk. }
  destruct (_ >=? _).
  2: { eexists _, _, j. split; [reflexivity|]. simpl. repeat split; auto. }
  apply Z.eqb_eq in Hsync.
  destruct (ctx_out_fence c) as [f|];
    unfold modify_ctx; unfold bind, emit, put_job, put_ctx, get_ctx, ret; simpl;
    rewrite ?Hsync; simpl; rewrite ?lookup_insert_eq; simpl;
    eexists _, _, _; (split; [reflexivity|]); simpl;
    rewrite lookup_insert_eq;
    do 5 (split; [reflexivity|]); split;
    solve
      [ intros x Hx; rewrite lookup_insert_ne by congruence; reflexivity
      | intros k Hk; rewrite insert_insert_eq; apply Hkeep, Hk ].
Qed.

Lemma rve_job_timeout_clean_idle st :
  running_job (st_sched st) = None -> rve_job_timeout_clean st = Ok (tt, st).
Proof.
  intros Hr. unfold rve_job_timeout_clean, bind, ktime_get,
    timeout_clean_locked, bind, get_sched.
  rewrite Hr. reflexivity.
Qed.

(** Enqueue on an idle scheduler of a job whose start fails: the job is
    dispatched at once, its result stored, the slot given up again. *)
Lemma rve_job_schedule_failed_start st job j :
  st_jobs st !! job = Some j ->
  job_scheduler j = true ->
  is_Some (st_ctxs st !! job_ctx j) ->
  running_job (st_sched st) = None ->
  todo_list (st_sched st) = [] ->
  run_result job < 0 ->
  Z.land (Z.lor (job_flags j) RVE_JOB_DONE) RVE_ASYNC = 0 ->
  exists st' j',
    rve_job_schedule job st = Ok (true, st') /\
    running_job (st_sched st') = None /\
    todo_list (st_sched st') = [] /\
    st_pages st' = st_pages st /\
    st_jobs st' !! job = Some j' /\
    job_ret j' = run_result job /\
    job_out_fence j' = job_out_fence j /\
    (forall x, x <> job -> st_jobs st' !! x = st_jobs st !! x).
Proof.
  intros Hj Hs Hc Hr Htodo Hneg Hsync. unfold rve_job_schedule.
  rewrite (bind_Ok _ _ _ _ _ (get_job_Ok _ _ _ Hj)). rewrite Hs. cbn [negb].
  rewrite (bind_Ok _ _ _ _ _ (rve_job_timeout_clean_idle _ Hr)).
  rewrite (bind_Ok _ _ _ _ _
             (schedule_locked_appends _ _ _ Hj (or_introl Htodo))).
  rewrite Htodo, Hr. cbn [app].
  match goal with
  | |- context [bind rve_job_next _ ?s] => set (sa := s)
  end.
  destruct (rve_job_next_loop_failed 1 sa job j [] eq_refl eq_refl Hj Hneg)
    as (evs & Hloop).
  destruct (rve_internal_ctx_signal_sync
              (after_failed_start job j [] evs sa) job
              (set_job_ret (run_result job) j))
    as (r & st4 & j' & Hsig & Hsched & Hpages & Hj' & Hret & Hfence & Hjobs).
  { simpl. apply lookup_insert_eq. }
  { simpl. exact Hc. }
  { simpl. exact Hsync. }
  destruct Hjobs as [Hjobs _].
  assert (Hnext : rve_job_next sa = Ok (tt, st4)).
  { unfold rve_job_next. change (S (length (todo_list (st_sched sa)))) with 2%nat.
    rewrite Hloop. rewrite (bind_Ok _ _ _ _ _ Hsig).
    cbn [rve_job_next_loop].
    rewrite (bind_Ok _ _ _ _ _ (next_job_locked_idle st4
               ltac:(right; rewrite Hsched; reflexivity))).
    reflexivity. }
  rewrite (bind_Ok _ _ _ _ _ Hnext).
  exists st4, j'. split; [reflexivity|]. rewrite Hsched, Hpages.
  split; [reflexivity|]. split; [reflexivity|]. split; [reflexivity|].
  split; [exact Hj'|]. split; [exact Hret|]. split; [exact Hfence|].
  intros x Hx. rewrite (Hjobs x Hx). simpl.
  apply lookup_insert_ne. congruence.
Qed.

(** rve_running_job_abort for a job that is not in the running slot and
    carries no fence: the page goes back, nothing else happens. *)
Lemma rve_running_job_abort_not_running st job j :
  running_job (st_sched st) <> Some job ->
  st_jobs st !! job = Some j ->
  job_out_fence j = None ->
  rve_running_job_abort job st =
    Ok (tt, with_jobs (delete job (st_jobs st))
              (with_log (EvFreePage job :: st_log st) st)).
Proof.
  intros Hr Hj Hf.
  unfold rve_running_job_abort, abort_locked, rve_job_cleanup, rve_job_free,
    bind, get_sched, ktime_get, get_job, emit, del_job, ret.
  destruct (decide (running_job (st_sched st) = Some job)); [contradiction|].
  simpl. rewrite Hj, Hf. reflexivity.
Qed.

(** X16.  A synchronous commit on an idle scheduler whose hardware start
    fails reports the failure and keeps no memory: rve_job_commit returns
    the negative result of rve_job_run, the job it had allocated is freed
    again (its page is returned, its record is gone), no other job is
    touched, and the running slot and the queue are empty as before. *)
Theorem failed_start_is_reported env ctx c job pages st :
  RVE_SYNC <> RVE_ASYNC ->
  Z.land RVE_JOB_DONE RVE_ASYNC = 0 ->
  st_ctxs st !! ctx = Some c ->
  st_pages st = job :: pages ->
  running_job (st_sched st) = None ->
  todo_list (st_sched st) = [] ->
  run_result job < 0 ->
  exists st',
    rve_job_commit env ctx st = Ok (run_result job, st') /\
    st_jobs st' !! job = None /\
    (forall x, x <> job -> st_jobs st' !! x = st_jobs st !! x) /\
    st_pages st' = pages /\
    In (EvFreePage job) (st_log st') /\
    running_job (st_sched st') = None /\
    todo_list (st_sched st') = [].
Proof.
  intros Hne Hbits Hc Hp Hr Htodo Hneg. unfold rve_job_commit.
  rewrite (bind_Ok _ _ _ _ _ (modify_ctx_Ok _ _ _ _ Hc)).
  set (c1 := set_ctx_sync_mode RVE_SYNC c).
  set (st1 := with_ctxs (<[ctx := c1]> (st_ctxs st)) st).
  assert (Hc1 : st_ctxs st1 !! ctx = Some c1) by apply lookup_insert_eq.
  destruct (rve_job_alloc_Ok ctx c1 job pages st1 Hp Hc1)
    as (j & Halloc & Hjc & Hjs & Hjf & Hjo).
  rewrite (bind_Ok _ _ _ _ _ Halloc).
  set (st2 := with_jobs (<[job := j]> (st_jobs st1)) (with_pages pages st1)).
  rewrite (bind_Ok _ _ _ _ _ (get_ctx_Ok st2 ctx c1 Hc1)).
  change (ctx_sync_mode c1) with RVE_SYNC.
  destruct (RVE_SYNC =? RVE_ASYNC) eqn:Ha; [lia|]. rewrite Z.eqb_refl.
  destruct (rve_job_schedule_failed_start st2 job j)
    as (st3 & j' & Hsch & Hr3 & Htodo3 & Hp3 & Hj3 & Hret3 & Hfence3 & Hjobs3);
    try assumption.
  { apply lookup_insert_eq. }
  { rewrite Hjc. exists c1. exact Hc1. }
  { rewrite Hjf, Z.lor_0_l. exact Hbits. }
  rewrite (bind_Ok _ _ _ _ _ Hsch). cbn [negb].
  rewrite (bind_Ok _ _ _ _ _ (get_job_Ok _ _ _ Hj3)).
  rewrite Hret3. destruct (run_result job <? 0) eqn:Hlt; [|lia].
  erewrite bind_Ok.
  2: { apply (rve_running_job_abort_not_running st3 job j');
         [rewrite Hr3; discriminate|exact Hj3|congruence]. }
  eexists. split; [reflexivity|]. simpl.
  split; [apply lookup_delete_eq|]. split.
  { intros x Hx. rewrite lookup_delete_ne by congruence.
    rewrite (Hjobs3 x Hx). simpl. apply lookup_insert_ne. congruence. }
  split; [rewrite Hp3; reflexivity|]. split; [left; reflexivity|].
  split; assumption.
Qed.

(** *** One synchronous job from Commit to completion *)

Lemma rve_job_run_started job st :
  0 <= run_result job ->
  rve_job_run job st =
    Ok (run_result job,
        with_log (EvSetReg job :: EvInitReg job :: EvPowerEnable :: st_log st) st).
Proof.
  unfold run_result, rve_job_run, rve_power_disable, bind, emit, ret.
  destruct (power_enable ops job <? 0) eqn:H1; [lia|].
  destruct (init_reg ops job <? 0) eqn:H2; [lia|].
  destruct (set_reg ops job <? 0) eqn:H3; [lia|]. reflexivity.
Qed.

Lemma rve_job_schedule_dispatches job j st :
  st_jobs st !! job = Some j ->
  job_scheduler j = true ->
  running_job (st_sched st) = None ->
  todo_list (st_sched st) = [] ->
  0 <= run_result job ->
  rve_job_schedule job st = Ok (true, dispatched job j st).
Proof.
  intros Hj Hs Hslot Htodo Hres. unfold rve_job_schedule.
  rewrite (bind_Ok _ _ _ _ _ (get_job_Ok _ _ _ Hj)). rewrite Hs. cbn [negb].
  rewrite (bind_Ok _ _ _ _ _ (rve_job_timeout_clean_idle st Hslot)).
  rewrite (bind_Ok _ _ _ _ _ (schedule_locked_appends st job j Hj (or_introl Htodo))).
  rewrite Htodo, Hslot. cbn [app].
  set (s1 := with_sched _ st).
  assert (Hnext : rve_job_next s1 = Ok (tt, dispatched job j st)).
  { unfold rve_job_next. change (todo_list (st_sched s1)) with [job].
    cbn [length rve_job_next_loop].
    rewrite (bind_Ok _ _ _ _ _
               (next_job_locked_pick s1 job [] eq_refl eq_refl)).
    rewrite (bind_Ok _ _ _ _ _ (rve_job_run_started job _ Hres)).
    erewrite bind_Ok by (apply (modify_job_Ok _ job _ j); exact Hj).
    destruct (run_result job <? 0) eqn:Hneg; [lia|]. reflexivity. }
  rewrite (bind_Ok _ _ _ _ _ Hnext). reflexivity.
Qed.

Lemma rve_internal_ctx_signal_completes st job j c :
  st_jobs st !! job = Some j ->
  job_scheduler j = true ->
  IS_ERR_OR_NULL (job_ctx j) = false ->
  st_ctxs st !! job_ctx j = Some c ->
  0 <= ctx_finished_job_count c ->
  ctx_cmd_num c <= ctx_finished_job_count c + 1 <= INT_MAX ->
  Z.land (Z.lor (job_flags j) RVE_JOB_DONE) RVE_ASYNC = 0 ->
  rve_internal_ctx_signal job st =
    Ok (0, mk_state (st_sched st)
             (<[job := set_job_flags (Z.lor (job_flags j) RVE_JOB_DONE) j]>
                (st_jobs st))
             (<[job_ctx j := ctx_stop (ctx_record_finish (job_regcmd_data j)
                                         (ctx_finished_job_count c + 1) c)]>
                (st_ctxs st))
             (st_ctx_count st) (st_pages st) (st_clock st)
             (EvWakeUp :: fence_signal (ctx_out_fence c) ++ st_log st)
             (st_regcmds st)).
Proof.
  intros Hj Hs Hp Hc H0 Hge Hsync. unfold rve_internal_ctx_signal.
  rewrite (bind_Ok _ _ _ _ _ (get_job_Ok _ _ _ Hj)). rewrite Hs, Hp. simpl.
  rewrite (bind_Ok _ _ _ _ _ (get_ctx_Ok _ _ _ Hc)).
  rewrite int_wrap_id by (unfold INT_MAX in *; lia).
  unfold bind at 1. unfold put_ctx at 1.
  destruct (_ >=? _) eqn:Hcmp; [|lia]. rewrite Hsync. simpl.
  destruct (ctx_out_fence c) as [f|] eqn:Hf;
    unfold modify_ctx; unfold bind, emit, put_job, put_ctx, get_ctx, ret;
    simpl; rewrite ?lookup_insert_eq; simpl; rewrite insert_insert_eq;
    reflexivity.
Qed.

Lemma rve_job_done_completes r job j c st :
  running_job (st_sched st) = Some job ->
  todo_list (st_sched st) = [] ->
  st_jobs st !! job = Some j ->
  job_scheduler j = true ->
  IS_ERR_OR_NULL (job_ctx j) = false ->
  st_ctxs st !! job_ctx j = Some c ->
  ctx_finished_job_count c = 0 ->
  ctx_cmd_num c = 1 ->
  job_regcmd_data j ∈ st_regcmds st ->
  Z.land (Z.lor (job_flags j) RVE_JOB_DONE) RVE_ASYNC = 0 ->
  rve_job_done r st = Ok (tt, completed r job j c st).
Proof.
  intros Hslot Htodo Hj Hs Hp Hc Hfin Hn Hheap Hsync.
  unfold rve_job_done.
  rewrite (bind_Ok ktime_get _ st (st_clock st) st eq_refl).
  rewrite (bind_Ok _ _ _ _ _ (job_done_locked_Ok st job j Hslot Hj)).
  set (s1 := with_sched _ st).
  rewrite (bind_Ok _ _ _ _ _ (get_job_Ok s1 _ _ Hj)).
  rewrite (bind_Ok _ _ _ _ _ (get_ctx_Ok s1 _ _ Hc)).
  rewrite (bind_Ok _ _ _ _ _ (access_regcmd_Ok _ s1 Hheap)).
  rewrite (bind_Ok (emit _) _ s1 tt _ eq_refl).
  set (s2 := with_log _ s1).
  unfold rve_job_finish_and_next.
  rewrite (bind_Ok ktime_get _ s2 (st_clock s2) s2 eq_refl).
  rewrite (bind_Ok _ _ _ _ _ (modify_job_Ok s2 job (set_job_ret r) j Hj)).
  set (s3 := with_jobs _ s2).
  assert (Hj3 : st_jobs s3 !! job = Some (set_job_ret r j))
    by apply lookup_insert_eq.
  rewrite (bind_Ok _ _ _ _ _
    (rve_internal_ctx_signal_completes s3 job (set_job_ret r j) c Hj3 Hs Hp Hc
       ltac:(lia) ltac:(unfold INT_MAX; lia) Hsync)).
  set (s4 := mk_state _ _ _ _ _ _ _ _).
  assert (Hnext : rve_job_next s4 = Ok (tt, s4)).
  { unfold rve_job_next. simpl. rewrite Htodo.
    cbn [length rve_job_next_loop].
    rewrite (bind_Ok _ _ _ _ _ (next_job_locked_idle s4
               ltac:(right; exact Htodo))).
    reflexivity. }
  rewrite (bind_Ok _ _ _ _ _ Hnext).
  unfold rve_power_disable, emit, completed, s4. simpl.
  unfold with_log, set_running_job. simpl.
  rewrite Hfin, Htodo, insert_insert_eq. reflexivity.
Qed.

Lemma rve_job_cleanup_exact job j st :
  st_jobs st !! job = Some j ->
  job_out_fence j = None ->
  rve_job_cleanup job st =
    Ok (0, with_jobs (delete job (st_jobs st))
             (with_log (EvFreePage job :: st_log st) st)).
Proof.
  intros Hj Hf.
  unfold rve_job_cleanup, rve_job_free, bind, ktime_get, get_job, emit,
    del_job, ret.
  rewrite Hj, Hf. reflexivity.
Qed.

Lemma commit_tail_exact envs ok u r c st :
  st_ctxs st !! uc_id u = Some c ->
  ctx_cmd_num c = 1 ->
  commit_tail envs ok u r st =
    Ok ((if ok then r else - EFAULT,
         set_uc_out_fence_fd (ctx_out_fence_fd c) u),
        with_log (EvCopyToUser 1 :: st_log st)
          (with_ctxs (<[uc_id u := set_ctx_running_job_count
                                      (int_wrap (ctx_running_job_count c + 1)) c]>
                        (st_ctxs st)) st)).
Proof.
  intros Hc Hn. unfold commit_tail.
  rewrite (bind_Ok _ _ _ _ _ (modify_ctx_Ok _ _ _ _ Hc)).
  set (s1 := with_ctxs _ st).
  assert (Hc1 : st_ctxs s1 !! uc_id u =
                Some (set_ctx_running_job_count
                        (int_wrap (ctx_running_job_count c + 1)) c))
    by apply lookup_insert_eq.
  cbn [commit_loop].
  rewrite bind_assoc. rewrite (bind_Ok _ _ _ _ _ (get_ctx_Ok _ _ _ Hc1)).
  simpl ctx_cmd_num. rewrite Hn. change (int_wrap (0 + 1) <? 1) with false.
  cbv iota. rewrite (bind_Ok (ret _) _ s1 _ s1 eq_refl).
  rewrite (bind_Ok _ _ _ _ _ (get_ctx_Ok _ _ _ Hc1)).
  simpl ctx_cmd_num. rewrite Hn.
  rewrite (bind_Ok (emit _) _ s1 tt _ eq_refl).
  destruct ok; reflexivity.
Qed.

Lemma rve_job_schedule_steps {A} job st st' (k : M A) :
  rve_job_schedule job st = Ok (true, st') ->
  (rve_job_timeout_clean ;;; schedule_locked job ;;; rve_job_next ;;; k) st = k st'.
Proof.
  unfold rve_job_schedule. intros H. bind_inv H.
  destruct (negb (job_scheduler _)).
  - injection H as Hf _. discriminate.
  - apply get_job_inv in Hm as [-> _].
    bind_inv H. bind_inv H. bind_inv H. injection H as <-.
    destruct a0, a1, a2.
    rewrite (bind_Ok _ _ _ _ _ Hm). rewrite (bind_Ok _ _ _ _ _ Hm0).
    rewrite (bind_Ok _ _ _ _ _ Hm1). reflexivity.
Qed.

(** Commit of a configured context on an idle engine, the interrupt
    thread reporting the end of the job while the caller sleeps. *)
Lemma commit_success_path envs ok u st c p rest :
  RVE_SYNC <> RVE_ASYNC ->
  Z.land RVE_JOB_DONE RVE_ASYNC = 0 ->
  st_ctxs st !! uc_id u = Some c ->
  ctx_is_running c = false ->
  ctx_cmd_num c = 1 ->
  IS_ERR_OR_NULL (uc_id u) = false ->
  ctx_regcmd_data c ∈ st_regcmds st ->
  st_pages st = p :: rest ->
  running_job (st_sched st) = None ->
  todo_list (st_sched st) = [] ->
  0 <= run_result p ->
  wait_activity (envs 0) = rve_job_done 0 ->
  wait_left_time (envs 0) <> 0 ->
  wait_left_time (envs 0) <> - ERESTARTSYS ->
  exists st' c',
    rve_job_commit_by_user_ctx envs ok u st =
      Ok ((if ok then 0 else - EFAULT,
           set_uc_out_fence_fd (ctx_out_fence_fd c) u), st') /\
    st_pages st' = rest /\
    st_log st' = commit_events p c ++ st_log st /\
    running_job (st_sched st') = None /\
    todo_list (st_sched st') = [] /\
    st_jobs st' = delete p (st_jobs st) /\
    st_ctxs st' !! uc_id u = Some c' /\
    ctx_cmd_num c' = 1 /\
    ctx_finished_job_count c' = 1 /\
    ctx_running_job_count c' = 1 /\
    ctx_is_running c' = false.
Proof.
  intros Hne Hbits Hc Hrun Hn Hid Hheap Hp Hslot Htodo Hres Hact Hl0 Hl1.
  rewrite (commit_configured envs ok u st c Hne Hc Hrun Hn), Hp.
  set (s0 := commit_allocated (uc_id u) c p rest st).
  set (j0 := allocated_job (uc_id u) (committed c) (st_clock st)).
  assert (Hj0 : st_jobs s0 !! p = Some j0) by apply lookup_insert_eq.
  pose proof (rve_job_schedule_dispatches p j0 s0 Hj0 eq_refl Hslot Htodo Hres)
    as Hsched.
  rewrite (rve_job_schedule_steps p s0 _ _ Hsched).
  set (s1 := dispatched p j0 s0).
  set (j1 := set_job_ret (run_result p) j0).
  assert (Hj1 : st_jobs s1 !! p = Some j1) by apply lookup_insert_eq.
  unfold commit_after_schedule.
  rewrite (bind_Ok _ _ _ _ _ (get_job_Ok _ _ _ Hj1)).
  change (job_ret j1) with (run_result p).
  destruct (run_result p <? 0) eqn:Hneg; [lia|].
  rewrite Hact.
  assert (Hc1 : st_ctxs s1 !! job_ctx j1 = Some (committed c))
    by apply lookup_insert_eq.
  assert (Hflag : Z.land (Z.lor (job_flags j1) RVE_JOB_DONE) RVE_ASYNC = 0).
  { change (job_flags j1) with 0. rewrite Z.lor_0_l. exact Hbits. }
  assert (Hheap1 : job_regcmd_data j1 ∈ st_regcmds s1).
  { change (job_regcmd_data j1) with (ctx_regcmd_data c + 0).
    rewrite Z.add_0_r. exact Hheap. }
  rewrite (bind_Ok _ _ _ _ _
    (rve_job_done_completes 0 p j1 (committed c) s1 eq_refl eq_refl Hj1 eq_refl
       Hid Hc1 eq_refl Hn Hheap1 Hflag)).
  set (s2 := completed 0 p j1 (committed c) s1).
  unfold rve_job_wait.
  destruct (wait_left_time (envs 0) =? 0) eqn:E0; [lia|].
  destruct (wait_left_time (envs 0) =? - ERESTARTSYS) eqn:E1; [lia|].
  rewrite !bind_assoc.
  rewrite (bind_Ok (emit _) _ s2 tt _ eq_refl).
  rewrite (bind_Ok (ret 0) _ _ 0 _ eq_refl).
  set (s3 := with_log _ s2).
  change (0 <? 0) with false. cbv iota.
  set (j2 := set_job_flags (Z.lor (job_flags j1) RVE_JOB_DONE) (set_job_ret 0 j1)).
  assert (Hj2 : st_jobs s3 !! p = Some j2) by apply lookup_insert_eq.
  rewrite (bind_Ok _ _ _ _ _ (rve_job_cleanup_exact p j2 s3 Hj2 eq_refl)).
  set (s4 := with_jobs _ _).
  set (c4 := ctx_stop (ctx_record_finish (job_regcmd_data j1) 1 (committed c))).
  assert (Hc4 : st_ctxs s4 !! uc_id u = Some c4) by apply lookup_insert_eq.
  rewrite (commit_tail_exact envs ok u 0 c4 s4 Hc4 Hn).
  eexists. eexists. split; [reflexivity|]. simpl.
  split; [reflexivity|].
  split; [unfold commit_events; simpl; rewrite <- app_assoc; reflexivity|].
  split; [reflexivity|]. split; [reflexivity|].
  split; [rewrite !delete_insert_eq; reflexivity|].
  split; [apply lookup_insert_eq|]. simpl.
  repeat split; try assumption; reflexivity.
Qed.

(** *** Configure, then Commit *)

Lemma stays_configured_keeps {A} id (m : M A) :
  keeps_cmd_num m -> stays_configured id m.
Proof.
  intros Hm st a st' H c Hc Hn.
  destruct (Hm _ _ _ H _ _ Hc) as (c' & Hc' & Hn'). exists c'.
  split; [exact Hc'|congruence].
Qed.

Lemma stays_configured_bind {A B} id (m : M A) (k : A -> M B) :
  stays_configured id m -> (forall a, stays_configured id (k a)) ->
  stays_configured id (bind m k).
Proof.
  intros Hm Hk st b st' H c Hc Hn. bind_inv H.
  destruct (Hm _ _ _ Hm0 _ Hc Hn) as (c1 & Hc1 & Hn1).
  exact (Hk _ _ _ _ H _ Hc1 Hn1).
Qed.

Lemma keeps_cmd_num_cancel_todo id l : forall count,
  keeps_cmd_num (cancel_todo id l count).
Proof.
  induction l as [|job_pos rest IH]; intros count; simpl; keeps.
Qed.

Lemma keeps_cmd_num_cancel_locked ctx : keeps_cmd_num (cancel_locked ctx).
Proof.
  unfold cancel_locked. keeps; apply keeps_cmd_num_cancel_todo.
Qed.

Lemma keeps_cmd_num_finish_and_next job r :
  keeps_cmd_num (rve_job_finish_and_next job r).
Proof. unfold rve_job_finish_and_next, rve_power_disable. keeps. Qed.

(** Start of another context. *)
Lemma stays_configured_start id env :
  idr_alloc_id env <> id ->
  stays_configured id (rve_internal_ctx_alloc_to_get_idr_id env).
Proof.
  intros Hid st a st' H c Hc Hn.
  unfold rve_internal_ctx_alloc_to_get_idr_id in H.
  destruct (negb (kzalloc_ctx_ok env)); [injection H as _ <-; eauto|].
  destruct (negb (ctx_manager_present env)); [injection H as _ <-; eauto|].
  injection H as _ <-. simpl. exists c. split; [|exact Hn].
  destruct (idr_alloc_id env <? 0); [exact Hc|].
  rewrite lookup_insert_ne by exact Hid. exact Hc.
Qed.

(** Configure of any context, this one included. *)
Lemma stays_configured_config id env u :
  stays_configured id (rve_job_config_by_user_ctx env u).
Proof.
  intros st a st' H c Hc Hn.
  unfold rve_job_config_by_user_ctx in H. bind_inv H.
  unfold rve_internal_ctx_lookup in Hm. injection Hm as <- <-.
  destruct (st_ctxs st !! uc_id u) as [cu|] eqn:Hcu;
    [|injection H as _ <-; eauto].
  destruct (ctx_is_running cu); [injection H as _ <-; eauto|].
  destruct (kmalloc_regcmd env) as [regcmd|]; [|injection H as _ <-; eauto].
  bind_inv H. injection Hm as _ <-. bind_inv H. injection Hm as _ <-.
  destruct (copy_from_user_ok env).
  - bind_inv H. injection H as _ <-.
    apply modify_ctx_inv in Hm as (c0 & Hc0 & ->). simpl in *.
    destruct (decide (uc_id u = id)) as [->|Hne].
    + rewrite lookup_insert_eq. eexists. split; reflexivity.
    + rewrite lookup_insert_ne by exact Hne. eauto.
  - bind_inv H. injection Hm as _ <-. injection H as _ <-. simpl. eauto.
Qed.

Lemma keeps_cmd_num_commit_loop envs ctx :
  (forall i, keeps_cmd_num (wait_activity (envs i))) ->
  forall fuel i r, keeps_cmd_num (commit_loop fuel envs ctx i r).
Proof.
  intros Henv fuel.
  induction fuel as [|fuel IH]; intros i r; cbn [commit_loop];
    (apply keeps_cmd_num_bind; [keeps|]); intros c;
    (destruct (_ <? _); [|keeps]).
  - keeps.
  - apply keeps_cmd_num_bind; [apply keeps_cmd_num_rve_job_commit, Henv|].
    intros r'. destruct (_ <? _); [keeps|].
    apply keeps_cmd_num_bind; [keeps|]. intros _. apply IH.
Qed.

(** Commit of any context, this one included. *)
Lemma stays_configured_commit id envs ok u :
  (forall i, keeps_cmd_num (wait_activity (envs i))) ->
  stays_configured id (rve_job_commit_by_user_ctx envs ok u).
Proof.
  intros Henv. apply stays_configured_keeps.
  intros st a st' H q c Hc. unfold rve_job_commit_by_user_ctx in H.
  rewrite (bind_Ok _ _ _ _ _ (rve_internal_ctx_lookup_Ok _ _)) in H.
  destruct (st_ctxs st !! uc_id u) as [cu|] eqn:Hcu;
    [|injection H as _ <-; eauto].
  destruct (ctx_is_running cu); [injection H as _ <-; eauto|].
  assert (Hk : keeps_cmd_num
            (let* c0 := get_ctx (uc_id u) in
             put_ctx (uc_id u) (ctx_reset c0) ;;;
             let* looped := commit_loop (Z.to_nat (ctx_cmd_num cu)) envs
                              (uc_id u) 0 0 in
             match looped with
             | None => ret (- EFAULT, u)
             | Some r =>
                 let* c' := get_ctx (uc_id u) in
                 emit (EvCopyToUser (ctx_cmd_num c')) ;;;
                 if ok
                 then ret (r, set_uc_out_fence_fd (ctx_out_fence_fd c') u)
                 else ret (- EFAULT, set_uc_out_fence_fd (ctx_out_fence_fd c') u)
             end)).
  { apply keeps_cmd_num_update_ctx; [reflexivity|]. intros _.
    apply keeps_cmd_num_bind; [apply keeps_cmd_num_commit_loop, Henv|].
    intros looped. keeps. }
  apply (Hk st a st'); [|exact Hc].
  rewrite (bind_Ok _ _ _ _ _ (get_ctx_Ok _ _ _ Hcu)). exact H.
Qed.

(** Cancel of another context. *)
Lemma stays_configured_cancel id id' :
  id' <> id -> stays_configured id (rve_job_cancel_by_user_ctx id').
Proof.
  intros Hid. unfold rve_job_cancel_by_user_ctx.
  apply stays_configured_bind.
  { apply stays_configured_keeps, keeps_cmd_num_of_ctxs.
    intros st a st' [= _ <-]. reflexivity. }
  intros [c'|]; [|apply stays_configured_keeps; keeps].
  apply stays_configured_bind; [|intros ?; apply stays_configured_keeps; keeps].
  assert (Hput : forall c0, stays_configured id (put_ctx id' c0)).
  { intros c0 st a st' [= _ <-] c Hc Hn. simpl.
    rewrite lookup_insert_ne by exact Hid. eauto. }
  assert (Hfree : stays_configured id (rve_internal_ctx_free_remove_idr id')).
  { intros st a st' [= _ <-] c Hc Hn. simpl.
    rewrite lookup_delete_ne by exact Hid. eauto. }
  unfold kref_put. apply stays_configured_bind.
  { apply stays_configured_keeps. keeps. }
  intros c0. apply stays_configured_bind; [apply Hput|]. intros _.
  destruct (_ =? 0); [|apply stays_configured_keeps; keeps].
  unfold rve_internal_ctx_kref_release.
  apply stays_configured_bind; [apply stays_configured_keeps; keeps|].
  intros now. apply stays_configured_bind; [apply stays_configured_keeps; keeps|].
  intros c1. apply stays_configured_bind.
  { apply stays_configured_keeps.
    destruct (_ || _); [keeps|].
    apply keeps_cmd_num_bind; [apply keeps_cmd_num_cancel_locked|].
    intros need_reset. apply keeps_cmd_num_bind.
    - destruct need_reset as [job|]; [|keeps].
      apply keeps_cmd_num_bind; [keeps|]. intros _.
      apply keeps_cmd_num_finish_and_next.
    - intros _. keeps. }
  intros _. apply stays_configured_bind; [apply Hfree|].
  intros _. apply stays_configured_keeps. keeps.
Qed.

Lemma commit_events_one_job p c :
  started_jobs (commit_events p c) = [p] /\
  arrays_copied_out (commit_events p c) = [1].
Proof.
  unfold commit_events, fence_signal.
  destruct (ctx_out_fence c); split; reflexivity.
Qed.

(** C10, as the code has it.  A Configure call that succeeds leaves the
    batch count 1 in the context and has copied one command array from
    the caller, whatever count was asked for, and the count stays 1 until
    the context is cancelled.  A later Commit that finds the context
    still running is refused; with no page for the job it is given up;
    otherwise one job is allocated and handed to rve_job_schedule once.
    On an idle engine, with a start that succeeds and the interrupt thread
    reporting the end of the job while the caller sleeps, that job is the
    only one started, one command array is copied back and the call
    returns 0. *)
Theorem configured_batch_count_is_one env u st u' st1 (others : M unit) st2
    envs ok uc :
  RVE_SYNC <> RVE_ASYNC ->
  rve_job_config_by_user_ctx env u st = Ok ((0, u'), st1) ->
  stays_configured (uc_id u) others ->
  others st1 = Ok (tt, st2) ->
  uc_id uc = uc_id u ->
  uc_cmd_num u' = 1 /\
  st_log st1 = EvCopyFromUser 1 :: st_log st /\
  (exists c1, st_ctxs st1 !! uc_id u = Some c1 /\ ctx_cmd_num c1 = 1) /\
  exists c2,
    st_ctxs st2 !! uc_id u = Some c2 /\ ctx_cmd_num c2 = 1 /\
    (ctx_is_running c2 = true ->
     rve_job_commit_by_user_ctx envs ok uc st2 = Ok ((- EFAULT, uc), st2)) /\
    (ctx_is_running c2 = false ->
     match st_pages st2 with
     | [] =>
         rve_job_commit_by_user_ctx envs ok uc st2 =
           Ok ((- EFAULT, uc),
               with_ctxs (<[uc_id u := committed c2]> (st_ctxs st2)) st2)
     | p :: rest =>
         rve_job_commit_by_user_ctx envs ok uc st2 =
           (rve_job_timeout_clean ;;; schedule_locked p ;;; rve_job_next ;;;
            commit_after_schedule envs ok uc p)
             (commit_allocated (uc_id u) c2 p rest st2) /\
         (Z.land RVE_JOB_DONE RVE_ASYNC = 0 ->
          IS_ERR_OR_NULL (uc_id u) = false ->
          ctx_regcmd_data c2 ∈ st_regcmds st2 ->
          running_job (st_sched st2) = None ->
          todo_list (st_sched st2) = [] ->
          0 <= run_result p ->
          wait_activity (envs 0) = rve_job_done 0 ->
          wait_left_time (envs 0) <> 0 ->
          wait_left_time (envs 0) <> - ERESTARTSYS ->
          ok = true ->
          commits_one_job envs ok uc st2 /\
          exists st3,
            rve_job_commit_by_user_ctx envs ok uc st2 =
              Ok ((0, set_uc_out_fence_fd (ctx_out_fence_fd c2) uc), st3) /\
            st_pages st3 = rest /\
            st_log st3 = commit_events p c2 ++ st_log st2 /\
            st_jobs st3 = delete p (st_jobs st2) /\
            running_job (st_sched st3) = None /\
            todo_list (st_sched st3) = [])
     end).
Proof.
  intros Hne Hcfg Hothers Hrun Hid.
  destruct (rve_job_config_by_user_ctx_success _ _ _ _ _ Hcfg)
    as (Hu & Hlog & c1 & Hc1 & Hn1).
  split; [exact Hu|]. split; [exact Hlog|]. split; [eauto|].
  destruct (Hothers _ _ _ Hrun _ Hc1 Hn1) as (c2 & Hc2 & Hn2).
  exists c2. split; [exact Hc2|]. split; [exact Hn2|].
  rewrite <- Hid in *. split.
  - intros Hr. unfold rve_job_commit_by_user_ctx.
    rewrite (bind_Ok _ _ _ _ _ (rve_internal_ctx_lookup_Ok _ _)).
    rewrite Hc2, Hr. reflexivity.
  - intros Hr.
    pose proof (commit_configured envs ok uc st2 c2 Hne Hc2 Hr Hn2) as Heq.
    destruct (st_pages st2) as [|p rest] eqn:Hp; [exact Heq|].
    split; [exact Heq|].
    intros Hbits Hptr Hheap Hslot Htodo Hres Hact Hl0 Hl1 ->.
    destruct (commit_success_path envs true uc st2 c2 p rest Hne Hbits Hc2 Hr
                Hn2 Hptr Hheap Hp Hslot Htodo Hres Hact Hl0 Hl1)
      as (st3 & c3 & Hcommit & Hpages & Hlog3 & Hslot3 & Htodo3 & Hjobs3 & _).
    destruct (commit_events_one_job p c2) as [Hstarted Hcopied].
    split.
    + exists p, 0, (set_uc_out_fence_fd (ctx_out_fence_fd c2) uc), st3,
        (commit_events p c2).
      rewrite Hpages. repeat split; assumption.
    + exists st3. repeat split; assumption.
Qed.

(** *** Completion accounting along the runs of the driver *)

Ltac bind_as H x s Hx :=
  apply bind_Ok_inv in H; destruct H as (x & s & Hx & H).

Lemma tagged_nonneg k jobs l : 0 <= tagged k jobs l.
Proof. induction l as [|p l IH]; simpl; [lia|]. destruct (decide _); lia. Qed.

Lemma in_flight_nonneg k E : 0 <= in_flight k E.
Proof. induction E as [|x E IH]; simpl; [lia|]. destruct (decide _); lia. Qed.

Lemma held_of_nonneg k st : 0 <= held_of k st.
Proof. apply tagged_nonneg. Qed.

Lemma tagged_app k jobs l1 l2 :
  tagged k jobs (l1 ++ l2) = tagged k jobs l1 + tagged k jobs l2.
Proof. induction l1 as [|p l1 IH]; simpl; [lia|]. rewrite IH. lia. Qed.

Lemma tagged_submseteq k jobs l l' :
  l ⊆+ l' -> tagged k jobs l <= tagged k jobs l'.
Proof.
  induction 1; simpl; repeat destruct (decide _); lia.
Qed.

Lemma tagged_perm k jobs l l' :
  l ≡ₚ l' -> tagged k jobs l = tagged k jobs l'.
Proof.
  intros H.
  pose proof (tagged_submseteq k jobs l l' (Permutation_submseteq _ _ H)).
  symmetry in H.
  pose proof (tagged_submseteq k jobs l' l (Permutation_submseteq _ _ H)).
  lia.
Qed.

Lemma tagged_shrink k jobs jobs' l :
  (forall p j', jobs' !! p = Some j' ->
     exists j, jobs !! p = Some j /\ job_ctx j' = job_ctx j) ->
  tagged k jobs' l <= tagged k jobs l.
Proof.
  intros H. induction l as [|p l IH]; simpl; [lia|].
  destruct (decide (job_ctx <$> jobs' !! p = Some k)) as [Hp|Hp];
    [|destruct (decide _); lia].
  destruct (jobs' !! p) as [j'|] eqn:Hj'; [|discriminate].
  destruct (H p j' Hj') as (j & Hj & Hctx). rewrite Hj. simpl in *.
  rewrite <- Hctx. destruct (decide _); [lia|contradiction].
Qed.

Lemma tagged_insert_fresh k jobs p j l :
  p ∉ l -> tagged k (<[p := j]> jobs) l = tagged k jobs l.
Proof.
  induction l as [|q l IH]; intros Hp; simpl; [reflexivity|].
  apply not_elem_of_cons in Hp as [Hne Hp].
  rewrite lookup_insert_ne by exact Hne. rewrite IH by exact Hp. reflexivity.
Qed.

Lemma tagged_live jobs l p j :
  p ∈ l -> jobs !! p = Some j -> 1 <= tagged (job_ctx j) jobs l.
Proof.
  induction l as [|q l IH]; intros Hp Hj; [inversion Hp|]. simpl.
  pose proof (tagged_nonneg (job_ctx j) jobs l).
  apply elem_of_cons in Hp as [<-|Hp].
  - rewrite Hj. simpl. destruct (decide _); [lia|congruence].
  - specialize (IH Hp Hj). destruct (decide _); lia.
Qed.

Lemma settles_refl st : settles st st.
Proof. split; [reflexivity|]. split; [reflexivity|]. eauto. Qed.

Lemma settles_trans st1 st2 st3 :
  settles st1 st2 -> settles st2 st3 -> settles st1 st3.
Proof.
  intros (Hp1 & Hh1 & Hj1) (Hp2 & Hh2 & Hj2).
  split; [congruence|]. split; [etrans; eassumption|].
  intros p j3 H3. destruct (Hj2 p j3 H3) as (j2 & H2 & Hc2 & Hs2).
  destruct (Hj1 p j2 H2) as (j1 & H1 & Hc1 & Hs1).
  exists j1. split; [exact H1|]. split; congruence.
Qed.

Lemma settles_held_of k st st' : settles st st' -> held_of k st' <= held_of k st.
Proof.
  intros (_ & Hh & Hj). unfold held_of.
  pose proof (tagged_submseteq k (st_jobs st') _ _ Hh).
  pose proof (tagged_shrink k (st_jobs st) (st_jobs st') (held_list st)) as Hs.
  assert (tagged k (st_jobs st') (held_list st) <= tagged k (st_jobs st) (held_list st)).
  { apply Hs. intros p j' Hp. destruct (Hj p j' Hp) as (j & ? & ? & _). eauto. }
  lia.
Qed.

Lemma settles_pages_fresh st st' :
  settles st st' -> pages_fresh st -> pages_fresh st'.
Proof.
  intros (Hp & Hh & _) [Hnd Hfresh]. split; rewrite Hp; [exact Hnd|].
  intros p Hin Hheld. apply (Hfresh p Hin).
  exact (elem_of_submseteq _ _ _ Hheld Hh).
Qed.

Lemma settles_jobs_sound st st' :
  settles st st' -> jobs_sound st -> jobs_sound st'.
Proof.
  intros (_ & _ & Hj) Hs p j' Hp.
  destruct (Hj p j' Hp) as (j & Hj0 & Hc & Hsch).
  destruct (Hs p j Hj0). split; congruence.
Qed.

Lemma same_views_refl st : same_views st st.
Proof. intros k. reflexivity. Qed.

Lemma same_views_ctxs st st' : st_ctxs st' = st_ctxs st -> same_views st st'.
Proof. intros H k. rewrite H. reflexivity. Qed.

(** The invariant survives whatever leaves the views of the contexts
    alone and does not raise the load of any of them. *)
Lemma accounting_mono E E' st st' :
  accounting E st ->
  same_views st st' ->
  (forall k, in_flight k E' + held_of k st' <= in_flight k E + held_of k st) ->
  accounting E' st'.
Proof.
  intros Hacc Hv Hload k. specialize (Hacc k). specialize (Hv k).
  specialize (Hload k).
  pose proof (in_flight_nonneg k E'). pose proof (held_of_nonneg k st').
  destruct (st_ctxs st' !! k) as [c'|], (st_ctxs st !! k) as [c|];
    simpl in Hv; try discriminate; [|lia].
  injection Hv as Hid Hfin Hn Hr. rewrite Hid, Hfin, Hn, Hr.
  destruct Hacc as (? & ? & ? & ? & ? & Hrun).
  repeat split; try assumption; try lia.
  intros Hf. specialize (Hrun Hf). lia.
Qed.

Lemma accounting_settles E st st' :
  settles st st' -> same_views st st' -> accounting E st -> accounting E st'.
Proof.
  intros Hs Hv Hacc. apply (accounting_mono E E st st' Hacc Hv).
  intros k. pose proof (settles_held_of k st st' Hs). lia.
Qed.

Lemma accounting_drop x E st : accounting (x :: E) st -> accounting E st.
Proof.
  intros Hacc. apply (accounting_mono _ _ st st Hacc (same_views_refl st)).
  intros k. simpl. destruct (decide _); lia.
Qed.

(** A step that touches the job table only: records are rewritten for
    the same context or deleted. *)
Lemma settles_jobs jobs' st :
  (forall p j', jobs' !! p = Some j' ->
     exists j, st_jobs st !! p = Some j /\
               job_ctx j' = job_ctx j /\ job_scheduler j' = job_scheduler j) ->
  settles st (with_jobs jobs' st).
Proof. intros H. split; [reflexivity|]. split; [reflexivity|]. exact H. Qed.

Lemma shrink_insert (jobs : gmap Z rve_job) p j f :
  jobs !! p = Some j ->
  job_ctx (f j) = job_ctx j -> job_scheduler (f j) = job_scheduler j ->
  forall q j', <[p := f j]> jobs !! q = Some j' ->
    exists j0, jobs !! q = Some j0 /\
               job_ctx j' = job_ctx j0 /\ job_scheduler j' = job_scheduler j0.
Proof.
  intros Hj Hc Hs q j' Hq. apply lookup_insert_Some in Hq as [[<- <-]|[_ Hq]]; eauto.
Qed.

Lemma shrink_delete (jobs : gmap Z rve_job) p :
  forall q j', delete p jobs !! q = Some j' ->
    exists j0, jobs !! q = Some j0 /\
               job_ctx j' = job_ctx j0 /\ job_scheduler j' = job_scheduler j0.
Proof. intros q j' Hq. apply lookup_delete_Some in Hq as [_ Hq]. eauto. Qed.

(** The running job leaves the slot for a finish call. *)
Lemma unslot_accounting job j E st :
  running_job (st_sched st) = Some job ->
  st_jobs st !! job = Some j ->
  accounting E st ->
  accounting (job_ctx j :: E)
    (with_sched (set_running_job None (st_sched st)) st) /\
  settles st (with_sched (set_running_job None (st_sched st)) st).
Proof.
  intros Hslot Hj Hacc.
  set (st' := with_sched _ st).
  assert (Hheld : held_list st = held_list st' ++ [job]).
  { unfold held_list, running_jobs, st'. simpl. rewrite Hslot.
    rewrite app_nil_r. reflexivity. }
  split.
  - apply (accounting_mono E _ st st' Hacc (same_views_refl _)).
    intros k. unfold held_of. rewrite Hheld, tagged_app. simpl.
    change (st_jobs st') with (st_jobs st). rewrite Hj. simpl.
    destruct (decide (job_ctx j = k)), (decide (Some (job_ctx j) = Some k));
      try lia; congruence.
  - split; [reflexivity|]. split; [|eauto].
    rewrite Hheld. apply submseteq_inserts_r. reflexivity.
Qed.

Lemma rve_internal_ctx_signal_skips st job j :
  st_jobs st !! job = Some j ->
  job_scheduler j = false \/ IS_ERR_OR_NULL (job_ctx j) = true ->
  exists a, rve_internal_ctx_signal job st = Ok (a, st).
Proof.
  intros Hj H. unfold rve_internal_ctx_signal.
  rewrite (bind_Ok _ _ _ _ _ (get_job_Ok _ _ _ Hj)).
  destruct (job_scheduler j); simpl; [|eauto].
  destruct H as [H|H]; [discriminate|]. rewrite H. eauto.
Qed.

(** The finish call on a job in flight. *)
Lemma signal_accounting job j E st a st' :
  st_jobs st !! job = Some j ->
  accounting (job_ctx j :: E) st ->
  rve_internal_ctx_signal job st = Ok (a, st') ->
  accounting E st' /\ settles st st'.
Proof.
  intros Hj Hacc Hrun.
  destruct (job_scheduler j) eqn:Hs.
  2: { destruct (rve_internal_ctx_signal_skips st job j Hj (or_introl Hs))
         as [a' Hskip].
       rewrite Hskip in Hrun. injection Hrun as _ <-.
       split; [exact (accounting_drop _ _ _ Hacc)|apply settles_refl]. }
  destruct (IS_ERR_OR_NULL (job_ctx j)) eqn:Hp.
  { destruct (rve_internal_ctx_signal_skips st job j Hj (or_intror Hp))
      as [a' Hskip].
    rewrite Hskip in Hrun. injection Hrun as _ <-.
    split; [exact (accounting_drop _ _ _ Hacc)|apply settles_refl]. }
  pose proof (Hacc (job_ctx j)) as Hk.
  pose proof (in_flight_nonneg (job_ctx j) E) as HE.
  pose proof (held_of_nonneg (job_ctx j) st) as Hh.
  destruct (st_ctxs st !! job_ctx j) as [c|] eqn:Hc.
  2: { simpl in Hk. destruct (decide _); [lia|congruence]. }
  simpl in Hk. destruct (decide (job_ctx j = job_ctx j)); [|congruence].
  destruct Hk as (Hid & Hpos & Hf0 & Hn1 & Hle & _).
  destruct (rve_internal_ctx_signal_last st job j c Hj Hs Hp Hc Hf0
              ltac:(unfold INT_MAX; lia))
    as (st1 & Hsig & Hsched & Hpages & _ & _ & Hctxs & Hjobs).
  rewrite Hsig in Hrun. injection Hrun as _ <-.
  assert (Hset : settles st st1).
  { split; [exact Hpages|]. split.
    - unfold held_list, running_jobs. rewrite Hsched. reflexivity.
    - rewrite Hjobs. destruct (_ =? 0).
      + apply (shrink_insert _ _ _ (set_job_flags _) Hj); reflexivity.
      + apply shrink_delete. }
  split; [|exact Hset].
  intros k. pose proof (settles_held_of k st st1 Hset) as Hmono.
  pose proof (in_flight_nonneg k E). pose proof (held_of_nonneg k st1).
  rewrite Hctxs. destruct (decide (k = job_ctx j)) as [->|Hne].
  - rewrite lookup_insert_eq. simpl. repeat split; try assumption; lia.
  - rewrite lookup_insert_ne by congruence.
    specialize (Hacc k). simpl in Hacc.
    destruct (decide (job_ctx j = k)); [congruence|].
    destruct (st_ctxs st !! k) as [ck|]; [|lia].
    destruct Hacc as (? & ? & ? & ? & ? & Hr).
    repeat split; try assumption; try lia.
    intros Hf. specialize (Hr Hf). lia.
Qed.

Lemma next_job_locked_inv st picked st' :
  next_job_locked st = Ok (picked, st') ->
  (picked = None /\ st' = st) \/
  (exists job rest,
     picked = Some job /\ running_job (st_sched st) = None /\
     todo_list (st_sched st) = job :: rest /\
     st' = with_sched (mk_sched rest (Some job)
                         (int_wrap (job_count (st_sched st) - 1))) st).
Proof.
  unfold next_job_locked, bind, get_sched, put_sched, ret.
  destruct (running_job (st_sched st)) eqn:Hr; [intros [= <- <-]; auto|].
  destruct (todo_list (st_sched st)) as [|job rest] eqn:Ht;
    intros [= <- <-]; [auto|].
  right. exists job, rest. auto.
Qed.

Lemma with_log_accounting E l st :
  accounting E (with_log l st) <-> accounting E st.
Proof. reflexivity. Qed.

Lemma settles_with_log l st : settles st (with_log l st).
Proof. split; [reflexivity|]. split; [reflexivity|]. eauto. Qed.

(** Dispatch. *)
Lemma next_loop_accounting fuel : forall E st st',
  accounting E st ->
  rve_job_next_loop fuel st = Ok (tt, st') ->
  accounting E st' /\ settles st st'.
Proof.
  induction fuel as [|fuel IH]; intros E st st' Hacc Hrun; [discriminate|].
  cbn [rve_job_next_loop] in Hrun.
  bind_as Hrun picked s1 Hpick.
  apply next_job_locked_inv in Hpick
    as [[-> ->]|(job & rest & -> & Hslot & Htodo & ->)].
  { injection Hrun as <-. split; [exact Hacc|apply settles_refl]. }
  set (s1 := with_sched _ st) in Hrun.
  assert (Hperm : held_list s1 ≡ₚ held_list st).
  { unfold held_list, running_jobs, s1. simpl. rewrite Hslot, Htodo.
    rewrite app_nil_r. symmetry. apply Permutation_cons_append. }
  assert (Hset1 : settles st s1).
  { split; [reflexivity|]. split; [apply Permutation_submseteq, Hperm|eauto]. }
  assert (Hacc1 : accounting E s1)
    by exact (accounting_settles E st s1 Hset1 (same_views_refl _) Hacc).
  bind_as Hrun r s2 Hstart.
  destruct (rve_job_run_spec job s1) as [evs Hspec].
  rewrite Hspec in Hstart. injection Hstart as <- <-.
  bind_as Hrun u3 s3 Hret.
  apply modify_job_inv in Hret as (j & Hj & ->).
  set (s3 := with_jobs _ _) in Hrun.
  assert (Hset3 : settles s1 s3).
  { apply (settles_trans _ (with_log (evs ++ st_log s1) s1));
      [apply settles_with_log|].
    apply settles_jobs. apply (shrink_insert _ _ _ (set_job_ret _) Hj); reflexivity. }
  assert (Hacc3 : accounting E s3).
  { apply (accounting_settles E s1 s3 Hset3); [|exact Hacc1].
    apply same_views_ctxs. reflexivity. }
  destruct (run_result job <? 0).
  2: { injection Hrun as <-. split; [exact Hacc3|].
       exact (settles_trans _ _ _ Hset1 Hset3). }
  bind_as Hrun u4 s4 Hclear.
  unfold clear_running_locked, bind, get_sched, put_sched in Hclear.
  injection Hclear as _ <-.
  assert (Hj3 : st_jobs s3 !! job = Some (set_job_ret (run_result job) j))
    by apply lookup_insert_eq.
  destruct (unslot_accounting job _ E s3 eq_refl Hj3 Hacc3) as [Hacc4 Hset4].
  bind_as Hrun r5 s5 Hsig.
  destruct (signal_accounting job _ E
              (with_sched (set_running_job None (st_sched s3)) s3) _ _
              Hj3 Hacc4 Hsig) as [Hacc5 Hset5].
  destruct (IH E s5 st' Hacc5 Hrun) as [Hacc6 Hset6].
  split; [exact Hacc6|].
  exact (settles_trans _ _ _ Hset1
           (settles_trans _ _ _ Hset3
              (settles_trans _ _ _ Hset4 (settles_trans _ _ _ Hset5 Hset6)))).
Qed.

Lemma rve_job_next_accounting E st st' :
  accounting E st ->
  rve_job_next st = Ok (tt, st') ->
  accounting E st' /\ settles st st'.
Proof. intros Hacc Hrun. exact (next_loop_accounting _ E st st' Hacc Hrun). Qed.

Lemma ret_inv {A} (x a : A) st st' : ret x st = Ok (a, st') -> a = x /\ st' = st.
Proof. intros [= <- <-]. auto. Qed.

Lemma emit_inv e a st st' :
  emit e st = Ok (a, st') -> st' = with_log (e :: st_log st) st.
Proof. intros [= _ <-]. reflexivity. Qed.

Lemma ktime_get_inv a st st' : ktime_get st = Ok (a, st') -> st' = st.
Proof. intros [= _ <-]. reflexivity. Qed.

Lemma get_sched_inv a st st' :
  get_sched st = Ok (a, st') -> a = st_sched st /\ st' = st.
Proof. intros [= <- <-]. auto. Qed.

Lemma put_sched_inv s a st st' :
  put_sched s st = Ok (a, st') -> st' = with_sched s st.
Proof. intros [= _ <-]. reflexivity. Qed.

Lemma access_regcmd_inv p a st st' : access_regcmd p st = Ok (a, st') -> st' = st.
Proof.
  unfold access_regcmd. destruct (bool_decide _); [|discriminate].
  intros [= _ <-]. reflexivity.
Qed.

Lemma unslot_settles st :
  settles st (with_sched (set_running_job None (st_sched st)) st).
Proof.
  split; [reflexivity|]. split; [|eauto].
  unfold held_list, running_jobs. simpl.
  apply submseteq_skips_l, submseteq_nil_l.
Qed.

Lemma timeout_clean_locked_inv now st expired st' :
  timeout_clean_locked now st = Ok (expired, st') ->
  (expired = None /\ st' = st) \/
  (exists job j,
     expired = Some job /\ running_job (st_sched st) = Some job /\
     st_jobs st !! job = Some j /\
     st' = with_sched (set_running_job None (st_sched st)) st).
Proof.
  unfold timeout_clean_locked. intros H.
  bind_as H s s0 Hs. apply get_sched_inv in Hs as [-> ->].
  destruct (running_job (st_sched st)) as [job|] eqn:Hslot;
    [|apply ret_inv in H as [-> ->]; auto].
  bind_as H j s1 Hj. apply get_job_inv in Hj as [-> Hj].
  destruct (_ && _).
  - bind_as H u s2 Hput. apply put_sched_inv in Hput as ->.
    apply ret_inv in H as [-> ->]. right. exists job, j. auto.
  - apply ret_inv in H as [-> ->]. auto.
Qed.

(** Timeout cleaning. *)
Lemma timeout_clean_accounting E st st' :
  accounting E st ->
  rve_job_timeout_clean st = Ok (tt, st') ->
  accounting E st' /\ settles st st'.
Proof.
  intros Hacc Hrun. unfold rve_job_timeout_clean in Hrun.
  bind_as Hrun now s0 Hnow. apply ktime_get_inv in Hnow as ->.
  bind_as Hrun expired s1 Hexp.
  apply timeout_clean_locked_inv in Hexp
    as [[-> ->]|(job & j & -> & Hslot & Hj & ->)].
  { apply ret_inv in Hrun as [_ ->]. split; [exact Hacc|apply settles_refl]. }
  destruct (unslot_accounting job j E st Hslot Hj Hacc) as [Hacc1 Hset1].
  bind_as Hrun u2 s2 Hemit. apply emit_inv in Hemit as ->.
  bind_as Hrun r3 s3 Hsig.
  eapply signal_accounting in Hsig as [Hacc3 Hset3]; [|exact Hj|exact Hacc1].
  unfold rve_power_disable in Hrun. apply emit_inv in Hrun as ->.
  split; [exact Hacc3|]. change (settles st s3).
  apply (settles_trans _ _ _ Hset1). exact Hset3.
Qed.

(** The finish path on a job in flight, then dispatch. *)
Lemma finish_and_next_accounting job j r E st st' :
  st_jobs st !! job = Some j ->
  accounting (job_ctx j :: E) st ->
  rve_job_finish_and_next job r st = Ok (tt, st') ->
  accounting E st' /\ settles st st'.
Proof.
  intros Hj Hacc Hrun. unfold rve_job_finish_and_next in Hrun.
  bind_as Hrun now s0 Hnow. apply ktime_get_inv in Hnow as ->.
  bind_as Hrun u1 s1 Hret. apply modify_job_inv in Hret as (j0 & Hj0 & ->).
  rewrite Hj in Hj0. injection Hj0 as <-.
  set (s1 := with_jobs _ st) in Hrun.
  assert (Hset1 : settles st s1).
  { apply settles_jobs.
    apply (shrink_insert _ _ _ (set_job_ret r) Hj); reflexivity. }
  assert (Hacc1 : accounting (job_ctx j :: E) s1).
  { apply (accounting_settles _ st s1 Hset1); [|exact Hacc].
    apply same_views_ctxs. reflexivity. }
  assert (Hj1 : st_jobs s1 !! job = Some (set_job_ret r j))
    by apply lookup_insert_eq.
  bind_as Hrun r2 s2 Hsig.
  eapply signal_accounting in Hsig as [Hacc2 Hset2]; [|exact Hj1|exact Hacc1].
  bind_as Hrun u3 s3 Hnext. destruct u3.
  destruct (rve_job_next_accounting E _ _ Hacc2 Hnext) as [Hacc3 Hset3].
  unfold rve_power_disable in Hrun. apply emit_inv in Hrun as ->.
  split; [exact Hacc3|]. change (settles st s3).
  apply (settles_trans _ _ _ Hset1). apply (settles_trans _ _ _ Hset2).
  exact Hset3.
Qed.

Lemma job_done_locked_inv st job st' :
  job_done_locked st = Ok (job, st') ->
  running_job (st_sched st) = Some job /\
  (exists j, st_jobs st !! job = Some j) /\
  st' = with_sched (set_running_job None (st_sched st)) st.
Proof.
  unfold job_done_locked. intros H.
  bind_as H s s0 Hs. apply get_sched_inv in Hs as [-> ->].
  bind_as H u s1 Hput. apply put_sched_inv in Hput as ->.
  destruct (running_job (st_sched st)) as [job'|]; [|discriminate].
  bind_as H j s2 Hj. apply get_job_inv in Hj as [-> Hj].
  apply ret_inv in H as [-> ->]. eauto.
Qed.

(** The interrupt thread. *)
Lemma rve_job_done_accounting r st st' :
  accounting [] st ->
  rve_job_done r st = Ok (tt, st') ->
  accounting [] st' /\ settles st st'.
Proof.
  intros Hacc Hrun. unfold rve_job_done in Hrun.
  bind_as Hrun now s0 Hnow. apply ktime_get_inv in Hnow as ->.
  bind_as Hrun job s1 Hdone.
  apply job_done_locked_inv in Hdone as (Hslot & [j Hj] & ->).
  destruct (unslot_accounting job j [] st Hslot Hj Hacc) as [Hacc1 Hset1].
  bind_as Hrun j' s2 Hj'. apply get_job_inv in Hj' as [-> Hj'].
  simpl in Hj'. rewrite Hj in Hj'. injection Hj' as <-.
  bind_as Hrun c s3 Hc. apply get_ctx_inv in Hc as [-> _].
  bind_as Hrun u4 s4 Hmem. apply access_regcmd_inv in Hmem as ->.
  bind_as Hrun u5 s5 Hemit. apply emit_inv in Hemit as ->.
  eapply finish_and_next_accounting in Hrun as [Hacc2 Hset2];
    [|exact Hj|exact Hacc1].
  split; [exact Hacc2|].
  apply (settles_trans _ _ _ Hset1). exact Hset2.
Qed.

Lemma rewrites_jobs_refl st : rewrites_jobs st st.
Proof. repeat split; eauto. Qed.

Lemma rewrites_jobs_trans st1 st2 st3 :
  rewrites_jobs st1 st2 -> rewrites_jobs st2 st3 -> rewrites_jobs st1 st3.
Proof.
  intros (Hs1 & Hc1 & Hp1 & Hj1) (Hs2 & Hc2 & Hp2 & Hj2).
  split; [congruence|]. split; [congruence|]. split; [congruence|].
  intros p j3 H3. destruct (Hj2 p j3 H3) as (j2 & H2 & Hx2 & Hy2).
  destruct (Hj1 p j2 H2) as (j1 & H1 & Hx1 & Hy1).
  exists j1. split; [exact H1|]. split; congruence.
Qed.

Lemma todo_bump_inv l : forall st a st',
  todo_bump l st = Ok (a, st') -> rewrites_jobs st st'.
Proof.
  induction l as [|p l IH]; intros st a st' H; simpl in H.
  - apply ret_inv in H as [_ ->]. apply rewrites_jobs_refl.
  - bind_as H u s1 Hmod. apply modify_job_inv in Hmod as (j & Hj & ->).
    apply IH in H. refine (rewrites_jobs_trans _ _ _ _ H).
    split; [reflexivity|]. split; [reflexivity|]. split; [reflexivity|].
    apply (shrink_insert _ _ _ priority_inc Hj); reflexivity.
Qed.

Lemma todo_scan_inv job l : forall st r st',
  todo_scan job l st = Ok (r, st') ->
  rewrites_jobs st st' /\
  match r with Some l' => l' ≡ₚ job :: l | None => True end.
Proof.
  induction l as [|pos l IH]; intros st r st' H; cbn [todo_scan] in H.
  - apply ret_inv in H as [-> ->]. split; [apply rewrites_jobs_refl|exact I].
  - bind_as H j s1 Hj. apply get_job_inv in Hj as [-> Hj].
    bind_as H jp s2 Hjp. apply get_job_inv in Hjp as [-> Hjp].
    destruct (job_priority j >? job_priority jp).
    + bind_as H u s3 Hbump. apply todo_bump_inv in Hbump.
      apply ret_inv in H as [-> ->]. split; [exact Hbump|apply perm_swap].
    + bind_as H r' s3 Hscan. apply IH in Hscan as [Hrw Hperm].
      apply ret_inv in H as [-> ->]. split; [exact Hrw|].
      destruct r' as [l'|]; simpl; [|exact I].
      rewrite Hperm. apply perm_swap.
Qed.

Lemma schedule_locked_inv job st st' :
  schedule_locked job st = Ok (tt, st') ->
  exists s1 todo',
    rewrites_jobs st s1 /\
    todo' ≡ₚ job :: todo_list (st_sched st) /\
    is_Some (st_jobs st !! job) /\
    st' = with_sched (mk_sched todo' (running_job (st_sched st))
                        (int_wrap (job_count (st_sched st) + 1))) s1.
Proof.
  unfold schedule_locked. intros H.
  bind_as H s s0 Hs. apply get_sched_inv in Hs as [-> ->].
  bind_as H j s1 Hj. apply get_job_inv in Hj as [-> Hj].
  bind_as H todo s2 Htodo. apply put_sched_inv in H as ->.
  assert (Happ : todo_list (st_sched st) ++ [job] ≡ₚ job :: todo_list (st_sched st)).
  { symmetry. apply Permutation_cons_append. }
  exists s2, todo. split; [|split; [|split; [eauto|reflexivity]]].
  - destruct (todo_list (st_sched st)) as [|x l] eqn:Hl.
    + apply ret_inv in Htodo as [_ ->]. apply rewrites_jobs_refl.
    + destruct (_ =? _).
      * apply ret_inv in Htodo as [_ ->]. apply rewrites_jobs_refl.
      * bind_as Htodo r s3 Hscan. apply todo_scan_inv in Hscan as [Hrw _].
        destruct r; apply ret_inv in Htodo as [_ ->]; exact Hrw.
  - destruct (todo_list (st_sched st)) as [|x l] eqn:Hl.
    + apply ret_inv in Htodo as [-> _]. exact Happ.
    + destruct (_ =? _).
      * apply ret_inv in Htodo as [-> _]. exact Happ.
      * bind_as Htodo r s3 Hscan. apply todo_scan_inv in Hscan as [_ Hperm].
        destruct r; apply ret_inv in Htodo as [-> _]; [exact Hperm|exact Happ].
Qed.

(** Enqueue of a job in flight. *)
Lemma schedule_locked_accounting job j E st st' :
  st_jobs st !! job = Some j ->
  accounting (job_ctx j :: E) st ->
  schedule_locked job st = Ok (tt, st') ->
  accounting E st' /\
  held_list st' ≡ₚ job :: held_list st /\
  st_pages st' = st_pages st /\
  forall p j', st_jobs st' !! p = Some j' ->
    exists j0, st_jobs st !! p = Some j0 /\
               job_ctx j' = job_ctx j0 /\ job_scheduler j' = job_scheduler j0.
Proof.
  intros Hj Hacc Hrun.
  apply schedule_locked_inv in Hrun
    as (s1 & todo' & (Hsched & Hctxs & Hpages & Hshrink) & Hperm & _ & ->).
  assert (Hheld : held_list
            (with_sched (mk_sched todo' (running_job (st_sched st))
                           (int_wrap (job_count (st_sched st) + 1))) s1)
          ≡ₚ job :: held_list st).
  { unfold held_list, running_jobs. simpl. rewrite Hperm. reflexivity. }
  split; [|split; [exact Hheld|split; [exact Hpages|exact Hshrink]]].
  apply (accounting_mono _ E st _ Hacc).
  - apply same_views_ctxs. exact Hctxs.
  - intros k. unfold held_of. rewrite (tagged_perm _ _ _ _ Hheld).
    change (st_jobs (with_sched _ s1)) with (st_jobs s1).
    pose proof (tagged_shrink k (st_jobs st) (st_jobs s1) (job :: held_list st))
      as Hle.
    assert (tagged k (st_jobs s1) (job :: held_list st)
            <= tagged k (st_jobs st) (job :: held_list st)).
    { apply Hle. intros p j' Hp. destruct (Hshrink p j' Hp) as (j0 & ? & ? & _).
      eauto. }
    simpl in *. rewrite Hj in *. simpl in *.
    destruct (decide (job_ctx j = k)), (decide (Some (job_ctx j) = Some k));
      try lia; congruence.
Qed.

Ltac settles_same := split; [reflexivity|split; [reflexivity|eauto]].

Lemma put_ctx_inv p c a st st' :
  put_ctx p c st = Ok (a, st') -> st' = with_ctxs (<[p := c]> (st_ctxs st)) st.
Proof. intros [= _ <-]. reflexivity. Qed.

Lemma driver_inv_settles st st' :
  settles st st' -> same_views st st' -> driver_inv st -> driver_inv st'.
Proof.
  intros Hs Hv (Ha & Hp & Hj).
  split; [exact (accounting_settles [] _ _ Hs Hv Ha)|].
  split; [exact (settles_pages_fresh _ _ Hs Hp)|].
  exact (settles_jobs_sound _ _ Hs Hj).
Qed.

Lemma rve_job_cleanup_settles job st a st' :
  rve_job_cleanup job st = Ok (a, st') ->
  settles st st' /\ st_ctxs st' = st_ctxs st.
Proof.
  unfold rve_job_cleanup, rve_job_free, bind, ktime_get, get_job, emit,
    del_job, ret.
  destruct (st_jobs st !! job) as [j|]; [|discriminate].
  destruct (job_out_fence j); intros [= _ <-]; (split; [|reflexivity]);
    (split; [reflexivity|]); (split; [reflexivity|]); simpl;
    apply shrink_delete.
Qed.

Lemma rve_running_job_abort_settles job st a st' :
  rve_running_job_abort job st = Ok (a, st') ->
  settles st st' /\ st_ctxs st' = st_ctxs st.
Proof.
  unfold rve_running_job_abort, abort_locked. intros H.
  bind_as H u1 s1 Hab. bind_as Hab s s0 Hs.
  apply get_sched_inv in Hs as [-> ->].
  bind_as H r2 s2 Hclean. apply ret_inv in H as [_ ->].
  apply rve_job_cleanup_settles in Hclean as [Hset Hctx].
  destruct (decide _).
  - apply put_sched_inv in Hab as ->. split; [|exact Hctx].
    exact (settles_trans _ _ _ (unslot_settles st) Hset).
  - apply ret_inv in Hab as [_ ->]. auto.
Qed.

Lemma rve_job_wait_settles job left_time st a st' :
  rve_job_wait job left_time st = Ok (a, st') ->
  settles st st' /\ st_ctxs st' = st_ctxs st.
Proof.
  unfold rve_job_wait, bind, emit, ktime_get, ret.
  destruct (left_time =? 0); [|destruct (left_time =? _)];
    intros [= _ <-]; (split; [settles_same|reflexivity]).
Qed.

Lemma accounting_put_ctx E st id c c' :
  accounting E st ->
  st_ctxs st !! id = Some c ->
  ctx_id c' = ctx_id c ->
  0 <= ctx_finished_job_count c' ->
  ctx_cmd_num c' <= 1 ->
  ctx_finished_job_count c' + (in_flight id E + held_of id st) <= ctx_cmd_num c' ->
  (ctx_is_running c' = false -> in_flight id E + held_of id st = 0) ->
  accounting E (with_ctxs (<[id := c']> (st_ctxs st)) st).
Proof.
  intros Hacc Hc Hid H0 H1 Hle Hr k. simpl.
  destruct (decide (k = id)) as [->|Hne].
  - rewrite lookup_insert_eq. specialize (Hacc id). rewrite Hc in Hacc.
    destruct Hacc as (Hidc & Hpos & _).
    change (held_of id (with_ctxs _ st)) with (held_of id st).
    repeat split; try assumption. congruence.
  - rewrite lookup_insert_ne by congruence. exact (Hacc k).
Qed.

Lemma driver_inv_put_ctx st id c c' :
  driver_inv st ->
  st_ctxs st !! id = Some c ->
  ctx_id c' = ctx_id c ->
  0 <= ctx_finished_job_count c' ->
  ctx_cmd_num c' <= 1 ->
  ctx_finished_job_count c' + held_of id st <= ctx_cmd_num c' ->
  (ctx_is_running c' = false -> held_of id st = 0) ->
  driver_inv (with_ctxs (<[id := c']> (st_ctxs st)) st).
Proof.
  intros (Ha & Hp & Hj) Hc Hid H0 H1 Hle Hr.
  split; [|split; [exact Hp|exact Hj]].
  apply (accounting_put_ctx [] st id c c' Ha Hc Hid H0 H1); simpl; [lia|].
  intros Hf. specialize (Hr Hf). lia.
Qed.

Lemma driver_inv_same_view st id c c' :
  driver_inv st ->
  st_ctxs st !! id = Some c ->
  ctx_view c' = ctx_view c ->
  driver_inv (with_ctxs (<[id := c']> (st_ctxs st)) st).
Proof.
  intros Hinv Hc Hv. apply (driver_inv_settles st); [settles_same| |exact Hinv].
  intros k. simpl. destruct (decide (k = id)) as [->|Hne].
  - rewrite lookup_insert_eq, Hc. simpl. rewrite Hv. reflexivity.
  - rewrite lookup_insert_ne by congruence. reflexivity.
Qed.

Lemma commit_tail_driver_inv envs ok u r st x st' :
  driver_inv st ->
  commit_tail envs ok u r st = Ok (x, st') ->
  driver_inv st'.
Proof.
  unfold commit_tail. intros Hinv H.
  bind_as H u1 s1 Hmod. apply modify_ctx_inv in Hmod as (c & Hc & ->).
  bind_as H looped s2 Hloop. cbn [commit_loop] in Hloop.
  bind_as Hloop c1 s3 Hc1. apply get_ctx_inv in Hc1 as [-> _].
  destruct (_ <? _); [discriminate|]. apply ret_inv in Hloop as [-> ->].
  bind_as H c2 s4 Hc2. apply get_ctx_inv in Hc2 as [-> _].
  bind_as H u5 s5 Hemit. apply emit_inv in Hemit as ->.
  assert (Hst : st' = with_log
            (EvCopyToUser (ctx_cmd_num c2) ::
             st_log (with_ctxs (<[uc_id u := set_ctx_running_job_count
                (int_wrap (ctx_running_job_count c + 1)) c]> (st_ctxs st)) st))
            (with_ctxs (<[uc_id u := set_ctx_running_job_count
                (int_wrap (ctx_running_job_count c + 1)) c]> (st_ctxs st)) st)).
  { destruct ok; apply ret_inv in H as [_ ->]; reflexivity. }
  rewrite Hst.
  exact (driver_inv_same_view st (uc_id u) c
           (set_ctx_running_job_count (int_wrap (ctx_running_job_count c + 1)) c)
           Hinv Hc eq_refl).
Qed.

(** The state in which Commit hands its job to rve_job_schedule. *)
Lemma commit_allocated_inv id c p rest st :
  driver_inv st ->
  st_ctxs st !! id = Some c ->
  ctx_is_running c = false ->
  ctx_cmd_num c = 1 ->
  st_pages st = p :: rest ->
  accounting [id] (commit_allocated id c p rest st) /\
  jobs_sound (commit_allocated id c p rest st) /\
  NoDup rest /\ (p ∉ rest) /\
  forall q, q ∈ p :: rest -> q ∉ held_list st.
Proof.
  intros (Hacc & [Hnd Hfresh] & Hsound) Hc Hrun Hn Hp.
  rewrite Hp in Hnd, Hfresh. apply NoDup_cons in Hnd as [Hp_rest Hnd].
  assert (Hp_held : p ∉ held_list st) by (apply Hfresh; left).
  pose proof (Hacc id) as Hid. rewrite Hc in Hid.
  destruct Hid as (Hidc & Hpos & Hf0 & _ & _ & Hload).
  specialize (Hload Hrun). simpl in Hload.
  assert (Hheld : forall k,
            held_of k (commit_allocated id c p rest st) = held_of k st).
  { intros k.
    exact (tagged_insert_fresh k (st_jobs st) p _ (held_list st) Hp_held). }
  split; [|split; [|split; [exact Hnd|split; [exact Hp_rest|exact Hfresh]]]].
  - intros k. rewrite Hheld. simpl.
    destruct (decide (k = id)) as [->|Hne].
    + rewrite lookup_insert_eq. simpl.
      destruct (decide (id = id)); [|congruence].
      repeat split; try assumption; try lia; try discriminate.
    + rewrite lookup_insert_ne by congruence.
      destruct (decide (id = k)); [congruence|]. exact (Hacc k).
  - intros q j Hq. simpl in Hq.
    apply lookup_insert_Some in Hq as [[<- <-]|[_ Hq]]; [|exact (Hsound q j Hq)].
    simpl. split; [reflexivity|exact Hpos].
Qed.

Lemma commit_scheduled_inv id c p rest st s1 s2 s3 :
  driver_inv st ->
  st_ctxs st !! id = Some c ->
  ctx_is_running c = false ->
  ctx_cmd_num c = 1 ->
  st_pages st = p :: rest ->
  rve_job_timeout_clean (commit_allocated id c p rest st) = Ok (tt, s1) ->
  schedule_locked p s1 = Ok (tt, s2) ->
  rve_job_next s2 = Ok (tt, s3) ->
  driver_inv s3.
Proof.
  intros Hinv Hc Hrun Hn Hp Hclean Hsched Hnext.
  destruct (commit_allocated_inv id c p rest st Hinv Hc Hrun Hn Hp)
    as (Hacc0 & Hsound0 & Hnd & Hp_rest & Hfresh).
  set (s0 := commit_allocated id c p rest st) in *.
  destruct (timeout_clean_accounting [id] s0 s1 Hacc0 Hclean) as [Hacc1 Hset1].
  pose proof (schedule_locked_inv p s1 s2 Hsched) as (_ & _ & _ & _ & [j1 Hj1] & _).
  destruct Hset1 as (Hpages1 & Hheld1 & Hshrink1).
  destruct (Hshrink1 p j1 Hj1) as (j0 & Hj0 & Hctx1 & _).
  assert (Hj0' : st_jobs s0 !! p =
                 Some (allocated_job id (committed c) (st_clock st)))
    by apply lookup_insert_eq.
  rewrite Hj0' in Hj0. injection Hj0 as <-. simpl in Hctx1.
  rewrite <- Hctx1 in Hacc1.
  destruct (schedule_locked_accounting p j1 [] s1 s2 Hj1 Hacc1 Hsched)
    as (Hacc2 & Hheld2 & Hpages2 & Hshrink2).
  destruct (rve_job_next_accounting [] s2 s3 Hacc2 Hnext) as [Hacc3 Hset3].
  split; [exact Hacc3|].
  assert (Hsound1 : jobs_sound s1).
  { intros q j Hq. destruct (Hshrink1 q j Hq) as (j' & Hq' & Hx & Hy).
    destruct (Hsound0 q j' Hq'). split; congruence. }
  assert (Hsound2 : jobs_sound s2).
  { intros q j Hq. destruct (Hshrink2 q j Hq) as (j' & Hq' & Hx & Hy).
    destruct (Hsound1 q j' Hq'). split; congruence. }
  assert (Hfresh2 : pages_fresh s2).
  { split; rewrite Hpages2, Hpages1; [exact Hnd|].
    intros q Hq Hheld. rewrite Hheld2 in Hheld.
    apply elem_of_cons in Hheld as [->|Hheld]; [contradiction|].
    apply (Hfresh q); [right; exact Hq|].
    exact (elem_of_submseteq _ _ _ Hheld Hheld1). }
  split; [exact (settles_pages_fresh _ _ Hset3 Hfresh2)|].
  exact (settles_jobs_sound _ _ Hset3 Hsound2).
Qed.

(** Commit up to its sleep. *)
Lemma commit_asleep_inv id c p rest st s1 :
  driver_inv st ->
  st_ctxs st !! id = Some c ->
  ctx_is_running c = false ->
  ctx_cmd_num c = 1 ->
  st_pages st = p :: rest ->
  rve_job_schedule p (commit_allocated id c p rest st) = Ok (true, s1) ->
  driver_inv s1.
Proof.
  intros Hinv Hc Hrun Hn Hp Hsched. unfold rve_job_schedule in Hsched.
  bind_as Hsched j s0 Hj. apply get_job_inv in Hj as [-> _].
  destruct (negb _); [apply ret_inv in Hsched as [Hf _]; discriminate|].
  bind_as Hsched u1 t1 H1. bind_as Hsched u2 t2 H2. bind_as Hsched u3 t3 H3.
  apply ret_inv in Hsched as [_ ->]. destruct u1, u2, u3.
  exact (commit_scheduled_inv id c p rest st t1 t2 t3 Hinv Hc Hrun Hn Hp H1 H2 H3).
Qed.

(** Commit. *)
Lemma commit_driver_inv envs ok u st a st' :
  RVE_SYNC <> RVE_ASYNC ->
  (forall s s', wait_activity (envs 0) s = Ok (tt, s') ->
     driver_inv s -> driver_inv s') ->
  driver_inv st ->
  rve_job_commit_by_user_ctx envs ok u st = Ok (a, st') ->
  driver_inv st'.
Proof.
  intros Hne Hwait Hinv Hrun.
  destruct (st_ctxs st !! uc_id u) as [c|] eqn:Hc.
  2: { unfold rve_job_commit_by_user_ctx in Hrun.
       rewrite (bind_Ok _ _ _ _ _ (rve_internal_ctx_lookup_Ok _ _)) in Hrun.
       rewrite Hc in Hrun. apply ret_inv in Hrun as [_ ->]. exact Hinv. }
  destruct (ctx_is_running c) eqn:Hr.
  { unfold rve_job_commit_by_user_ctx in Hrun.
    rewrite (bind_Ok _ _ _ _ _ (rve_internal_ctx_lookup_Ok _ _)) in Hrun.
    rewrite Hc, Hr in Hrun. apply ret_inv in Hrun as [_ ->]. exact Hinv. }
  pose proof Hinv as (Hacc & _ & _).
  pose proof (Hacc (uc_id u)) as Hid. rewrite Hc in Hid.
  destruct Hid as (Hidc & Hpos & Hf0 & Hn1 & Hle & Hload).
  specialize (Hload Hr). simpl in Hload, Hle.
  pose proof (held_of_nonneg (uc_id u) st) as Hnn.
  assert (Hmark : forall c', ctx_id c' = ctx_id c ->
            ctx_finished_job_count c' = 0 -> ctx_cmd_num c' = ctx_cmd_num c ->
            driver_inv (with_ctxs (<[uc_id u := c']> (st_ctxs st)) st)).
  { intros c' H1 H2 H3.
    apply (driver_inv_put_ctx st (uc_id u) c c' Hinv Hc H1); lia. }
  assert (Hcases : ctx_cmd_num c = 0 \/ ctx_cmd_num c = 1) by lia.
  destruct Hcases as [Hn|Hn].
  - unfold rve_job_commit_by_user_ctx in Hrun.
    rewrite (bind_Ok _ _ _ _ _ (rve_internal_ctx_lookup_Ok _ _)) in Hrun.
    rewrite Hc, Hr, Hn in Hrun. change (Z.to_nat 0) with 0%nat in Hrun.
    bind_as Hrun u1 s1 Hput. apply put_ctx_inv in Hput as ->.
    bind_as Hrun looped s2 Hloop. cbn [commit_loop] in Hloop.
    bind_as Hloop c1 s3 Hc1. apply get_ctx_inv in Hc1 as [-> _].
    destruct (_ <? _); [discriminate|]. apply ret_inv in Hloop as [-> ->].
    bind_as Hrun c2 s4 Hc2. apply get_ctx_inv in Hc2 as [-> _].
    bind_as Hrun u5 s5 Hemit. apply emit_inv in Hemit as ->.
    assert (Hst : driver_inv
              (with_ctxs (<[uc_id u := ctx_reset c]> (st_ctxs st)) st))
      by (apply Hmark; reflexivity).
    destruct ok; apply ret_inv in Hrun as [_ ->]; exact Hst.
  - rewrite (commit_configured envs ok u st c Hne Hc Hr Hn) in Hrun.
    destruct (st_pages st) as [|p rest] eqn:Hp.
    { injection Hrun as _ <-. apply Hmark; reflexivity. }
    bind_as Hrun u1 s1 H1. bind_as Hrun u2 s2 H2. bind_as Hrun u3 s3 H3.
    destruct u1, u2, u3.
    pose proof (commit_scheduled_inv (uc_id u) c p rest st s1 s2 s3
                  Hinv Hc Hr Hn Hp H1 H2 H3) as Hinv3.
    unfold commit_after_schedule in Hrun.
    bind_as Hrun j s4 Hj. apply get_job_inv in Hj as [-> _].
    destruct (job_ret j <? 0).
    { bind_as Hrun u5 s5 Hab. apply ret_inv in Hrun as [_ ->].
      apply rve_running_job_abort_settles in Hab as [Hset Hctx].
      exact (driver_inv_settles _ _ Hset (same_views_ctxs _ _ Hctx) Hinv3). }
    bind_as Hrun u5 s5 Hact. destruct u5.
    pose proof (Hwait _ _ Hact Hinv3) as Hinv5.
    bind_as Hrun r s6 Hw.
    apply rve_job_wait_settles in Hw as [Hset6 Hctx6].
    pose proof (driver_inv_settles _ _ Hset6 (same_views_ctxs _ _ Hctx6) Hinv5)
      as Hinv6.
    destruct (r <? 0).
    { bind_as Hrun u7 s7 Hab. apply ret_inv in Hrun as [_ ->].
      apply rve_running_job_abort_settles in Hab as [Hset Hctx].
      exact (driver_inv_settles _ _ Hset (same_views_ctxs _ _ Hctx) Hinv6). }
    bind_as Hrun r7 s7 Hclean.
    apply rve_job_cleanup_settles in Hclean as [Hset7 Hctx7].
    pose proof (driver_inv_settles _ _ Hset7 (same_views_ctxs _ _ Hctx7) Hinv6)
      as Hinv7.
    exact (commit_tail_driver_inv envs ok u r s7 _ _ Hinv7 Hrun).
Qed.

Lemma kmalloc_done_inv p a st st' :
  kmalloc_done p st = Ok (a, st') ->
  st' = with_regcmds ({[p]} ∪ st_regcmds st) st.
Proof. intros [= _ <-]. reflexivity. Qed.

Lemma kfree_inv p a st st' :
  kfree p st = Ok (a, st') ->
  st' = with_regcmds (st_regcmds st ∖ {[p]}) (with_log (EvKfree p :: st_log st) st).
Proof. intros [= _ <-]. reflexivity. Qed.

(** Configure. *)
Lemma config_driver_inv env u st a st' :
  driver_inv st ->
  rve_job_config_by_user_ctx env u st = Ok (a, st') ->
  driver_inv st'.
Proof.
  intros Hinv H. unfold rve_job_config_by_user_ctx in H.
  rewrite (bind_Ok _ _ _ _ _ (rve_internal_ctx_lookup_Ok _ _)) in H.
  destruct (st_ctxs st !! uc_id u) as [c|] eqn:Hc;
    [|apply ret_inv in H as [_ ->]; exact Hinv].
  destruct (ctx_is_running c) eqn:Hr;
    [apply ret_inv in H as [_ ->]; exact Hinv|].
  destruct (kmalloc_regcmd env) as [regcmd|];
    [|apply ret_inv in H as [_ ->]; exact Hinv].
  bind_as H u1 s1 Hk. apply kmalloc_done_inv in Hk as ->.
  bind_as H u2 s2 Hemit. apply emit_inv in Hemit as ->.
  destruct (copy_from_user_ok env).
  - bind_as H u3 s3 Hmod. apply modify_ctx_inv in Hmod as (c0 & Hc0 & ->).
    apply ret_inv in H as [_ ->].
    simpl in Hc0. rewrite Hc in Hc0. injection Hc0 as <-.
    pose proof Hinv as (Hacc & _ & _).
    pose proof (Hacc (uc_id u)) as Hid. rewrite Hc in Hid.
    destruct Hid as (_ & _ & Hf0 & Hn1 & Hle & Hload).
    specialize (Hload Hr). simpl in Hload, Hle.
    pose proof (held_of_nonneg (uc_id u) st).
    refine (driver_inv_put_ctx
              (with_log _ (with_regcmds _ st)) (uc_id u) c _ Hinv Hc _ _ _ _ _);
      simpl; try reflexivity; try lia.
    + change (held_of (uc_id u) (with_log _ (with_regcmds _ st)))
        with (held_of (uc_id u) st). lia.
    + intros _. change (held_of (uc_id u) (with_log _ (with_regcmds _ st)))
        with (held_of (uc_id u) st). lia.
  - bind_as H u3 s3 Hfree. apply kfree_inv in Hfree as ->.
    apply ret_inv in H as [_ ->]. exact Hinv.
Qed.

(** Start. *)
Lemma start_driver_inv env st a st' :
  idr_answer_ok env st ->
  driver_inv st ->
  rve_internal_ctx_alloc_to_get_idr_id env st = Ok (a, st') ->
  driver_inv st'.
Proof.
  intros Hidr Hinv H. unfold rve_internal_ctx_alloc_to_get_idr_id in H.
  destruct (negb (kzalloc_ctx_ok env));
    [apply ret_inv in H as [_ ->]; exact Hinv|].
  destruct (negb (ctx_manager_present env));
    [apply ret_inv in H as [_ ->]; exact Hinv|].
  injection H as _ <-.
  destruct (idr_alloc_id env <? 0) eqn:Hneg; [exact Hinv|].
  destruct Hidr as [Hpos Hnone]; [lia|].
  destruct Hinv as (Ha & Hp & Hj). split; [|split; [exact Hp|exact Hj]].
  intros k. simpl. destruct (decide (k = idr_alloc_id env)) as [->|Hne].
  - rewrite lookup_insert_eq. specialize (Ha (idr_alloc_id env)).
    rewrite Hnone in Ha. simpl in *.
    change (held_of (idr_alloc_id env) (with_ctx_count _ (with_ctxs _ st)))
      with (held_of (idr_alloc_id env) st).
    repeat split; try lia.
  - rewrite lookup_insert_ne by congruence. exact (Ha k).
Qed.

Lemma cancel_todo_inv id l : forall cnt st l' cnt' st',
  (forall k c, st_ctxs st !! k = Some c -> ctx_id c = k) ->
  cancel_todo id l cnt st = Ok ((l', cnt'), st') ->
  st' = st /\ l' ⊆+ l /\ tagged id (st_jobs st) l' = 0 /\
  forall k, k <> id -> tagged k (st_jobs st) l' = tagged k (st_jobs st) l.
Proof.
  induction l as [|p l IH]; intros cnt st l' cnt' st' Hids H;
    cbn [cancel_todo] in H.
  - apply ret_inv in H as [H ->]. injection H as -> ->.
    split; [reflexivity|]. split; [reflexivity|]. split; [reflexivity|auto].
  - bind_as H jp s1 Hjp. apply get_job_inv in Hjp as [-> Hjp].
    bind_as H cp s2 Hcp. apply get_ctx_inv in Hcp as [-> Hcp].
    pose proof (Hids _ _ Hcp) as Hcid.
    destruct (id =? ctx_id cp) eqn:Heq.
    + apply Z.eqb_eq in Heq.
      apply IH in H as (-> & Hsub & H0 & Hk); [|exact Hids].
      split; [reflexivity|]. split; [apply submseteq_cons; exact Hsub|].
      split; [exact H0|].
      intros k Hk'. simpl. rewrite Hjp. simpl. rewrite (Hk k Hk').
      destruct (decide _) as [e|]; [|lia]. injection e as e. congruence.
    + apply Z.eqb_neq in Heq. bind_as H r s3 Hrec. destruct r as [l'' cnt''].
      apply IH in Hrec as (-> & Hsub & H0 & Hk); [|exact Hids].
      apply ret_inv in H as [H ->]. simpl in H. injection H as -> ->.
      split; [reflexivity|]. split; [apply submseteq_skip; exact Hsub|].
      simpl. rewrite Hjp. simpl. split.
      * rewrite H0. destruct (decide _) as [e|]; [|lia].
        injection e as e. congruence.
      * intros k Hk'. rewrite (Hk k Hk'). reflexivity.
Qed.

(** The locked region of Cancel: the jobs of the context leave the
    scheduler, the running one for a finish call. *)
Lemma cancel_locked_accounting ctx c st need st' :
  accounting [] st ->
  st_ctxs st !! ctx = Some c ->
  cancel_locked ctx st = Ok (need, st') ->
  settles st st' /\ st_ctxs st' = st_ctxs st /\ held_of ctx st' = 0 /\
  match need with
  | None => accounting [] st'
  | Some job =>
      exists j, st_jobs st' !! job = Some j /\ job_ctx j = ctx /\
                accounting [ctx] st'
  end.
Proof.
  intros Hacc Hc H. unfold cancel_locked in H.
  assert (Hids : forall k ck, st_ctxs st !! k = Some ck -> ctx_id ck = k).
  { intros k ck Hk. specialize (Hacc k). rewrite Hk in Hacc. tauto. }
  rewrite (bind_Ok _ _ _ _ _ (get_ctx_Ok _ _ _ Hc)) in H.
  bind_as H s s0 Hs. apply get_sched_inv in Hs as [-> ->].
  bind_as H kept s1 Hkept. destruct kept as [todo' cnt'].
  apply cancel_todo_inv in Hkept as (-> & Hsub & H0 & Hk); [|exact Hids].
  rewrite (Hids _ _ Hc) in *. simpl in H.
  assert (Hheld : forall r n k,
            held_of k (with_sched (mk_sched todo' r n) st) =
            tagged k (st_jobs st) todo' +
            tagged k (st_jobs st) (match r with Some x => [x] | None => [] end)).
  { intros r n k. unfold held_of, held_list, running_jobs. simpl.
    apply tagged_app. }
  assert (Hheld0 : forall k,
            held_of k st =
            tagged k (st_jobs st) (todo_list (st_sched st)) +
            tagged k (st_jobs st)
              (match running_job (st_sched st) with
               | Some x => [x] | None => [] end)).
  { intros k. unfold held_of, held_list, running_jobs. apply tagged_app. }
  assert (Hsettles : forall r n,
            match r with Some x => [x] | None => [] end ⊆+
              match running_job (st_sched st) with
              | Some x => [x] | None => [] end ->
            settles st (with_sched (mk_sched todo' r n) st)).
  { intros r n Hr. split; [reflexivity|]. split; [|eauto].
    unfold held_list, running_jobs. simpl. apply submseteq_app; assumption. }
  assert (Hother : forall E r n,
            (forall k, in_flight k E +
                       tagged k (st_jobs st)
                         (match r with Some x => [x] | None => [] end)
                       <= tagged k (st_jobs st)
                            (match running_job (st_sched st) with
                             | Some x => [x] | None => [] end)) ->
            accounting E (with_sched (mk_sched todo' r n) st)).
  { intros E r n Hle.
    apply (accounting_mono [] E st (with_sched (mk_sched todo' r n) st) Hacc);
      [intros k; reflexivity|].
    intros k. rewrite Hheld, Hheld0. specialize (Hle k). simpl.
    pose proof (tagged_submseteq k (st_jobs st) _ _ Hsub).
    destruct (decide (k = ctx)) as [->|Hne]; [|rewrite (Hk k Hne)]; lia. }
  destruct (running_job (st_sched st)) as [job|] eqn:Hslot.
  - bind_as H j s2 Hj. apply get_job_inv in Hj as [-> Hj].
    bind_as H cj s3 Hcj. apply get_ctx_inv in Hcj as [-> Hcj].
    pose proof (Hids _ _ Hcj) as Hcjid. rewrite Hcjid in H.
    destruct (job_ctx j =? ctx) eqn:Heq.
    + apply Z.eqb_eq in Heq.
      bind_as H u4 s4 Hput. apply put_sched_inv in Hput as ->.
      apply ret_inv in H as [-> ->].
      split; [apply Hsettles, submseteq_nil_l|]. split; [reflexivity|].
      split; [rewrite Hheld, H0; reflexivity|].
      exists j. split; [exact Hj|]. split; [exact Heq|].
      apply Hother. intros k. simpl. rewrite Hj. simpl.
      destruct (decide (ctx = k)), (decide (Some (job_ctx j) = Some k));
        try lia; congruence.
    + apply Z.eqb_neq in Heq.
      bind_as H u4 s4 Hput. apply put_sched_inv in Hput as ->.
      apply ret_inv in H as [-> ->].
      split; [apply Hsettles; reflexivity|]. split; [reflexivity|].
      split.
      * rewrite Hheld, H0. simpl. rewrite Hj. simpl.
        destruct (decide _) as [e|]; [|lia]. injection e as e. congruence.
      * apply Hother. intros k. simpl. lia.
  - bind_as H u4 s4 Hput. apply put_sched_inv in Hput as ->.
    apply ret_inv in H as [-> ->].
    split; [apply Hsettles; reflexivity|]. split; [reflexivity|].
    split; [rewrite Hheld, H0; reflexivity|].
    apply Hother. intros k. simpl. lia.
Qed.

Lemma accounting_delete_ctx id n st :
  accounting [] st ->
  held_of id st = 0 ->
  accounting [] (with_ctx_count n (with_ctxs (delete id (st_ctxs st)) st)).
Proof.
  intros Ha H0 k. simpl. destruct (decide (k = id)) as [->|Hne].
  - rewrite lookup_delete_eq.
    change (held_of id (with_ctx_count n (with_ctxs _ st))) with (held_of id st).
    lia.
  - rewrite lookup_delete_ne by congruence. exact (Ha k).
Qed.

Lemma kref_release_driver_inv ctx st a st' :
  driver_inv st ->
  rve_internal_ctx_kref_release ctx st = Ok (a, st') ->
  driver_inv st'.
Proof.
  intros Hinv H. unfold rve_internal_ctx_kref_release in H.
  bind_as H now s0 Hnow. apply ktime_get_inv in Hnow as ->.
  bind_as H c s1 Hc. apply get_ctx_inv in Hc as [-> Hc].
  bind_as H u2 s2 Hbody.
  bind_as H r3 s3 Hfree. apply ret_inv in H as [_ ->].
  unfold rve_internal_ctx_free_remove_idr in Hfree. injection Hfree as _ <-.
  assert (Hbody' : driver_inv s2 /\ held_of ctx s2 = 0).
  { pose proof Hinv as (Ha & Hp & Hj).
    pose proof (Ha ctx) as Hid. rewrite Hc in Hid.
    destruct Hid as (_ & _ & Hf0 & _ & Hle & Hload). simpl in Hle, Hload.
    pose proof (held_of_nonneg ctx st).
    destruct (negb (ctx_is_running c) ||
              (ctx_finished_job_count c >=? ctx_cmd_num c)) eqn:Hcond.
    - apply ret_inv in Hbody as [_ ->]. split; [exact Hinv|].
      apply orb_true_iff in Hcond as [Hcond|Hcond].
      + apply negb_true_iff in Hcond. specialize (Hload Hcond). lia.
      + lia.
    - bind_as Hbody need t1 Hcl.
      destruct (cancel_locked_accounting ctx c st need t1 Ha Hc Hcl)
        as (Hset1 & Hctx1 & H01 & Hneed).
      bind_as Hbody u t2 Hfin.
      bind_as Hbody c' t3 Hc'. apply get_ctx_inv in Hc' as [-> _].
      apply kfree_inv in Hbody as ->.
      assert (Hfin' : accounting [] t2 /\ settles t1 t2).
      { destruct need as [job|].
        - destruct Hneed as (j & Hj1 & Hjc & Hacc1).
          bind_as Hfin u5 t4 Hemit. apply emit_inv in Hemit as ->.
          destruct u. rewrite <- Hjc in Hacc1.
          eapply finish_and_next_accounting in Hfin as [Hacc2 Hset2];
            [|exact Hj1|exact Hacc1].
          auto.
        - apply ret_inv in Hfin as [_ ->]. split; [exact Hneed|apply settles_refl]. }
      destruct Hfin' as [Hacc2 Hset2].
      pose proof (settles_trans _ _ _ Hset1 Hset2) as Hset.
      split.
      + split; [exact Hacc2|].
        split; [exact (settles_pages_fresh _ _ Hset Hp)|].
        exact (settles_jobs_sound _ _ Hset Hj).
      + pose proof (settles_held_of ctx t1 t2 Hset2).
        pose proof (held_of_nonneg ctx t2).
        change (held_of ctx (with_regcmds _ (with_log _ t2)))
          with (held_of ctx t2). lia. }
  destruct Hbody' as [(Ha2 & Hp2 & Hj2) H02].
  split; [exact (accounting_delete_ctx ctx _ s2 Ha2 H02)|].
  split; [exact Hp2|exact Hj2].
Qed.

(** Cancel. *)
Lemma cancel_driver_inv id st a st' :
  driver_inv st ->
  rve_job_cancel_by_user_ctx id st = Ok (a, st') ->
  driver_inv st'.
Proof.
  intros Hinv H. unfold rve_job_cancel_by_user_ctx in H.
  rewrite (bind_Ok _ _ _ _ _ (rve_internal_ctx_lookup_Ok _ _)) in H.
  destruct (st_ctxs st !! id) as [c0|];
    [|apply ret_inv in H as [_ ->]; exact Hinv].
  bind_as H u1 s1 Hput. apply ret_inv in H as [_ ->].
  unfold kref_put in Hput.
  bind_as Hput c t1 Hc. apply get_ctx_inv in Hc as [-> Hc].
  bind_as Hput u2 t2 Hp. apply put_ctx_inv in Hp as ->.
  pose proof (driver_inv_same_view st id c
                (set_ctx_refcount (ctx_refcount c - 1) c) Hinv Hc eq_refl)
    as Hinv1.
  destruct (_ =? 0).
  - exact (kref_release_driver_inv _ _ _ _ Hinv1 Hput).
  - apply ret_inv in Hput as [_ ->]. exact Hinv1.
Qed.

Lemma booted_driver_inv st : booted st -> driver_inv st.
Proof.
  intros (Hc & Hj & Ht & Hr & Hnd).
  assert (Hheld : held_list st = []).
  { unfold held_list, running_jobs. rewrite Ht, Hr. reflexivity. }
  split; [|split].
  - intros k. rewrite Hc, lookup_empty. unfold held_of. rewrite Hheld.
    reflexivity.
  - split; [exact Hnd|]. intros p _. rewrite Hheld. apply not_elem_of_nil.
  - intros p j Hp. rewrite Hj, lookup_empty in Hp. discriminate.
Qed.

(** The invariant holds in every state the driver passes through. *)
Lemma driver_reaches_inv st st' :
  RVE_SYNC <> RVE_ASYNC ->
  driver_reaches st st' -> driver_inv st -> driver_inv st'.
Proof.
  intros Hne Hrun. induction Hrun as
    [ st
    | env st a st1 st2 Hidr Hop _ IH
    | env u st a st1 st2 Hop _ IH
    | envs ok u st a st1 st2 _ IHwait Hop _ IH
    | id st a st1 st2 Hop _ IH
    | r st st1 st2 Hop _ IH
    | id c p rest st j st1 st2 Hc Hr Hn Hp Hop _ _ _ IH ]; intros Hinv.
  - exact Hinv.
  - exact (IH (start_driver_inv _ _ _ _ Hidr Hinv Hop)).
  - exact (IH (config_driver_inv _ _ _ _ _ Hinv Hop)).
  - apply IH. apply (commit_driver_inv envs ok u st a st1 Hne); [|exact Hinv|exact Hop].
    intros s s' Hact. exact (IHwait 0 s s' Hact).
  - exact (IH (cancel_driver_inv _ _ _ _ Hinv Hop)).
  - apply IH. destruct Hinv as (Ha & Hp & Hj).
    destruct (rve_job_done_accounting r st st1 Ha Hop) as [Ha1 Hset].
    split; [exact Ha1|].
    split; [exact (settles_pages_fresh _ _ Hset Hp)|].
    exact (settles_jobs_sound _ _ Hset Hj).
  - exact (IH (commit_asleep_inv id c p rest st st1 Hinv Hc Hr Hn Hp Hop)).
Qed.

(** One finish call on a job whose context has not finished all its
    batches: the count goes up by one; the call that brings it to the
    batch count raises the completion and drops the running flag, any
    other call leaves both alone. *)
Lemma rve_internal_ctx_signal_counts st job j c :
  st_jobs st !! job = Some j ->
  job_scheduler j = true ->
  IS_ERR_OR_NULL (job_ctx j) = false ->
  st_ctxs st !! job_ctx j = Some c ->
  0 <= ctx_finished_job_count c < ctx_cmd_num c ->
  ctx_cmd_num c <= INT_MAX ->
  exists st' c',
    rve_internal_ctx_signal job st = Ok (0, st') /\
    st_ctxs st' !! job_ctx j = Some c' /\
    ctx_finished_job_count c' = ctx_finished_job_count c + 1 /\
    ctx_cmd_num c' = ctx_cmd_num c /\
    (ctx_finished_job_count c' < ctx_cmd_num c' ->
     ctx_is_running c' = ctx_is_running c /\ st_log st' = st_log st) /\
    (ctx_finished_job_count c' = ctx_cmd_num c' ->
     ctx_is_running c' = false /\
     st_log st' = completion_events job j c ++ st_log st).
Proof.
  intros Hj Hs Hp Hc Hfin Hmax.
  destruct (Z_lt_le_dec (ctx_finished_job_count c + 1) (ctx_cmd_num c))
    as [Hlt|Hge].
  - pose proof (rve_internal_ctx_signal_pending st job j c Hj Hs Hp Hc
                  ltac:(lia) Hlt Hmax) as Hsig.
    eexists _, _. split; [exact Hsig|]. split; [apply lookup_insert_eq|].
    simpl. split; [reflexivity|]. split; [reflexivity|].
    split; [auto|]. intros Heq. lia.
  - destruct (rve_internal_ctx_signal_last st job j c Hj Hs Hp Hc
                ltac:(lia) ltac:(lia))
      as (st' & Hsig & _ & _ & _ & Hlog & Hctxs & _).
    eexists st', _. split; [exact Hsig|].
    split; [rewrite Hctxs; apply lookup_insert_eq|].
    simpl. split; [reflexivity|]. split; [reflexivity|].
    split; [intros Hlt; lia|]. intros _. split; [reflexivity|exact Hlog].
Qed.


End Driver.

(** ** Power management: the clocks are switched all or none *)

Module PowerFacts.
Import Power.

Lemma clk_down_up c : clk_down (clk_up c) = c.
Proof. destruct c as [e r n]. unfold clk_down, clk_up. simpl. f_equal. lia. Qed.

(** Settles a comparison of two guarded clock updates. *)
Ltac guards :=
  repeat case_bool_decide; simpl;
  repeat match goal with
         | H : clk_is_err _ = _ |- _ => rewrite H
         end; simpl;
  first [reflexivity | lia | congruence | apply clk_down_up].

(** The forward loop, read index by index. *)
Lemma clks_enable_from_spec k : forall i clks clks' r,
  (i + k = length clks)%nat ->
  clks_enable_from k i clks = (clks', r) ->
  length clks' = length clks /\
  match r with
  | None =>
      (forall j c, clks !! j = Some c ->
         clks' !! j = Some (if bool_decide (i <= j)%nat && negb (clk_is_err c)
                            then clk_up c else c)) /\
      (forall j c, (i <= j)%nat -> clks !! j = Some c ->
         clk_is_err c = false -> 0 <= clk_enable_ret c)
  | Some (f, code) =>
      (i <= f)%nat /\
      (exists c, clks !! f = Some c /\ clk_is_err c = false /\
                 clk_enable_ret c = code /\ code < 0) /\
      (forall j c, clks !! j = Some c ->
         clks' !! j = Some (if bool_decide (i <= j < f)%nat && negb (clk_is_err c)
                            then clk_up c else c))
  end.
Proof.
  induction k as [|k IH]; intros i clks clks' r Hlen Hrun.
  - simpl in Hrun. injection Hrun as <- <-. split; [reflexivity|]. split.
    + intros j c Hj. rewrite Hj. f_equal.
      apply lookup_lt_Some in Hj. guards.
    + intros j c Hij Hj. apply lookup_lt_Some in Hj. lia.
  - simpl in Hrun.
    destruct (clks !! i) as [ci|] eqn:Hi.
    2: { apply lookup_ge_None in Hi. lia. }
    assert (Hi' : (i < length clks)%nat) by (apply lookup_lt_Some in Hi; lia).
    destruct (clk_is_err ci) eqn:Herr.
    + destruct (IH (S i) clks clks' r ltac:(lia) Hrun) as [Hl Hspec].
      split; [exact Hl|]. destruct r as [[f code]|].
      * destruct Hspec as (Hf & Hc & Hlook). split; [lia|]. split; [exact Hc|].
        intros j c Hj. rewrite (Hlook j c Hj). f_equal.
        destruct (decide (j = i)) as [->|Hne].
        -- rewrite Hi in Hj. injection Hj as <-. guards.
        -- destruct (clk_is_err c) eqn:Hc'; guards.
      * destruct Hspec as (Hlook & Hok). split.
        -- intros j c Hj. rewrite (Hlook j c Hj). f_equal.
           destruct (decide (j = i)) as [->|Hne].
           ++ rewrite Hi in Hj. injection Hj as <-. guards.
           ++ destruct (clk_is_err c) eqn:Hc'; guards.
        -- intros j c Hij Hj Hv. destruct (decide (j = i)) as [->|Hne].
           ++ congruence.
           ++ apply (Hok j c); [lia|exact Hj|exact Hv].
    + destruct (clk_enable_ret ci <? 0) eqn:Hneg.
      * injection Hrun as <- <-. split; [reflexivity|].
        split; [lia|]. split.
        -- exists ci. repeat split; try assumption. lia.
        -- intros j c Hj. rewrite Hj. f_equal. guards.
      * destruct (IH (S i) (<[i := clk_up ci]> clks) clks' r
                    ltac:(rewrite length_insert; lia) Hrun) as [Hl Hspec].
        rewrite length_insert in Hl. split; [exact Hl|].
        assert (Hup : <[i := clk_up ci]> clks !! i = Some (clk_up ci))
          by (apply list_lookup_insert_eq; lia).
        destruct r as [[f code]|].
        -- destruct Hspec as (Hf & (c0 & Hc0 & Hv0 & Hr0 & Hn0) & Hlook).
           split; [lia|]. split.
           { exists c0. rewrite list_lookup_insert_ne in Hc0 by lia.
             repeat split; assumption. }
           intros j c Hj. destruct (decide (j = i)) as [->|Hne].
           ++ rewrite Hi in Hj. injection Hj as <-.
              rewrite (Hlook i (clk_up ci) Hup). f_equal. simpl. guards.
           ++ rewrite (Hlook j c)
                by (rewrite list_lookup_insert_ne by lia; exact Hj).
              f_equal. destruct (clk_is_err c) eqn:Hc'; guards.
        -- destruct Hspec as (Hlook & Hok). split.
           ++ intros j c Hj. destruct (decide (j = i)) as [->|Hne].
              ** rewrite Hi in Hj. injection Hj as <-.
                 rewrite (Hlook i (clk_up ci) Hup). f_equal. simpl. guards.
              ** rewrite (Hlook j c)
                   by (rewrite list_lookup_insert_ne by lia; exact Hj).
                 f_equal. destruct (clk_is_err c) eqn:Hc'; guards.
           ++ intros j c Hij Hj Hv. destruct (decide (j = i)) as [->|Hne].
              ** rewrite Hi in Hj. injection Hj as <-. lia.
              ** apply (Hok j c); [lia| |exact Hv].
                 rewrite list_lookup_insert_ne by lia. exact Hj.
Qed.

(** The backward loop, read index by index. *)
Lemma clks_disable_below_spec i : forall clks,
  length (clks_disable_below i clks) = length clks /\
  forall j c, clks !! j = Some c ->
    clks_disable_below i clks !! j =
      Some (if bool_decide (j < i)%nat && negb (clk_is_err c)
            then clk_down c else c).
Proof.
  induction i as [|i IH]; intros clks.
  - simpl. split; [reflexivity|]. intros j c Hj. rewrite Hj. reflexivity.
  - cbn [clks_disable_below].
    set (m := match clks !! i with
              | Some c => if clk_is_err c then clks else <[i := clk_down c]> clks
              | None => clks
              end).
    assert (Hm : length m = length clks /\
                 forall j c, clks !! j = Some c ->
                   m !! j = Some (if bool_decide (j = i) && negb (clk_is_err c)
                                  then clk_down c else c)).
    { subst m. destruct (clks !! i) as [ci|] eqn:Hi.
      - destruct (clk_is_err ci) eqn:Herr.
        + split; [reflexivity|]. intros j c Hj. rewrite Hj. f_equal.
          destruct (decide (j = i)) as [->|Hne].
          * rewrite Hi in Hj. injection Hj as <-. guards.
          * guards.
        + split; [apply length_insert|]. intros j c Hj.
          destruct (decide (j = i)) as [->|Hne].
          * rewrite Hi in Hj. injection Hj as <-.
            rewrite list_lookup_insert_eq by (apply lookup_lt_Some in Hi; lia).
            f_equal. guards.
          * rewrite list_lookup_insert_ne by congruence. rewrite Hj.
            f_equal. guards.
      - split; [reflexivity|]. intros j c Hj. rewrite Hj. f_equal.
        assert (j <> i) by (intros ->; congruence). guards. }
    destruct Hm as [Hml Hmlook]. destruct (IH m) as [Hl Hlook].
    split; [congruence|]. intros j c Hj.
    rewrite (Hlook j _ (Hmlook j c Hj)). f_equal.
    destruct (clk_is_err c) eqn:Herr; guards.
Qed.

(** A successful enable has raised every usable clock once. *)
Lemma rve_power_enable_success p :
  fst (rve_power_enable p) = 0 ->
  snd (rve_power_enable p) =
    mk_power (map (fun c => if clk_is_err c then c else clk_up c) (pw_clks p))
             (pw_pd_refcount p) (pw_pm_usage p + 1) true.
Proof.
  unfold rve_power_enable.
  destruct (clks_enable_from (length (pw_clks p)) 0 (pw_clks p))
    as [clks' r] eqn:Hrun.
  destruct (clks_enable_from_spec (length (pw_clks p)) 0%nat (pw_clks p)
              clks' r eq_refl Hrun)
    as [Hlen Hspec].
  destruct r as [[f code]|].
  - destruct Hspec as (_ & (c0 & _ & _ & _ & Hn0) & _). simpl. lia.
  - destruct Hspec as (Hlook & _). simpl. intros _. f_equal.
    apply list_eq. intros j. rewrite list_lookup_fmap.
    destruct (pw_clks p !! j) as [c|] eqn:Hj; simpl.
    + rewrite (Hlook j c Hj). f_equal.
      destruct (clk_is_err c) eqn:Herr; guards.
    + apply lookup_ge_None. apply lookup_ge_None in Hj. lia.
Qed.

(** Rolls back what [clks_enable_from] did below the failing index. *)
Lemma clks_rollback clks clks' f :
  length clks' = length clks ->
  (forall j c, clks !! j = Some c ->
     clks' !! j = Some (if bool_decide (0 <= j < f)%nat && negb (clk_is_err c)
                        then clk_up c else c)) ->
  clks_disable_below f clks' = clks.
Proof.
  intros Hlen Hlook.
  destruct (clks_disable_below_spec f clks') as [Hl Hdown].
  apply list_eq. intros j.
  destruct (clks !! j) as [c|] eqn:Hj.
  - rewrite (Hdown j _ (Hlook j c Hj)). f_equal.
    destruct (clk_is_err c) eqn:Herr; guards.
  - apply lookup_ge_None. apply lookup_ge_None in Hj. lia.
Qed.

(** X17.  rve_power_enable switches the clocks all or none.  Either it
    returns 0, every usable clock has been enabled once and the device is
    held awake with one more runtime-PM reference; or it returns the
    negative code of a usable clock that refused, and then every clock
    has the enable count it had before, the runtime-PM reference is given
    back, the wakeup flag is cleared and pd_refcount is raised. *)
Theorem rve_power_enable_all_or_nothing p :
  (fst (rve_power_enable p) = 0 /\
   pw_clks (snd (rve_power_enable p)) =
     map (fun c => if clk_is_err c then c else clk_up c) (pw_clks p) /\
   pw_pm_usage (snd (rve_power_enable p)) = pw_pm_usage p + 1 /\
   pw_awake (snd (rve_power_enable p)) = true /\
   pw_pd_refcount (snd (rve_power_enable p)) = pw_pd_refcount p /\
   Forall (fun c => clk_is_err c = false -> 0 <= clk_enable_ret c) (pw_clks p))
  \/
  (fst (rve_power_enable p) < 0 /\
   (exists c, c ∈ pw_clks p /\ clk_is_err c = false /\
              clk_enable_ret c = fst (rve_power_enable p)) /\
   pw_clks (snd (rve_power_enable p)) = pw_clks p /\
   pw_pm_usage (snd (rve_power_enable p)) = pw_pm_usage p /\
   pw_awake (snd (rve_power_enable p)) = false /\
   pw_pd_refcount (snd (rve_power_enable p)) = int_wrap (pw_pd_refcount p + 1)).
Proof.
  destruct (clks_enable_from (length (pw_clks p)) 0 (pw_clks p))
    as [clks' r] eqn:Hrun.
  destruct (clks_enable_from_spec (length (pw_clks p)) 0%nat (pw_clks p)
              clks' r eq_refl Hrun)
    as [Hlen Hspec].
  destruct r as [[f code]|].
  - right. destruct Hspec as (_ & (c0 & Hc0 & Hv0 & Hr0 & Hn0) & Hlook).
    unfold rve_power_enable. rewrite Hrun. simpl.
    split; [exact Hn0|]. split.
    { exists c0. split; [|split; assumption].
      apply list_elem_of_lookup. eauto. }
    split; [|split; [lia|split; reflexivity]].
    apply clks_rollback; assumption.
  - left. assert (Hok : fst (rve_power_enable p) = 0)
      by (unfold rve_power_enable; rewrite Hrun; reflexivity).
    rewrite (rve_power_enable_success p Hok). simpl.
    repeat split; try assumption.
    destruct Hspec as (_ & Hvalid).
    apply Forall_forall. intros c Hc Hv.
    apply list_elem_of_lookup in Hc as [j Hj].
    apply (Hvalid j c); [lia|exact Hj|exact Hv].
Qed.

(** X18.  A successful rve_power_enable followed by rve_power_disable
    gives every clock back its enable count and the device its runtime-PM
    count.  pd_refcount, which the successful enable does not raise, ends
    one lower than it started. *)
Theorem rve_power_enable_disable p :
  fst (rve_power_enable p) = 0 ->
  fst (rve_power_disable (snd (rve_power_enable p))) = 0 /\
  pw_clks (snd (rve_power_disable (snd (rve_power_enable p)))) = pw_clks p /\
  pw_pm_usage (snd (rve_power_disable (snd (rve_power_enable p)))) =
    pw_pm_usage p /\
  pw_pd_refcount (snd (rve_power_disable (snd (rve_power_enable p)))) =
    int_wrap (pw_pd_refcount p - 1).
Proof.
  intros Hok. rewrite (rve_power_enable_success p Hok).
  unfold rve_power_disable. simpl.
  split; [reflexivity|]. split; [|split; [lia|reflexivity]].
  set (up := map (fun c => if clk_is_err c then c else clk_up c) (pw_clks p)).
  destruct (clks_disable_below_spec (length up) up) as [Hl Hdown].
  apply list_eq. intros j.
  destruct (pw_clks p !! j) as [c|] eqn:Hj.
  - assert (Hmj : up !! j = Some (if clk_is_err c then c else clk_up c)).
    { subst up. rewrite list_lookup_fmap, Hj. reflexivity. }
    rewrite (Hdown j _ Hmj). f_equal.
    assert (j < length up)%nat
      by (subst up; rewrite length_map; apply lookup_lt_Some in Hj; exact Hj).
    destruct (clk_is_err c) eqn:Herr; guards.
  - apply lookup_ge_None. apply lookup_ge_None in Hj.
    subst up. rewrite Hl, length_map. exact Hj.
Qed.

End PowerFacts.

(** ** Concrete evaluations *)

Module Sample.

(** One admissible set of values for the constants of rve_drv.h: default
    priority 0, maximum 6, three distinct flag bits, a delay of 500 ms. *)
#[local] Instance sample_defs : rve_defs := {|
  RVE_SCHED_PRIORITY_DEFAULT := 0;
  RVE_SCHED_PRIORITY_MAX := 6;
  RVE_ASYNC := 2;
  RVE_SYNC := 4;
  RVE_JOB_DONE := 1;
  RVE_ASYNC_TIMEOUT_DELAY := 500
|}.

(** A back end on which every start succeeds. *)
Definition ops_ok : rve_backend_ops :=
  {| power_enable := fun _ => 0; init_reg := fun _ => 0; set_reg := fun _ => 0 |}.

(** A back end on which programming the registers of job 30 fails. *)
Definition ops_fail30 : rve_backend_ops :=
  {| power_enable := fun _ => 0;
     init_reg := fun job => if job =? 30 then - EFAULT else 0;
     set_reg := fun _ => 0 |}.

(** A queued synchronous job of context [ctx] with priority [p]. *)
Definition queued_job (ctx p : Z) : rve_job :=
  mk_job ctx true p 0 0 0 0 0 None.

(** A context with [n] batches, as Configure and the reset of Commit leave
    it. *)
Definition committed_ctx (id n mode prio : Z) : rve_internal_ctx_t :=
  mk_ctx id 1 mode n 0 0 true prio 0 0 None 0.

(** The same context before Commit has marked it running. *)
Definition idle_ctx (id n mode prio : Z) : rve_internal_ctx_t :=
  mk_ctx id 1 mode n 0 0 false prio 0 0 None 0.

(** The priorities along the todo list, head first. *)
Definition queue_priorities (st : rve_state) : list (option Z) :=
  map (fun job => job_priority <$> st_jobs st !! job) (todo_list (st_sched st)).

(** Queue 10 (priority 5), 11 (priority 3), 12 (priority 1) behind a
    running job 9, and a new job 13 of priority 4. *)
Definition st_insert : rve_state :=
  mk_state (mk_sched [10; 11; 12] (Some 9) 3)
           (<[9 := queued_job 1 0]>
             (<[10 := queued_job 1 5]>
               (<[11 := queued_job 1 3]>
                 (<[12 := queued_job 1 1]>
                   (<[13 := queued_job 1 4]> ∅)))))
           (<[1 := committed_ctx 1 5 RVE_SYNC 0]> ∅)
           1 [] 0 [] ∅.

(** An idle engine with jobs 10 and 11 queued. *)
Definition st_slot0 : rve_state :=
  mk_state (mk_sched [10; 11] None 2)
           (<[10 := queued_job 1 0]> (<[11 := queued_job 1 0]> ∅))
           (<[1 := committed_ctx 1 2 RVE_SYNC 0]> ∅)
           1 [] 0 [] ∅.

(** [st_slot0] after the dispatch region. *)
Definition st_slot1 : rve_state := with_sched (mk_sched [11] (Some 10) 1) st_slot0.

(** [st_slot1] after the completion region. *)
Definition st_slot2 : rve_state := with_sched (mk_sched [11] None 1) st_slot0.

(** [st_slot2] after a second dispatch region. *)
Definition st_slot3 : rve_state := with_sched (mk_sched [] (Some 11) 0) st_slot0.

(** An idle engine with job 30 of context 1 queued ahead of job 31 of
    context 2. *)
Definition st_fail : rve_state :=
  mk_state (mk_sched [30; 31] None 2)
           (<[30 := queued_job 1 0]> (<[31 := queued_job 2 0]> ∅))
           (<[1 := committed_ctx 1 1 RVE_SYNC 0]>
             (<[2 := committed_ctx 2 1 RVE_SYNC 0]> ∅))
           2 [] 0 [] ∅.

(** Job 50 of context 2 is enqueued by another caller while the commit of
    context 1 sleeps; the hardware never reports completion and the wait
    returns 0. *)
Definition env_timeout : commit_env :=
  {| wait_activity := rve_job_schedule ops_ok 50 ;;; ret tt;
     wait_left_time := 0;
     out_fence_alloc := (0, 700);
     out_fence_get_fd := 7;
     get_input_fence := None;
     fence_get_status := 0;
     add_fence_callback := 0 |}.

(** An idle engine; context 1 is being committed, page 100 is the next
    one the allocator hands out; job 50 of context 2 is allocated but not
    yet enqueued. *)
Definition st_timeout : rve_state :=
  mk_state (mk_sched [] None 0)
           (<[50 := queued_job 2 0]> ∅)
           (<[1 := committed_ctx 1 1 RVE_SYNC 0]>
             (<[2 := committed_ctx 2 1 RVE_SYNC 0]> ∅))
           2 [100] 0 [] ∅.

(** Nothing happens while the caller sleeps and the wait returns 0. *)
Definition env_silent : commit_env :=
  {| wait_activity := ret tt;
     wait_left_time := 0;
     out_fence_alloc := (0, 700);
     out_fence_get_fd := 7;
     get_input_fence := None;
     fence_get_status := 0;
     add_fence_callback := 0 |}.

(** The interrupt thread reports completion while the caller sleeps. *)
Definition env_irq : commit_env :=
  {| wait_activity := rve_job_done ops_ok 0;
     wait_left_time := 5;
     out_fence_alloc := (0, 700);
     out_fence_get_fd := 7;
     get_input_fence := None;
     fence_get_status := 0;
     add_fence_callback := 0 |}.

(** An idle engine and context 1 configured with one batch in
    asynchronous mode. *)
Definition st_async : rve_state :=
  mk_state (mk_sched [] None 0) ∅
           (<[1 := idle_ctx 1 1 RVE_ASYNC 0]> ∅)
           1 [100] 0 [] ∅.

(** The ioctl argument of the Commit on context 1. *)
Definition uc_async : rve_user_ctx_t := mk_user_ctx 1 1 0 RVE_ASYNC 0 0 0.

(** The driver after probe: no context, an idle engine, pages 100 and 101
    to allocate jobs from. *)
Definition st_boot : rve_state :=
  mk_state (mk_sched [] None 0) ∅ ∅ 0 [100; 101] 0 [] ∅.

(** The allocator and the idr both answer; the idr hands out id 1. *)
Definition aenv_one : ctx_alloc_env :=
  {| kzalloc_ctx_ok := true; ctx_manager_present := true; idr_alloc_id := 1 |}.

(** Context 1 as Configure leaves it for a request in mode [mode] with
    priority [prio]: one batch, the command array at 900. *)
Definition configured_ctx (mode prio : Z) : rve_internal_ctx_t :=
  mk_ctx 1 1 mode 1 0 0 false prio 900 0 None 0.

(** [st_boot] after Start has created context 1 and Configure has stored
    a request in mode [mode] with priority [prio]. *)
Definition st_configured (mode prio : Z) : rve_state :=
  mk_state (mk_sched [] None 0) ∅
           (<[1 := configured_ctx mode prio]> ∅)
           1 [100; 101] 0 [EvCopyFromUser 1] {[900]}.

(** C7 as stated, for a context configured asynchronous: Commit hands back
    the fd of the output fence and has not waited for the job. *)
Definition async_commit_returns_fence (envs : Z -> commit_env)
    (u : rve_user_ctx_t) (st : rve_state) : Prop :=
  exists r u' st',
    rve_job_commit_by_user_ctx ops_ok envs true u st = Ok ((r, u'), st') /\
    uc_out_fence_fd u' = out_fence_get_fd (envs 0) /\
    forall job, EvWait job ∉ st_log st'.

(** Every live job has a priority within the maximum. *)
Definition priorities_within_max (st : rve_state) : Prop :=
  map_Forall (fun _ j => job_priority j <= RVE_SCHED_PRIORITY_MAX) (st_jobs st).

(** Job 9 of context 2 is running and job 10 of context 3, of priority
    5, is queued; context 1, of priority 9, is being committed and page 13
    is the next one the allocator hands out. *)
Definition st_raise : rve_state :=
  mk_state (mk_sched [10] (Some 9) 1)
           (<[9 := queued_job 2 0]> (<[10 := queued_job 3 5]> ∅))
           (<[1 := committed_ctx 1 1 RVE_SYNC 9]>
             (<[2 := committed_ctx 2 1 RVE_SYNC 0]>
               (<[3 := committed_ctx 3 1 RVE_SYNC 5]> ∅)))
           3 [13] 0 [] ∅.

(** Job 40 carries the asynchronous flag and was started at time 0; the
    clock reads 600 ms. *)
Definition st_late_async : rve_state :=
  mk_state (mk_sched [] (Some 40) 0)
           (<[40 := mk_job 1 true 0 RVE_ASYNC 0 0 0 0 None]> ∅)
           (<[1 := committed_ctx 1 1 RVE_ASYNC 0]> ∅)
           1 [] 600000000 [] ∅.

(** The load timer fires on [st_late_async]; job 40 was last accounted
    for at time 0. *)
Definition load_late_async : rve_load_state :=
  mk_load_state st_late_async 0 0 (<[40 := 0]> ∅).

(** C9 as stated: the periodic check finds the asynchronous job past its
    delay, takes it out of the slot and resets the hardware. *)
Definition periodic_check_cleans (s : rve_load_state) : Prop :=
  exists s',
    hrtimer_handler s = Ok s' /\
    running_job (st_sched (load_driver s')) = None /\
    EvSoftReset ∈ st_log (load_driver s').

(** Job 41, enqueued while job 40 sits in the slot. *)
Definition st_late_enqueue : rve_state :=
  with_jobs (<[41 := queued_job 1 0]> (st_jobs st_late_async)) st_late_async.

(** The same with a synchronous job, and an hour on the clock. *)
Definition st_late_sync : rve_state :=
  mk_state (mk_sched [] (Some 40) 0)
           (<[40 := mk_job 1 true 0 0 0 0 0 0 None]> ∅)
           (<[1 := committed_ctx 1 1 RVE_SYNC 0]> ∅)
           1 [] 3600000000000 [] ∅.

(** Allocation and copy from the caller both succeed. *)
Definition cenv_ok : config_env :=
  {| kmalloc_regcmd := Some 900; copy_from_user_ok := true |}.

(** A request for five batches on context 1. *)
Definition uc_five : rve_user_ctx_t := mk_user_ctx 1 5 0 RVE_SYNC 3 0 0.

(** The first Commit on context 1, configured by [uc_five], sleeps in its
    wait: job 100 is in the running slot. *)
Definition st_waiting : rve_state :=
  mk_state (mk_sched [] (Some 100) 0)
           (<[100 := mk_job 1 true 3 0 0 0 0 900 None]> ∅)
           (<[1 := mk_ctx 1 1 RVE_SYNC 1 0 0 true 3 900 0 None 0]> ∅)
           1 [101] 0
           [EvSetReg 100; EvInitReg 100; EvPowerEnable; EvCopyFromUser 1]
           {[900]}.

(** The allocator and the idr both answer; the idr hands out id 2. *)
Definition aenv_ok : ctx_alloc_env :=
  {| kzalloc_ctx_ok := true; ctx_manager_present := true; idr_alloc_id := 2 |}.

(** [st_fresh] after Configure has stored the request [uc_five]. *)
Definition st_five : rve_state :=
  mk_state (mk_sched [] None 0) ∅
           (<[1 := configured_ctx RVE_SYNC 3]> ∅)
           1 [100] 0 [EvCopyFromUser 1] {[900]}.

(** Another caller creates context 2 and cancels it again. *)
Definition other_context : M unit :=
  rve_internal_ctx_alloc_to_get_idr_id aenv_ok ;;;
  rve_job_cancel_by_user_ctx ops_ok 2 ;;;
  ret tt.

(** Job 10 of context 1 is running, job 11 of context 2 waits; their
    command arrays are at 900 and 901. *)
Definition st_live : rve_state :=
  mk_state (mk_sched [11] (Some 10) 1)
           (<[10 := mk_job 1 true 0 0 0 0 0 900 None]>
             (<[11 := mk_job 2 true 0 0 0 0 0 901 None]> ∅))
           (<[1 := mk_ctx 1 1 RVE_SYNC 1 0 0 true 0 900 0 None 0]>
             (<[2 := mk_ctx 2 1 RVE_SYNC 1 0 0 true 0 901 0 None 0]> ∅))
           2 [] 0 [] {[900; 901]}.

(** Context 1 as rve_internal_ctx_alloc_to_get_idr_id creates it. *)
Definition st_fresh : rve_state :=
  mk_state (mk_sched [] None 0) ∅
           (<[1 := idle_ctx 1 0 0 0]> ∅)
           1 [100] 0 [] ∅.

(** kzalloc fails. *)
Definition aenv_nomem : ctx_alloc_env :=
  {| kzalloc_ctx_ok := false; ctx_manager_present := true; idr_alloc_id := 2 |}.

(** Context 1 configured with one batch, and no page left to allocate a
    job from. *)
Definition st_nopage : rve_state := with_pages [] st_async.

(** An interrupt arrives while no job is running. *)
Definition irq_idle : rve_irq_state := mk_irq_state st_fresh 41.

(** Job 9 is running and job 10 waits; jobs 11 and 12, of the default
    priority like the others, are about to be enqueued. *)
Definition st_fifo : rve_state :=
  mk_state (mk_sched [10] (Some 9) 1)
           (<[9 := queued_job 1 0]>
             (<[10 := queued_job 1 0]>
               (<[11 := queued_job 1 0]>
                 (<[12 := queued_job 1 0]> ∅))))
           (<[1 := committed_ctx 1 4 RVE_SYNC 0]> ∅)
           1 [] 0 [] ∅.

(** An idle engine; context 1 is being committed and page 30 is the next
    one the allocator hands out. *)
Definition st_commit30 : rve_state :=
  mk_state (mk_sched [] None 0) ∅
           (<[1 := committed_ctx 1 1 RVE_SYNC 0]> ∅)
           1 [30] 0 [] ∅.

(** Three clocks, the second one missing (an error pointer). *)
Definition power_three : Power.rve_power :=
  Power.mk_power
    [Power.mk_clk false 0 0; Power.mk_clk true 0 0; Power.mk_clk false 0 0]
    0 0 false.

(** C2, the code on a failing input.  Job 13 (priority 4) is enqueued
    behind the running job 9 into the queue 10, 11, 12 of priorities 5, 3,
    1.  The first entry of strictly lower priority is 11; the claim puts
    13 immediately before it, with priorities 5, 4, 4, 2 along the queue.
    The code links 13 behind 11 and raises 13 itself as well: the queue is
    10, 11, 13, 12 with priorities 5, 4, 5, 2. *)
Theorem insertion_lands_behind_lower_entry :
  exists st',
    schedule_locked 13 st_insert = Ok (tt, st') /\
    todo_list (st_sched st') = [10; 11; 13; 12] /\
    queue_priorities st' = [Some 5; Some 4; Some 5; Some 2] /\
    todo_list (st_sched st') <> [10; 13; 11; 12] /\
    queue_priorities st' <> [Some 5; Some 4; Some 4; Some 2].
Proof.
  eexists. split; [vm_compute; reflexivity|].
  split; [reflexivity|]. split; [reflexivity|].
  split; vm_compute; discriminate.
Qed.

(** *** The running slot along an interleaving *)

Lemma running_slot_exclusive_witness :
  Forall (fun s => (length (running_jobs s) <= 1)%nat)
         [st_slot0; st_slot1; st_slot2; st_slot3] /\
  slot_handover_free (running_job (st_sched st_slot0))
                     [st_slot1; st_slot2; st_slot3].
Proof.
  apply (running_slot_exclusive st_slot0 [st_slot1; st_slot2; st_slot3]).
  apply run_cons; [apply (step_locked RegionNext); reflexivity|].
  apply run_cons; [apply (step_locked RegionDone); reflexivity|].
  apply run_cons; [apply (step_locked RegionNext); reflexivity|].
  apply run_nil.
Defined.

(** *** The job of a sleeping Commit *)

(** The driver gets from [st_boot] to [st_waiting]: Start, Configure with
    [uc_five], then the Commit that goes to sleep on job 100. *)
Lemma st_waiting_reached : driver_reaches ops_ok st_boot st_waiting.
Proof.
  apply (reach_start ops_ok aenv_one st_boot 1
           (mk_state (mk_sched [] None 0) ∅ (<[1 := zeroed_ctx 1]> ∅)
                     1 [100; 101] 0 [] ∅)).
  { intros _. split; [reflexivity|reflexivity]. }
  { reflexivity. }
  apply (reach_config ops_ok cenv_ok uc_five _
           (0, set_uc_cmd_num 1 uc_five) (st_configured RVE_SYNC 3)).
  { reflexivity. }
  apply (reach_asleep ops_ok 1 (configured_ctx RVE_SYNC 3) 100 [101]
           (st_configured RVE_SYNC 3)
           (mk_job 1 true 3 0 0 0 0 900 None) st_waiting).
  { reflexivity. }
  { reflexivity. }
  { reflexivity. }
  { reflexivity. }
  { vm_compute. reflexivity. }
  { reflexivity. }
  { simpl. lia. }
  apply reach_here.
Qed.


(** *** A failed start at the head of the queue *)


Lemma rve_job_next_idle_noop_witness :
  rve_job_next ops_ok st_slot1 = Ok (tt, st_slot1) /\
  (rve_job_next ops_ok ;;; rve_job_next ops_ok) st_slot1 =
    rve_job_next ops_ok st_slot1.
Proof.
  apply (rve_job_next_idle_noop ops_ok st_slot1).
  left. vm_compute. discriminate.
Defined.

(** *** A synchronous wait that times out *)

(** C6, the code on a failing input.  The commit of context 1 starts job
    100 on the idle engine and its wait times out.  The hardware is reset
    once and -EBUSY is returned, the slot is cleared and the job freed;
    but the finish path is not taken: the context is not signalled (no
    wake-up, finished count still 0) and stays marked running, so that it
    can never be configured again, and job 50, queued meanwhile, is left
    in the queue behind an empty slot. *)
Theorem sync_timeout_skips_finish_path :
  exists st',
    rve_job_commit ops_ok env_timeout 1 st_timeout = Ok (- EBUSY, st') /\
    count_occ rve_event_eq_dec (st_log st') EvSoftReset = 1%nat /\
    running_job (st_sched st') = None /\
    st_jobs st' !! 100 = None /\
    count_occ rve_event_eq_dec (st_log st') EvWakeUp = 0%nat /\
    ctx_finished_job_count <$> st_ctxs st' !! 1 = Some 0 /\
    ctx_is_running <$> st_ctxs st' !! 1 = Some true /\
    todo_list (st_sched st') = [50] /\
    (forall cenv u, uc_id u = 1 ->
       fst <$> (match rve_job_config_by_user_ctx cenv u st' with
                | Ok (r, _) => Some r
                | _ => None
                end) = Some (- EFAULT)).
Proof.
  eexists. split; [vm_compute; reflexivity|].
  repeat (split; [vm_compute; reflexivity|]).
  intros cenv u Hu. unfold rve_job_config_by_user_ctx, rve_internal_ctx_lookup.
  unfold bind at 1. rewrite Hu. reflexivity.
Qed.

(** *** Commit of a context configured asynchronous *)

Lemma st_configured_reached mode prio :
  (rve_internal_ctx_alloc_to_get_idr_id aenv_one ;;;
   rve_job_config_by_user_ctx cenv_ok (mk_user_ctx 1 5 0 mode prio 0 0)) st_boot =
    Ok ((0, mk_user_ctx 1 1 0 mode prio 0 0), st_configured mode prio).
Proof. reflexivity. Qed.



(** *** Inflation past the maximum *)

(** C8, the code on a failing input.  The job of context 1, of context
    priority 9, is allocated with the priority clamped to the maximum 6 and
    enqueued behind the running job 9 into the queue holding job 10 of
    priority 5.  The claim has every priority within 6 afterwards
    (insertion before job 10 gives the queue 13, 10 with priorities 6, 6).
    The code links 13 behind 10 and then raises 13 itself as well: the
    queue is 10, 13 with priorities 6, 7. *)
Theorem enqueue_raises_new_job_past_maximum :
  exists st1 st',
    rve_job_alloc 1 st_raise = Ok (Some 13, st1) /\
    job_priority <$> st_jobs st1 !! 13 = Some RVE_SCHED_PRIORITY_MAX /\
    priorities_within_max st1 /\
    rve_job_schedule ops_ok 13 st1 = Ok (true, st') /\
    todo_list (st_sched st') = [10; 13] /\
    queue_priorities st' = [Some 6; Some 7] /\
    ~ priorities_within_max st'.
Proof.
  eexists _, _. split; [vm_compute; reflexivity|].
  split; [reflexivity|].
  split; [apply (bool_decide_unpack _); vm_compute; exact I|].
  split; [vm_compute; reflexivity|].
  split; [reflexivity|]. split; [reflexivity|].
  intros H. specialize (H 13 (mk_job 1 true 7 0 0 0 0 0 None) ltac:(reflexivity)).
  vm_compute in H. apply H. reflexivity.
Qed.

(** *** Timeout cleaning *)



(** *** Configure, then Commit *)

(** C10 fails for a Commit that comes while the first one still sleeps
    in its wait: the context is marked running and the call is refused;
    and for a Commit that finds no page: no job is allocated, none is
    started and nothing is copied back. *)
Lemma commit_without_job_counterexample :
  rve_job_schedule ops_ok 100
    (commit_allocated 1 (configured_ctx RVE_SYNC 3) 100 [101]
       (st_configured RVE_SYNC 3)) = Ok (true, st_waiting) /\
  rve_job_commit_by_user_ctx ops_ok (fun _ => env_irq) true uc_five st_waiting =
    Ok ((- EFAULT, uc_five), st_waiting) /\
  ~ commits_one_job ops_ok (fun _ => env_irq) true uc_five st_waiting /\
  ~ commits_one_job ops_ok (fun _ => env_irq) true uc_five
      (with_pages [] (st_configured RVE_SYNC 3)).
Proof.
  split; [vm_compute; reflexivity|].
  split; [vm_compute; reflexivity|]. split.
  - intros (p & r & u' & st' & evs & Hrun & Hpages & _).
    vm_compute in Hrun. injection Hrun as _ _ <-. discriminate.
  - intros (p & r & u' & st' & evs & Hrun & Hpages & _).
    vm_compute in Hrun. injection Hrun as _ _ <-. discriminate.
Qed.

Lemma configured_batch_count_is_one_witness :
  rve_job_config_by_user_ctx cenv_ok uc_five st_fresh =
    Ok ((0, set_uc_cmd_num 1 uc_five), st_five) /\
  st_log st_five = [EvCopyFromUser 1] /\
  other_context st_five = Ok (tt, st_five) /\
  ctx_cmd_num <$> st_ctxs st_five !! 1 = Some 1 /\
  commits_one_job ops_ok (fun _ => env_irq) true uc_five st_five /\
  exists st3,
    rve_job_commit_by_user_ctx ops_ok (fun _ => env_irq) true uc_five st_five =
      Ok ((0, uc_five), st3) /\
    st_pages st3 = [] /\
    started_jobs (st_log st3) = [100] /\
    arrays_copied_out (st_log st3) = [1].
Proof.
  assert (Hcfg : rve_job_config_by_user_ctx cenv_ok uc_five st_fresh =
                 Ok ((0, set_uc_cmd_num 1 uc_five), st_five))
    by (vm_compute; reflexivity).
  assert (Hothers : other_context st_five = Ok (tt, st_five))
    by (vm_compute; reflexivity).
  destruct (configured_batch_count_is_one ops_ok cenv_ok uc_five st_fresh
              (set_uc_cmd_num 1 uc_five) st_five other_context st_five
              (fun _ => env_irq) true uc_five)
    as (_ & Hlog & _ & c2 & Hc2 & Hn2 & _ & Hcommit).
  { vm_compute. discriminate. }
  { exact Hcfg. }
  { unfold other_context.
    apply stays_configured_bind;
      [apply stays_configured_start; vm_compute; discriminate|].
    intros _. apply stays_configured_bind;
      [apply stays_configured_cancel; vm_compute; discriminate|].
    intros _. apply stays_configured_keeps, keeps_cmd_num_ret. }
  { exact Hothers. }
  { reflexivity. }
  change (st_ctxs st_five !! uc_id uc_five)
    with (Some (configured_ctx RVE_SYNC 3)) in Hc2.
  injection Hc2 as <-.
  specialize (Hcommit eq_refl).
  change (st_pages st_five) with [100] in Hcommit.
  destruct Hcommit as [_ Hpath].
  destruct Hpath as (Hone & st3 & Hrun & Hpages & Hlog3 & _).
  { reflexivity. }
  { reflexivity. }
  { vm_compute. reflexivity. }
  { reflexivity. }
  { reflexivity. }
  { vm_compute. discriminate. }
  { reflexivity. }
  { vm_compute. discriminate. }
  { vm_compute. discriminate. }
  { reflexivity. }
  split; [exact Hcfg|]. split; [reflexivity|]. split; [exact Hothers|].
  split; [reflexivity|]. split; [exact Hone|].
  exists st3. split; [exact Hrun|]. split; [exact Hpages|].
  rewrite Hlog3. split; reflexivity.
Defined.

(** *** The context registry *)

Lemma unknown_handle_is_refused_witness :
  (forall env u, uc_id u = 7 ->
     rve_job_config_by_user_ctx env u st_fresh = Ok ((- EINVAL, u), st_fresh)) /\
  (forall envs ok u, uc_id u = 7 ->
     rve_job_commit_by_user_ctx ops_ok envs ok u st_fresh =
       Ok ((- EINVAL, u), st_fresh)) /\
  rve_job_cancel_by_user_ctx ops_ok 7 st_fresh = Ok (- EINVAL, st_fresh).
Proof.
  apply (unknown_handle_is_refused ops_ok st_fresh 7). reflexivity.
Defined.

Lemma cancel_idle_context_witness :
  exists st',
    rve_job_cancel_by_user_ctx ops_ok 1 st_fresh = Ok (0, st') /\
    st_ctxs st' = delete 1 (st_ctxs st_fresh) /\
    st_ctx_count st' = int_wrap (st_ctx_count st_fresh - 1) /\
    st_sched st' = st_sched st_fresh /\ st_jobs st' = st_jobs st_fresh /\
    st_log st' = st_log st_fresh /\
    rve_job_cancel_by_user_ctx ops_ok 1 st' = Ok (- EINVAL, st').
Proof.
  apply (cancel_idle_context ops_ok st_fresh 1 (idle_ctx 1 0 0 0)).
  - reflexivity.
  - reflexivity.
  - left. reflexivity.
Defined.

Lemma ctx_alloc_cancel_round_trip_witness :
  (let* id := rve_internal_ctx_alloc_to_get_idr_id aenv_ok in
   rve_job_cancel_by_user_ctx ops_ok id) st_fresh = Ok (0, st_fresh).
Proof.
  apply (ctx_alloc_cancel_round_trip ops_ok aenv_ok st_fresh).
  - reflexivity.
  - reflexivity.
  - reflexivity.
  - reflexivity.
  - vm_compute. split; [discriminate|reflexivity].
Defined.

(** *** Commit at its edges *)

Lemma commit_without_batches_witness :
  exists st',
    rve_job_commit_by_user_ctx ops_ok (fun _ => env_irq) true uc_async st_fresh =
      Ok ((0, set_uc_out_fence_fd 0 uc_async), st') /\
    st_sched st' = st_sched st_fresh /\ st_jobs st' = st_jobs st_fresh /\
    st_pages st' = st_pages st_fresh /\
    st_ctxs st' = <[1 := ctx_reset (idle_ctx 1 0 0 0)]> (st_ctxs st_fresh) /\
    forall env u', uc_id u' = 1 ->
      rve_job_config_by_user_ctx env u' st' = Ok ((- EFAULT, u'), st').
Proof.
  apply (commit_without_batches ops_ok (fun _ => env_irq) true uc_async
           st_fresh (idle_ctx 1 0 0 0)).
  - reflexivity.
  - reflexivity.
  - vm_compute. discriminate.
Defined.

Lemma commit_allocation_failure_witness :
  exists st',
    rve_job_commit_by_user_ctx ops_ok (fun _ => env_irq) true uc_async st_nopage =
      Ok ((- EFAULT, uc_async), st') /\
    st_sched st' = st_sched st_nopage /\ st_jobs st' = st_jobs st_nopage /\
    st_log st' = st_log st_nopage /\
    st_ctxs st' =
      <[1 := set_ctx_sync_mode RVE_SYNC (ctx_reset (idle_ctx 1 1 RVE_ASYNC 0))]>
        (st_ctxs st_nopage).
Proof.
  apply (commit_allocation_failure ops_ok (fun _ => env_irq) true uc_async
           st_nopage (idle_ctx 1 1 RVE_ASYNC 0)).
  - reflexivity.
  - reflexivity.
  - reflexivity.
  - reflexivity.
Defined.

(** *** The ioctl layer and the interrupt thread *)

Lemma ioctl_start_hides_allocation_failure_witness :
  exists id st',
    rve_ioctl_cmd_start aenv_nomem true st_fresh = Ok ((0, Some id), st') /\
    id < 0 /\
    st_ctxs st' = st_ctxs st_fresh /\
    forall cenv u, uc_id u = id ->
      rve_ioctl_cmd_config true cenv u st' = Ok (- EINVAL, st').
Proof.
  apply (ioctl_start_hides_allocation_failure aenv_nomem st_fresh).
  left. reflexivity.
Defined.

Lemma spurious_interrupt_is_dropped_witness :
  rve_job_done ops_ok 0 st_fresh = Fault /\
  rve_irq_thread ops_ok irq_idle = Ok (IRQ_HANDLED, mk_irq_state st_fresh 42).
Proof.
  apply (spurious_interrupt_is_dropped ops_ok irq_idle 0). reflexivity.
Defined.

(** *** Enqueue, completion and cancel on well-formed states *)

Lemma enqueue_links_job_once_witness :
  exists st',
    schedule_locked 13 st_insert = Ok (tt, st') /\
    NoDup (todo_list (st_sched st')) /\
    (forall x, x ∈ todo_list (st_sched st') <-> x = 13 \/ x ∈ [10; 11; 12]) /\
    sublist [10; 11; 12] (todo_list (st_sched st')) /\
    job_count (st_sched st') = 4.
Proof.
  destruct (enqueue_links_job_once 13 (queued_job 1 4) st_insert)
    as (st' & Hrun & Hnd & Hin & Hsub & Hcount & _).
  - reflexivity.
  - apply (bool_decide_unpack _). vm_compute. exact I.
  - repeat (constructor; [eexists; reflexivity|]). constructor.
  - exists st'. split; [exact Hrun|]. split; [exact Hnd|].
    split; [exact Hin|]. split; [exact Hsub|exact Hcount].
Defined.

Lemma job_count_tracks_queue_witness :
  Forall job_count_ok [st_slot1; st_slot2; st_slot3].
Proof.
  apply (job_count_tracks_queue st_slot0 [st_slot1; st_slot2; st_slot3]).
  - apply run_cons; [apply (step_locked RegionNext); reflexivity|].
    apply run_cons; [apply (step_locked RegionDone); reflexivity|].
    apply run_cons; [apply (step_locked RegionNext); reflexivity|].
    apply run_nil.
  - reflexivity.
  - repeat constructor.
Defined.

Lemma enqueue_is_work_conserving_witness :
  exists st',
    rve_job_schedule ops_ok 13 st_insert = Ok (true, st') /\
    (running_job (st_sched st') = None -> todo_list (st_sched st') = []) /\
    queue_wf st' /\ slot_wf st'.
Proof.
  apply (enqueue_is_work_conserving ops_ok 13 (queued_job 1 4) st_insert).
  - reflexivity.
  - reflexivity.
  - vm_compute. eauto.
  - apply (bool_decide_unpack _). vm_compute. exact I.
  - vm_compute. discriminate.
  - split.
    + apply (bool_decide_unpack _). vm_compute. exact I.
    + repeat constructor; eexists; (split; [reflexivity|]); vm_compute; eauto.
  - intros x Hx. injection Hx as <-. split.
    + apply (bool_decide_unpack _). vm_compute. exact I.
    + eexists. split; [reflexivity|]. vm_compute. eauto.
Defined.

Lemma completion_is_work_conserving_witness :
  exists st',
    rve_job_done ops_ok 0 st_live = Ok (tt, st') /\
    running_job (st_sched st') <> Some 10 /\
    (forall x, running_job (st_sched st') = Some x ->
       x ∈ [11] /\ 0 <= run_result ops_ok x) /\
    (running_job (st_sched st') = None -> todo_list (st_sched st') = []) /\
    queue_wf st' /\ slot_wf st'.
Proof.
  apply (completion_is_work_conserving ops_ok 0 10 st_live).
  - reflexivity.
  - intros j Hj. injection Hj as <-.
    apply (bool_decide_unpack _). vm_compute. exact I.
  - intros x Hx. injection Hx as <-. split.
    + apply (bool_decide_unpack _). vm_compute. exact I.
    + eexists. split; [reflexivity|]. vm_compute. eauto.
  - split.
    + apply (bool_decide_unpack _). vm_compute. exact I.
    + repeat constructor; eexists; (split; [reflexivity|]); vm_compute; eauto.
Defined.

Lemma default_priority_is_fifo_witness :
  schedule_all ops_ok [11; 12] st_fifo =
    Ok (tt, with_sched (mk_sched [10; 11; 12] (Some 9) 3) st_fifo).
Proof.
  apply (default_priority_is_fifo ops_ok [11; 12] st_fifo 9 (queued_job 1 0)).
  - reflexivity.
  - reflexivity.
  - left. reflexivity.
  - repeat constructor; eexists; (split; [reflexivity|]); split; reflexivity.
  - vm_compute. discriminate.
  - vm_compute. discriminate.
Defined.

Lemma cancel_unlinks_queued_jobs_witness :
  exists need st',
    cancel_locked 1 st_fail = Ok (need, st') /\
    (forall x, x ∈ todo_list (st_sched st') <->
               x ∈ [30; 31] /\ job_ctx_id st_fail x <> Some 1) /\
    sublist (todo_list (st_sched st')) [30; 31] /\
    st_jobs st' = st_jobs st_fail.
Proof.
  destruct (cancel_unlinks_queued_jobs 1 (committed_ctx 1 1 RVE_SYNC 0) st_fail)
    as (need & st' & Hrun & Hin & Hsub & _ & _ & Hjobs & _).
  - reflexivity.
  - split.
    + apply (bool_decide_unpack _). vm_compute. exact I.
    + repeat constructor; eexists; (split; [reflexivity|]); vm_compute; eauto.
  - intros x Hx. discriminate Hx.
  - exists need, st'. split; [exact Hrun|]. split; [exact Hin|].
    split; [exact Hsub|exact Hjobs].
Defined.

Lemma cancel_leaves_no_dangling_job_witness :
  exists st',
    rve_job_cancel_by_user_ctx ops_ok 1 st_fail = Ok (0, st') /\
    st_ctxs st' !! 1 = None /\
    queue_wf st' /\ slot_wf st' /\
    (forall x, held st' x -> held st_fail x).
Proof.
  apply (cancel_leaves_no_dangling_job ops_ok st_fail 1
           (committed_ctx 1 1 RVE_SYNC 0)).
  - reflexivity.
  - reflexivity.
  - reflexivity.
  - reflexivity.
  - split.
    + apply (bool_decide_unpack _). vm_compute. exact I.
    + repeat constructor; eexists; (split; [reflexivity|]); vm_compute; eauto.
  - intros x Hx. discriminate Hx.
Defined.

Lemma failed_start_is_reported_witness :
  exists st',
    rve_job_commit ops_fail30 env_irq 1 st_commit30 = Ok (- EFAULT, st') /\
    st_jobs st' !! 30 = None /\
    (forall x, x <> 30 -> st_jobs st' !! x = st_jobs st_commit30 !! x) /\
    st_pages st' = [] /\
    In (EvFreePage 30) (st_log st') /\
    running_job (st_sched st') = None /\
    todo_list (st_sched st') = [].
Proof.
  apply (failed_start_is_reported ops_fail30 env_irq 1
           (committed_ctx 1 1 RVE_SYNC 0) 30 [] st_commit30).
  - vm_compute. discriminate.
  - reflexivity.
  - reflexivity.
  - reflexivity.
  - reflexivity.
  - reflexivity.
  - reflexivity.
Defined.

(** *** Power up and down again *)

Lemma rve_power_enable_disable_witness :
  fst (Power.rve_power_disable (snd (Power.rve_power_enable power_three))) = 0 /\
  Power.pw_clks
    (snd (Power.rve_power_disable (snd (Power.rve_power_enable power_three)))) =
    Power.pw_clks power_three /\
  Power.pw_pm_usage
    (snd (Power.rve_power_disable (snd (Power.rve_power_enable power_three)))) =
    Power.pw_pm_usage power_three /\
  Power.pw_pd_refcount
    (snd (Power.rve_power_disable (snd (Power.rve_power_enable power_three)))) =
    int_wrap (Power.pw_pd_refcount power_three - 1).
Proof.
  apply (PowerFacts.rve_power_enable_disable power_three). reflexivity.
Defined.

End Sample.
